(* ===== verification/_CoqProject ===== *)
-Q . S2P
Prelude.v
Schema.v
Clients.v
Conversations.v
SharedContext.v
Messages.v
Invocations.v
Identity.v
Json.v
Invoker.v
MessageQueue.v
Registry.v
Agents.v
EventStore.v
QueueProcessor.v
Dispatcher.v
