(* ===== verification/Prelude.v ===== *)
(** * A verification development of the tulayngmamamo bridge

    tulayngmamamo is a loopback message broker between two command-line
    assistants, [claude] and [codex].  It speaks the tool protocol over
    streamable HTTP ([src/src/mcp/http.ts]), stores conversations,
    messages, shared context, a delivery queue and subprocess invocations
    in SQLite ([src/src/db/*.ts], [src/unnamed/part_004],
    [src/unnamed/part_005]), keeps the live sessions in a process-local
    registry ([src/src/mcp/clientRegistry.ts]), routes every
    [send_message] through a dispatcher ([src/unnamed/part_002]) that
    delivers, enqueues or invokes the [codex] peer, and drains the queue
    from a background processor ([src/unnamed/part_001]).  Each session
    owns an in-memory event log for resumable streams
    ([src/unnamed/part_000]).

    ** How the parts interact

    HTTP transport -> tool server ([mcp/identity.ts], which also holds
    [identifyClient] and the one-shot invoker [router/invoker.ts]) ->
    dispatcher -> {registry, store, Codex peer (persistent MCP client,
    then [codex exec])}.  The queue processor reads the store, including
    the [clients] table that mirrors the registry, and is kicked by the
    transport when a session initialises ([onClientOnline]).

    ** Files, in dependency order

    - [Prelude]       this header; [ClientId]; the state-and-error monad
                      [ST] threading the store through database calls
                      ([do x <- m; k] in [bridge_scope]), the pure
                      exception monad [let! x := r in k], the relational
                      combinators [st_rel]; JavaScript's [includes],
                      [toLowerCase], [toUpperCase]; a stable insertion
                      sort [isort] for [ORDER BY] and the split of a
                      [LIMIT/OFFSET] page ([isort_page]); list lemmas; the
                      hint database [bridge].
    - [Schema]        the tables of [schema.sql] as Records, the CHECK
                      enumerations as Inductives, the store [Db] (tables,
                      process clock [db_clock], UUID supply [db_uuid]),
                      the referential invariant [db_wf], a sample store.
    - [Clients]       [db/clients.ts]: status rows and their invariant.
    - [Conversations] [db/conversations.ts]: create, get, update, close,
                      list.
    - [SharedContext] [part_004] ([db/shared_context.ts]): create, get,
                      paged listings, partial update, delete.
    - [Messages]      [part_005] ([db/messages.ts]): create with the
                      schema's keys, status updates, history, pending
                      messages, the earliest response.
    - [Invocations]   [db/db.ts] second file ([db/invocations.ts]):
                      create, get, latest of a message, paged listings,
                      the partial update with present [null]s.
    - [Identity]      [mcp/identity.ts] first file: [identifyClient],
                      [getOtherClient].
    - [Json]          [JSON.stringify] and [JSON.parse] (ECMAScript
                      built-ins, modelled from the standard) and the
                      JavaScript reads, coercions and iteration the
                      invoker applies to parsed values.
    - [Invoker]       [router/invoker.ts] (fourth file of identity.ts):
                      [buildCodexPrompt], [formatStructuredResponse],
                      [extractCodexResponse], [invokeCodexExec] over a
                      child process given as a function.
    - [MessageQueue]  [db/message_queue.ts]: enqueue, ordered dequeue,
                      attempts, removal, exhausted sweep.
    - [Registry]      [mcp/clientRegistry.ts]: the Map assistant -> session.
    - [Agents]        [agents/*.ts], [part_003]: personas, [getAgent],
                      [selectAgent].
    - [EventStore]    [part_000]: per-stream buffer with TTL and cap
                      pruning, position index, replay; the store as a
                      step relation [es_step] with its reachable states.
    - [QueueProcessor] [part_001]: the drain, retries with backoff, the
                      interleaving at the loop's [await]s, the sweep.
    - [Dispatcher]    [part_002]: [sendMessage] with its three routes, the
                      Codex tiers and the timer as the interfaces
                      [CodexTiers] and [Runtime] (classes with laws), and
                      [waitForResponse] as a clocked polling loop.

    ** What the theorems show

    Store: each operation's result on every branch (rows written,
    timestamps, constraint errors), preservation of [db_wf] (keys unique,
    foreign keys present, one queue row per message, ids drawn from the
    supply), create/get round trips, the partial updates field by field,
    and the listings stated through their columns: the rows split into
    the skipped [OFFSET] rows, the page in [created_at] order and the
    rest.  [createMessage] never reads a conversation's status.  Queue:
    [dequeueMessages] is sound (target, due, not exhausted) and complete
    (a ready row left out means a full batch of rows of higher priority
    or due no later); the sweep removes exactly the exhausted rows.
    Queue processor: the backoff is [min (30 * 2^n) 3600]; an online
    drain delivers every dequeued message; a row on its last attempt is
    never dequeued again and is swept; a disconnect between two awaited
    attempts turns delivery into a retry.  Event store: every reachable
    store keeps increasing ids and the cap; ids round-trip through
    [parseStreamId]; replay is ordered and, with a consistent index,
    exact; for every stream whose oldest events expire, the TTL prune
    leaves the index shifted and the replay skips as many events as
    expired.  Dispatcher: [sendMessage] fails only on an unknown
    conversation and keeps [db_wf] on every route; the online, enqueue
    and Codex routes do what the spec says, except that the returned
    message still says [pending]; a message queued for an offline Claude
    is delivered by the first drain after it connects unless a full
    batch of more urgent rows leaves it out; the Codex context is the 20
    oldest messages.  [waitForResponse] terminates and answers only with
    a stored response or after the timeout.  Invoker: the bounded
    exploration buffers equal the last two and three of the unbounded
    collection; [invokeCodexExec] writes only the invocations table and
    so implements the [exec_frame] law the dispatcher's [CodexTiers]
    interface assumes (the refinement); with a resolving child its
    result is the extraction's, the row never ends [timeout]; a [null]
    event line loses the answer, the newest agent message is the answer
    (an empty one replaced by the raw stream), and a numeric
    [output_text] is returned as a number.  Agents: [selectAgent] is
    exactly the trigger-substring rule; [getAgent] returns inherited
    [Object.prototype] members.  Conversations: a reopen keeps
    [closed_at].

    ** Bounds and fuel

    [waitForResponse] runs on fuel [ceil(timeout / 100) + 1]: each sleep
    lasts at least its interval, intervals never drop below 100 ms
    (800 eighths of a millisecond, kept exact under [* 1.5]), so the
    elapsed time passes the timeout before the fuel is spent
    ([waitForResponse_terminates]).  [JSON.parse] runs on fuel
    [2 * length + 1], which [json_parse_terminates] shows is never
    exhausted: every call consumes input.  Every other definition is
    structurally recursive.

    ** Modelling choices

    - Time: [Date.now()] and [strftime('now')] are one process clock,
      [db_clock] (ms, [Z]); it does not move inside a synchronous store
      call and moves across sleeps ([Runtime.sleep]) and across the
      awaited child process (its elapsed time).
    - [randomUUID()] draws the next value of [db_uuid]; UUIDs are [N].
    - Tables are association lists in rowid order; [ORDER BY] is a stable
      insertion sort (SQLite leaves ties unspecified; a stable order is
      one of the orders it may return).
    - Strings are byte strings: [.length], [.slice] and lower/upper
      casing act on bytes, casing on ASCII only (JavaScript counts UTF-16
      units and maps a few non-ASCII letters, such as the Kelvin sign, to
      ASCII).  JSON numbers are exact decimals (see [Json]).
    - Awaited calls run to completion except where an explicit
      interleaving is modelled; a failed store call discards the state
      (no write precedes an error on a well-formed store).

    ** Not modelled

    The HTTP transport and session map ([mcp/http.ts]), the tool
    handlers of [createMcpServer] ([mcp/identity.ts]), the persistent
    Codex MCP client ([router/codexMcpClient.ts], seen by the dispatcher
    through [CodexTiers.mcp_send]), the memorantado sync, database
    opening and migration ([openDb]), the loopback filter
    ([security.ts]), the entry point ([part_006]), full-text search and
    the queue statistics report. *)

From stdpp Require Export base gmap strings list.
From Stdlib Require Export ZArith Lia Sorted.

Declare Scope bridge_scope.
Delimit Scope bridge_scope with bridge.
Open Scope bridge_scope.

Create HintDb bridge discriminated.

(** ** Assistant identities ([db/clients.ts]: [type ClientId]) *)

Inductive ClientId := claude | codex.

#[export] Instance ClientId_eq_dec : EqDecision ClientId.
Proof. solve_decision. Defined.

Definition ClientId_to_bool (c : ClientId) : bool :=
  match c with claude => true | codex => false end.
Definition ClientId_of_bool (b : bool) : ClientId :=
  if b then claude else codex.

#[export] Instance ClientId_countable : Countable ClientId.
Proof.
  refine (inj_countable' ClientId_to_bool ClientId_of_bool _).
  by intros [].
Defined.

(** ** Errors and the state-and-error monad

    A store call either returns a value and the new store, or raises:
    SQLite raises on constraint violations ([ErrSql]) and the program
    throws its own errors ([ErrThrown]). *)

Inductive error :=
| ErrSql (msg : string)
| ErrThrown (msg : string).

Inductive result (A : Type) :=
| Ok (a : A)
| Fail (e : error).
Arguments Ok {A} a.
Arguments Fail {A} e.

Definition ST (S A : Type) := S -> result (A * S).

Definition st_ret {S A} (a : A) : ST S A := fun s => Ok (a, s).

Definition st_bind {S A B} (m : ST S A) (k : A -> ST S B) : ST S B :=
  fun s => match m s with
           | Ok (a, s') => k a s'
           | Fail e => Fail e
           end.

Definition st_fail {S A} (e : error) : ST S A := fun _ => Fail e.
Definition st_get {S} : ST S S := fun s => Ok (s, s).
Definition st_put {S} (s : S) : ST S unit := fun _ => Ok (tt, s).

Notation "'do' x <- m ; k" := (st_bind m (fun x => k))
  (at level 60, x name, m at next level, right associativity) : bridge_scope.
Notation "'do' ' p <- m ; k" := (st_bind m (fun x => match x with p => k end))
  (at level 60, p pattern, m at next level, right associativity) : bridge_scope.

Lemma st_bind_ok {S A B} (m : ST S A) (k : A -> ST S B) s a s' :
  m s = Ok (a, s') -> st_bind m k s = k a s'.
Proof. intros H. unfold st_bind. by rewrite H. Qed.

Lemma st_bind_fail {S A B} (m : ST S A) (k : A -> ST S B) s e :
  m s = Fail e -> st_bind m k s = Fail e.
Proof. intros H. unfold st_bind. by rewrite H. Qed.

Lemma st_bind_inv {S A B} (m : ST S A) (k : A -> ST S B) s b s'' :
  st_bind m k s = Ok (b, s'') ->
  exists a s', m s = Ok (a, s') /\ k a s' = Ok (b, s'').
Proof.
  unfold st_bind. destruct (m s) as [[a s']|e]; [|done]. eauto.
Qed.

#[export] Hint Resolve st_bind_ok st_bind_fail : bridge.

(** A property [P] of states is preserved by a computation when every
    successful run from a state satisfying [P] ends in one. *)
Definition st_preserves {S A} (P : S -> Prop) (m : ST S A) : Prop :=
  forall s a s', P s -> m s = Ok (a, s') -> P s'.

Lemma st_preserves_ret {S A} (P : S -> Prop) (a : A) : st_preserves P (st_ret a).
Proof. intros s a' s' HP H. by injection H as <- <-. Qed.

Lemma st_preserves_fail {S A} (P : S -> Prop) e : st_preserves P (@st_fail S A e).
Proof. by intros s a s' _ H. Qed.

Lemma st_preserves_bind {S A B} (P : S -> Prop) (m : ST S A) (k : A -> ST S B) :
  st_preserves P m -> (forall a, st_preserves P (k a)) ->
  st_preserves P (st_bind m k).
Proof.
  intros Hm Hk s b s'' HP H.
  destruct (st_bind_inv m k s b s'' H) as (a & s' & H1 & H2).
  exact (Hk a s' b s'' (Hm s a s' HP H1) H2).
Qed.

#[export] Hint Resolve st_preserves_ret st_preserves_fail st_preserves_bind : bridge.

(** ** Strings: JavaScript's [includes] and [toLowerCase]

    [includes hay needle] is [hay.includes(needle)]: [needle] occurs at
    some position of [hay].  [to_lower] lowers the ASCII letters and
    leaves every other byte as it is (strings are byte strings here). *)

Fixpoint includes (hay needle : string) : bool :=
  String.prefix needle hay ||
  match hay with
  | EmptyString => false
  | String _ rest => includes rest needle
  end.

Definition ascii_to_lower (a : Ascii.ascii) : Ascii.ascii :=
  let n := Ascii.nat_of_ascii a in
  if (65 <=? n)%nat && (n <=? 90)%nat then Ascii.ascii_of_nat (n + 32) else a.

Fixpoint to_lower (s : string) : string :=
  match s with
  | EmptyString => EmptyString
  | String a rest => String (ascii_to_lower a) (to_lower rest)
  end.

(** stdpp makes [String.append] opaque to [simpl]; these are its two
    equations, used as rewrite rules. *)
Lemma string_app_nil (s : string) : "" +:+ s = s.
Proof. reflexivity. Qed.

Lemma string_app_cons (a : Ascii.ascii) (s t : string) :
  String a s +:+ t = String a (s +:+ t).
Proof. reflexivity. Qed.

Create Rewrite HintDb bridge_str.
#[export] Hint Rewrite string_app_nil string_app_cons : bridge_str.

Lemma prefix_app (p s : string) : String.prefix p (p +:+ s) = true.
Proof.
  induction p as [|a p IH]; [by destruct s|].
  rewrite string_app_cons. simpl. destruct (Ascii.ascii_dec a a); [done|congruence].
Qed.

Lemma prefix_spec (p s : string) :
  String.prefix p s = true <-> exists t, s = p +:+ t.
Proof.
  split.
  - revert s. induction p as [|a p IH]; intros s H; [by exists s|].
    destruct s as [|b s]; [done|]. simpl in H.
    destruct (Ascii.ascii_dec a b) as [->|]; [|done].
    destruct (IH s H) as [t ->]. by exists t.
  - intros [t ->]. apply prefix_app.
Qed.

Lemma includes_cons (a : Ascii.ascii) (hay needle : string) :
  includes (String a hay) needle =
  String.prefix needle (String a hay) || includes hay needle.
Proof. reflexivity. Qed.

(** [includes] holds exactly when [needle] is a factor of [hay]. *)
Lemma includes_spec (hay needle : string) :
  includes hay needle = true <-> exists pre post, hay = pre +:+ needle +:+ post.
Proof.
  split.
  - induction hay as [|a hay IH]; intros H.
    + destruct needle; [|done]. by exists "", "".
    + rewrite includes_cons in H. apply orb_true_iff in H as [H|H].
      * apply prefix_spec in H as [t Ht]. by exists "", t.
      * destruct (IH H) as (pre & post & ->). exists (String a pre), post.
        by rewrite string_app_cons.
  - intros (pre & post & ->). induction pre as [|a pre IH].
    + destruct needle as [|a n]; [by destruct post|].
      rewrite string_app_nil, string_app_cons, includes_cons, <- string_app_cons.
      by rewrite prefix_app.
    + rewrite string_app_cons, includes_cons, IH. apply orb_true_r.
Qed.

Lemma string_app_assoc (a b c : string) : a +:+ (b +:+ c) = (a +:+ b) +:+ c.
Proof. induction a as [|x a IH]; autorewrite with bridge_str; congruence. Qed.

Lemma includes_app_r (hay needle post : string) :
  includes hay needle = true -> includes (hay +:+ post) needle = true.
Proof.
  rewrite !includes_spec. intros (pre & p & ->).
  exists pre, (p +:+ post). by rewrite !string_app_assoc.
Qed.

#[export] Hint Resolve includes_app_r : bridge.

(** ** Lists: finding the first element that satisfies a test *)

Fixpoint find_first {A} (f : A -> bool) (l : list A) : option A :=
  match l with
  | [] => None
  | x :: l' => if f x then Some x else find_first f l'
  end.

Lemma find_first_Some {A} (f : A -> bool) l x :
  find_first f l = Some x -> x ∈ l /\ f x = true.
Proof.
  induction l as [|y l IH]; simpl; [done|].
  destruct (f y) eqn:E; [intros [= <-]; split; [left|]; done|].
  intros H. destruct (IH H). split; [by right|done].
Qed.

Lemma find_first_None {A} (f : A -> bool) l :
  find_first f l = None -> forall x, x ∈ l -> f x = false.
Proof.
  induction l as [|y l IH]; simpl; intros H x Hx; [by apply elem_of_nil in Hx|].
  destruct (f y) eqn:E; [done|].
  apply elem_of_cons in Hx as [->|Hx]; auto.
Qed.

#[export] Hint Resolve find_first_Some find_first_None : bridge.

(** ** Reads and infallible writes inside [ST] *)

Definition st_read {S A} (f : S -> A) : ST S A := fun s => Ok (f s, s).
Definition st_modify {S} (f : S -> S) : ST S unit := fun s => Ok (tt, f s).

Lemma st_preserves_read {S A} (P : S -> Prop) (f : S -> A) : st_preserves P (st_read f).
Proof. intros s a s' HP H. by injection H as <- <-. Qed.

Lemma st_preserves_modify {S} (P : S -> Prop) (f : S -> S) :
  (forall s, P s -> P (f s)) -> st_preserves P (st_modify f).
Proof. intros Hf s a s' HP H. injection H as <- <-. auto. Qed.

#[export] Hint Resolve st_preserves_read st_preserves_modify : bridge.

(** ** [ORDER BY]: a stable insertion sort

    [isort le l] orders [l] by the boolean preorder [le]; an element is
    inserted before the first element it is [le] to, so rows that tie
    keep their table (rowid) order, as SQLite's index scans do. *)

Section Isort.
Context {A : Type} (le : A -> A -> bool).

Fixpoint insert_by (x : A) (l : list A) : list A :=
  match l with
  | [] => [x]
  | y :: l' => if le x y then x :: y :: l' else y :: insert_by x l'
  end.

Fixpoint isort (l : list A) : list A :=
  match l with
  | [] => []
  | x :: l' => insert_by x (isort l')
  end.

Lemma insert_by_perm x l : insert_by x l ≡ₚ x :: l.
Proof.
  induction l as [|y l IH]; simpl; [done|].
  destruct (le x y); [done|]. rewrite IH. by constructor.
Qed.

Lemma isort_perm l : isort l ≡ₚ l.
Proof.
  induction l as [|x l IH]; simpl; [done|]. by rewrite insert_by_perm, IH.
Qed.

Context (le_total : forall x y, le x y = true \/ le y x = true).
Context (le_trans : forall x y z, le x y = true -> le y z = true -> le x z = true).

Definition le_rel (x y : A) : Prop := le x y = true.

Lemma insert_by_sorted x l :
  StronglySorted le_rel l -> StronglySorted le_rel (insert_by x l).
Proof.
  induction 1 as [|y l Hs IH Hall]; simpl.
  - repeat constructor.
  - destruct (le x y) eqn:Exy.
    + constructor; [by constructor|].
      constructor; [done|]. eapply Forall_impl; [exact Hall|].
      intros z Hz. unfold le_rel in *. eauto.
    + constructor; [done|].
      apply Forall_forall. intros z Hz.
      apply (elem_of_Permutation_proper _ _ _ (insert_by_perm x l)) in Hz.
      apply elem_of_cons in Hz as [->|Hz].
      * unfold le_rel. destruct (le_total x y); congruence.
      * by eapply Forall_forall in Hall.
Qed.

Lemma isort_sorted l : StronglySorted le_rel (isort l).
Proof.
  induction l as [|x l IH]; simpl; [constructor|]. by apply insert_by_sorted.
Qed.
End Isort.

Lemma elem_of_isort {A} (le : A -> A -> bool) l x : x ∈ isort le l <-> x ∈ l.
Proof. apply elem_of_Permutation_proper, isort_perm. Qed.

#[export] Hint Resolve isort_perm isort_sorted : bridge.

(** ** [find_first] through appends and maps *)

Lemma find_first_app {A} (f : A -> bool) l1 l2 :
  find_first f (l1 ++ l2) =
  match find_first f l1 with Some x => Some x | None => find_first f l2 end.
Proof. induction l1 as [|x l1 IH]; simpl; [done|]. by destruct (f x). Qed.

Lemma find_first_map {A} (f : A -> bool) (g : A -> A) l :
  (forall x, f (g x) = f x) -> find_first f (map g l) = g <$> find_first f l.
Proof.
  intros Hg. induction l as [|x l IH]; simpl; [done|]. rewrite Hg. by destruct (f x).
Qed.

(** The head of a list sorted by a preorder is below every element. *)
Lemma head_StronglySorted {A} (R : A -> A -> Prop) (l : list A) x :
  StronglySorted R l -> head l = Some x -> forall y, y ∈ l -> y <> x -> R x y.
Proof.
  intros Hs Hh y Hy Hne. destruct l as [|z l]; [done|]. simpl in Hh. injection Hh as ->.
  inversion Hs as [|? ? _ Hall]; subst. apply elem_of_cons in Hy as [->|Hy]; [done|].
  by eapply Forall_forall in Hall.
Qed.

Lemma fmap_map_ext {A B} (g : A -> B) (f : A -> A) (l : list A) :
  (forall x, g (f x) = g x) -> g <$> map f l = g <$> l.
Proof. intros H. induction l as [|x l IH]; simpl; [done|]. f_equal; [apply H|exact IH]. Qed.

(** ** Boolean filters *)

Lemma elem_of_list_filter_bool {A} (f : A -> bool) l x :
  x ∈ List.filter f l <-> x ∈ l /\ f x = true.
Proof. rewrite !list_elem_of_In. apply filter_In. Qed.

Lemma NoDup_fmap_filter {A B} (g : A -> B) (f : A -> bool) l :
  NoDup (g <$> l) -> NoDup (g <$> List.filter f l).
Proof.
  induction l as [|x l IH]; simpl; [done|]. intros Hnd. apply NoDup_cons in Hnd as [Hx Hnd].
  destruct (f x); simpl; [|auto]. apply NoDup_cons. split; [|auto].
  intros Hin. apply Hx. apply list_elem_of_fmap in Hin as (y & -> & Hy).
  apply list_elem_of_fmap. exists y. split; [done|].
  by apply elem_of_list_filter_bool in Hy as [? _].
Qed.

Lemma Forall_filter_bool {A} (P : A -> Prop) (f : A -> bool) l :
  Forall P l -> Forall P (List.filter f l).
Proof.
  rewrite !Forall_forall. intros H x Hx. apply elem_of_list_filter_bool in Hx as [Hx _]. auto.
Qed.

(** In a list sorted by [R], every element of a prefix is [R]-below
    every element of the rest. *)
Lemma StronglySorted_app_rel {A} (R : A -> A -> Prop) (l1 l2 : list A) x y :
  StronglySorted R (l1 ++ l2) -> x ∈ l1 -> y ∈ l2 -> R x y.
Proof.
  induction l1 as [|z l1 IH]; simpl; intros Hs Hx Hy; [by apply elem_of_nil in Hx|].
  inversion Hs as [|? ? Hs' Hall]; subst.
  apply elem_of_cons in Hx as [->|Hx]; [|auto].
  eapply Forall_forall in Hall; [exact Hall|]. apply elem_of_app. by right.
Qed.

#[export] Hint Resolve NoDup_fmap_filter Forall_filter_bool : bridge.

Lemma StronglySorted_take {A} (R : A -> A -> Prop) (l : list A) n :
  StronglySorted R l -> StronglySorted R (take n l).
Proof.
  revert n. induction l as [|x l IH]; intros [|n] Hs; simpl; [constructor..|].
  inversion Hs as [|? ? Hs' Hall]; subst. constructor; [by apply IH|].
  apply Forall_forall. intros y Hy. apply elem_of_take in Hy as (i & Hi & _).
  eapply Forall_forall in Hall; [exact Hall|]. by eapply list_elem_of_lookup_2.
Qed.

Lemma filter_split_length {A} (f : A -> bool) (l : list A) :
  (length (List.filter (fun x => negb (f x)) l) + length (List.filter f l) = length l)%nat.
Proof. induction l as [|x l IH]; simpl; [done|]. destruct (f x); simpl; lia. Qed.

Lemma StronglySorted_drop {A} (R : A -> A -> Prop) (l : list A) n :
  StronglySorted R l -> StronglySorted R (drop n l).
Proof.
  revert n. induction l as [|x l IH]; intros [|n] Hs; simpl; try done.
  inversion Hs; subst. by apply IH.
Qed.

Lemma StronglySorted_impl {A} (R R' : A -> A -> Prop) (l : list A) :
  (forall x y, R x y -> R' x y) -> StronglySorted R l -> StronglySorted R' l.
Proof.
  intros H. induction 1 as [|x l Hs IH Hall]; constructor; [done|].
  eapply Forall_impl; [exact Hall|]. auto.
Qed.

Lemma StronglySorted_lt_NoDup (l : list nat) : StronglySorted lt l -> NoDup l.
Proof.
  induction 1 as [|x l Hs IH Hall]; constructor; [|done].
  intros Hin. eapply Forall_forall in Hall; [|exact Hin]. lia.
Qed.

Lemma NoDup_take {A} (l : list A) n : NoDup l -> NoDup (take n l).
Proof. intros H. rewrite <- (take_drop n l) in H. by apply NoDup_app in H as [? _]. Qed.

Lemma filter_perm_bool {A} (f : A -> bool) (l l' : list A) :
  l ≡ₚ l' -> List.filter f l ≡ₚ List.filter f l'.
Proof.
  induction 1 as [|x l l' _ IH|x y l|l l' l'' _ IH1 _ IH2]; simpl.
  - done.
  - destruct (f x); [by constructor|done].
  - destruct (f x), (f y); try done. by constructor.
  - by etrans.
Qed.

(** A boolean filter drops something exactly when some element fails it. *)
Lemma filter_length_lt {A} (f : A -> bool) l :
  (length (List.filter f l) < length l)%nat <-> Exists (fun x => f x = false) l.
Proof.
  induction l as [|x l IH]; simpl.
  - split; [lia|]. by intros ?%Exists_nil.
  - rewrite Exists_cons. pose proof (filter_split_length f l).
    destruct (f x) eqn:E; simpl; rewrite <- IH; intuition (try lia; try congruence).
Qed.

Lemma find_first_is_Some {A} (f : A -> bool) l :
  is_Some (find_first f l) <-> Exists (fun x => f x = true) l.
Proof.
  induction l as [|x l IH]; simpl.
  - split; [by intros []|]. by intros ?%Exists_nil.
  - rewrite Exists_cons, <- IH. destruct (f x); intuition (try done; try congruence).
Qed.

(** [LIMIT a OFFSET o] followed by [LIMIT b OFFSET (o + a)] is
    [LIMIT (a + b) OFFSET o]. *)
Lemma take_drop_pages {A} (l : list A) o a b :
  take a (drop o l) ++ take b (drop (o + a) l) = take (a + b) (drop o l).
Proof. by rewrite <- drop_drop, take_take_drop. Qed.

Lemma filter_nil_bool {A} (f : A -> bool) l :
  (forall x, x ∈ l -> f x = false) -> List.filter f l = [].
Proof.
  induction l as [|x l IH]; intros H; simpl; [done|].
  rewrite H by left. apply IH. intros y Hy. apply H. by right.
Qed.

(** ** [ORDER BY ... LIMIT ? OFFSET ?] *)

Definition sql_page {A} (le : A -> A -> bool) (limit offset : nat) (rows : list A) : list A :=
  take limit (drop offset (isort le rows)).

(** A page holds rows of the input, in the order, at most [limit] of
    them. *)
Lemma sql_page_spec {A} (le : A -> A -> bool) limit offset rows :
  (forall x y, le x y = true \/ le y x = true) ->
  (forall x y z, le x y = true -> le y z = true -> le x z = true) ->
  (forall x, x ∈ sql_page le limit offset rows -> x ∈ rows) /\
  StronglySorted (le_rel le) (sql_page le limit offset rows) /\
  (length (sql_page le limit offset rows) <= limit)%nat.
Proof.
  intros Htot Htr. unfold sql_page. split; [|split].
  - intros x Hx. apply (elem_of_isort le).
    by eapply elem_of_sublist, sublist_drop; eapply elem_of_sublist, sublist_take.
  - by apply StronglySorted_take, StronglySorted_drop, isort_sorted.
  - rewrite length_take. lia.
Qed.

(** [LIMIT limit OFFSET offset] over [ORDER BY]: the input splits, up to
    permutation, into the [offset] rows before the page, the page, and
    the rows after it; each part is ordered before the next, and the
    page is in order. *)
Lemma isort_page {A} (le : A -> A -> bool) limit offset rows :
  (forall x y, le x y = true \/ le y x = true) ->
  (forall x y z, le x y = true -> le y z = true -> le x z = true) ->
  let page := take limit (drop offset (isort le rows)) in
  exists before after,
    rows ≡ₚ before ++ page ++ after /\
    length before = Nat.min offset (length rows) /\
    length page = Nat.min limit (length rows - offset) /\
    (forall x y, x ∈ before -> y ∈ page -> le x y = true) /\
    (forall x y, x ∈ page -> y ∈ after -> le x y = true) /\
    StronglySorted (le_rel le) page.
Proof.
  intros Htot Htr page. set (s := isort le rows).
  assert (Hs : StronglySorted (le_rel le) s) by by apply isort_sorted.
  assert (Hl : length s = length rows) by apply Permutation_length, isort_perm.
  exists (take offset s), (drop limit (drop offset s)). split_and!.
  - rewrite <- (isort_perm le rows). fold s. unfold page.
    by rewrite take_drop, take_drop.
  - rewrite length_take. lia.
  - unfold page. fold s. rewrite length_take, length_drop. lia.
  - intros x y Hx Hy. apply (StronglySorted_app_rel (le_rel le) (take offset s) (drop offset s));
      [by rewrite take_drop|done|].
    unfold page in Hy. fold s in Hy. eapply elem_of_sublist; [exact Hy|apply sublist_take].
  - intros x y Hx Hy. apply (StronglySorted_app_rel (le_rel le) page (drop limit (drop offset s)));
      [unfold page; rewrite take_drop; by apply StronglySorted_drop|done|done].
  - by apply StronglySorted_take, StronglySorted_drop.
Qed.

(** ** Pure computations that may throw

    [result] on its own is the exception monad of code that does not
    touch the store; [let! x := r in k] runs [k] on the value of [r] and
    passes an exception on. *)

Definition res_bind {A B} (r : result A) (k : A -> result B) : result B :=
  match r with Ok a => k a | Fail e => Fail e end.

Notation "'let!' x ':=' r 'in' k" := (res_bind r (fun x => k))
  (at level 200, x name, r at level 100, k at level 200) : bridge_scope.

Lemma res_bind_ok {A B} (a : A) (k : A -> result B) : res_bind (Ok a) k = k a.
Proof. reflexivity. Qed.

Lemma res_bind_Ok_inv {A B} (r : result A) (k : A -> result B) b :
  res_bind r k = Ok b -> exists a, r = Ok a /\ k a = Ok b.
Proof. destruct r as [a|e]; simpl; [eauto|done]. Qed.

(** [st_lift r]: a pure computation inside [ST]. *)
Definition st_lift {S A} (r : result A) : ST S A :=
  fun s => match r with Ok a => Ok (a, s) | Fail e => Fail e end.

(** [s.toUpperCase()] on the ASCII letters. *)
Definition ascii_to_upper (a : Ascii.ascii) : Ascii.ascii :=
  let n := Ascii.nat_of_ascii a in
  if (97 <=? n)%nat && (n <=? 122)%nat then Ascii.ascii_of_nat (n - 32) else a.

Fixpoint to_upper (s : string) : string :=
  match s with
  | EmptyString => EmptyString
  | String a rest => String (ascii_to_upper a) (to_upper rest)
  end.

(** [lastn n l]: the last [n] elements of [l]. *)
Definition lastn {A} (n : nat) (l : list A) : list A := drop (length l - n) l.

(** ** Relations between the state before and after a computation

    [st_rel R m]: every successful run of [m] relates its initial and
    final states by [R].  For a preorder [R] this composes through
    [st_bind], so a frame condition of a whole handler follows from one
    of each of its steps. *)

Definition st_rel {S A} (R : S -> S -> Prop) (m : ST S A) : Prop :=
  forall s a s', m s = Ok (a, s') -> R s s'.

Section StRel.
Context {S : Type} (R : S -> S -> Prop).
Context (R_refl : forall s, R s s).
Context (R_trans : forall s1 s2 s3, R s1 s2 -> R s2 s3 -> R s1 s3).

Lemma st_rel_ret {A} (a : A) : st_rel R (st_ret a).
Proof. intros s a' s' H. injection H as _ <-. apply R_refl. Qed.

Lemma st_rel_fail {A} e : st_rel R (@st_fail S A e).
Proof. by intros s a s' H. Qed.

Lemma st_rel_read {A} (f : S -> A) : st_rel R (st_read f).
Proof. intros s a s' H. injection H as _ <-. apply R_refl. Qed.

Lemma st_rel_modify (f : S -> S) : (forall s, R s (f s)) -> st_rel R (st_modify f).
Proof. intros Hf s a s' H. injection H as _ <-. apply Hf. Qed.

Lemma st_rel_bind {A B} (m : ST S A) (k : A -> ST S B) :
  st_rel R m -> (forall a, st_rel R (k a)) -> st_rel R (st_bind m k).
Proof.
  intros Hm Hk s b s'' H. destruct (st_bind_inv m k s b s'' H) as (a & s' & H1 & H2).
  exact (R_trans _ _ _ (Hm _ _ _ H1) (Hk _ _ _ _ H2)).
Qed.
End StRel.

Lemma lastn_length {A} n (l : list A) : (length (lastn n l) <= n)%nat.
Proof. unfold lastn. rewrite length_drop. lia. Qed.

Lemma lastn_small {A} n (l : list A) : (length l <= n)%nat -> lastn n l = l.
Proof. intros H. unfold lastn. by replace (length l - n)%nat with 0%nat by lia. Qed.

(** Keeping the last [n] of a prefix loses nothing the last [n] of the
    whole list needs. *)
Lemma lastn_app_lastn {A} n (l m : list A) : lastn n (lastn n l ++ m) = lastn n (l ++ m).
Proof.
  unfold lastn. rewrite length_app, length_drop, length_app.
  destruct (decide (length l <= n)%nat) as [Hle|Hgt].
  - replace (length l - n)%nat with 0%nat by lia. by rewrite Nat.sub_0_r, drop_0.
  - rewrite <- drop_app_le by lia. rewrite drop_drop. f_equal. lia.
Qed.
