(* ===== verification/Schema.v ===== *)
(** * Schema: the rows of [schema.sql] and the store

    The tables of [src/unnamed/part_005] (third file of the bundle,
    [schema.sql]) as Records, their CHECK enumerations as Inductives, and
    the store [Db]: one association list per table in rowid order, the
    process clock read by [strftime('now')] and [Date.now()], and the
    supply that [randomUUID()] draws from.  Also the two primitive reads
    every table module shares: [SELECT * ... WHERE id = ?] as
    [find_first], and the fresh-id draw. *)

From S2P Require Import Prelude.

(** ** Enumerations (CHECK clauses) *)

Inductive ClientStatus := cs_online | cs_offline | cs_busy.

Inductive ConversationStatus := conv_active | conv_pending | conv_completed | conv_archived.

Inductive MessageType :=
| mt_message | mt_research_request | mt_research_response
| mt_review_request | mt_review_response | mt_context_share | mt_system.

Inductive MessagePriority := prio_normal | prio_high | prio_urgent.

Inductive MessageStatus := ms_pending | ms_delivered | ms_read | ms_responded.

Inductive InvocationType := it_codex_exec | it_claude_mcp.

Inductive InvocationStatus :=
| inv_pending | inv_running | inv_completed | inv_failed | inv_timeout.

#[export] Instance ClientStatus_eq_dec : EqDecision ClientStatus.
Proof. solve_decision. Defined.
#[export] Instance ConversationStatus_eq_dec : EqDecision ConversationStatus.
Proof. solve_decision. Defined.
#[export] Instance MessageType_eq_dec : EqDecision MessageType.
Proof. solve_decision. Defined.
#[export] Instance MessagePriority_eq_dec : EqDecision MessagePriority.
Proof. solve_decision. Defined.
#[export] Instance MessageStatus_eq_dec : EqDecision MessageStatus.
Proof. solve_decision. Defined.
#[export] Instance InvocationStatus_eq_dec : EqDecision InvocationStatus.
Proof. solve_decision. Defined.

(** UUIDs ([randomUUID()]) and timestamps (milliseconds). *)
Abbreviation Uuid := N.
Abbreviation Timestamp := Z.

(** ** Rows *)

(** [clients] ([db/clients.ts]: [interface Client]) *)
Record Client := mkClient {
  client_id : ClientId;
  client_display_name : string;
  client_last_seen_at : option Timestamp;
  client_session_id : option string;
  client_status : ClientStatus;
  client_created_at : Timestamp;
}.

(** [conversations] ([db/conversations.ts]: [interface Conversation]) *)
Record Conversation := mkConversation {
  conv_id : Uuid;
  conv_title : option string;
  conv_project : option string;
  conv_status : ConversationStatus;
  conv_created_by : ClientId;
  conv_created_at : Timestamp;
  conv_updated_at : Timestamp;
  conv_closed_at : option Timestamp;
  conv_summary : option string;
  conv_metadata : option string;
}.

(** [messages] ([db/messages.ts]: [interface Message]) *)
Record Message := mkMessage {
  msg_id : Uuid;
  msg_conversation_id : Uuid;
  msg_sender : ClientId;
  msg_target : ClientId;
  msg_content : string;
  msg_type : MessageType;
  msg_priority : MessagePriority;
  msg_status : MessageStatus;
  msg_response_to_id : option Uuid;
  msg_created_at : Timestamp;
  msg_delivered_at : option Timestamp;
  msg_read_at : option Timestamp;
  msg_metadata : option string;
}.

(** [message_queue] ([db/message_queue.ts]: [interface QueuedMessage]);
    [id] is the INTEGER PRIMARY KEY (the rowid). *)
Record QueuedMessage := mkQueuedMessage {
  q_id : N;
  q_message_id : Uuid;
  q_target : ClientId;
  q_priority : Z;
  q_attempts : Z;
  q_max_attempts : Z;
  q_next_attempt : Timestamp;
  q_created_at : Timestamp;
}.

(** [invocations] ([db/invocations.ts]: [interface Invocation]) *)
Record Invocation := mkInvocation {
  inv_id : Uuid;
  inv_target : ClientId;
  inv_message_id : Uuid;
  inv_type : InvocationType;
  inv_status : InvocationStatus;
  inv_command : option string;
  inv_stdout : option string;
  inv_stderr : option string;
  inv_exit_code : option Z;
  inv_started_at : option Timestamp;
  inv_completed_at : option Timestamp;
  inv_created_at : Timestamp;
}.

(** [shared_context] ([part_004]: [interface SharedContext]); the
    [context_type] CHECK as [ContextType]. *)
Inductive ContextType := ctx_file | ctx_snippet | ctx_entity | ctx_memory_item | ctx_url.

Record SharedContext := mkSharedContext {
  sc_id : Uuid;
  sc_conversation_id : option Uuid;
  sc_context_type : ContextType;
  sc_content : string;
  sc_description : option string;
  sc_shared_by : ClientId;
  sc_memorantado_id : option Z;
  sc_created_at : Timestamp;
}.

#[export] Instance ContextType_eq_dec : EqDecision ContextType.
Proof. solve_decision. Defined.
#[export] Instance SharedContext_eq_dec : EqDecision SharedContext.
Proof. solve_decision. Defined.
#[export] Instance InvocationType_eq_dec : EqDecision InvocationType.
Proof. solve_decision. Defined.
#[export] Instance Client_eq_dec : EqDecision Client.
Proof. solve_decision. Defined.
#[export] Instance Conversation_eq_dec : EqDecision Conversation.
Proof. solve_decision. Defined.
#[export] Instance Message_eq_dec : EqDecision Message.
Proof. solve_decision. Defined.
#[export] Instance QueuedMessage_eq_dec : EqDecision QueuedMessage.
Proof. solve_decision. Defined.
#[export] Instance Invocation_eq_dec : EqDecision Invocation.
Proof. solve_decision. Defined.

(** ** The store *)

Record Db := mkDb {
  db_clients : list Client;
  db_conversations : list Conversation;
  db_messages : list Message;
  db_queue : list QueuedMessage;
  db_invocations : list Invocation;
  db_context : list SharedContext;
  db_clock : Timestamp;
  db_uuid : Uuid;
}.

Definition set_clients (cs : list Client) (d : Db) : Db :=
  mkDb cs (db_conversations d) (db_messages d) (db_queue d) (db_invocations d) (db_context d)
       (db_clock d) (db_uuid d).
Definition set_conversations (cs : list Conversation) (d : Db) : Db :=
  mkDb (db_clients d) cs (db_messages d) (db_queue d) (db_invocations d) (db_context d)
       (db_clock d) (db_uuid d).
Definition set_messages (ms : list Message) (d : Db) : Db :=
  mkDb (db_clients d) (db_conversations d) ms (db_queue d) (db_invocations d) (db_context d)
       (db_clock d) (db_uuid d).
Definition set_queue (q : list QueuedMessage) (d : Db) : Db :=
  mkDb (db_clients d) (db_conversations d) (db_messages d) q (db_invocations d) (db_context d)
       (db_clock d) (db_uuid d).
Definition set_invocations (ivs : list Invocation) (d : Db) : Db :=
  mkDb (db_clients d) (db_conversations d) (db_messages d) (db_queue d) ivs
       (db_context d) (db_clock d) (db_uuid d).
Definition set_context (xs : list SharedContext) (d : Db) : Db :=
  mkDb (db_clients d) (db_conversations d) (db_messages d) (db_queue d)
       (db_invocations d) xs (db_clock d) (db_uuid d).
Definition set_clock (t : Timestamp) (d : Db) : Db :=
  mkDb (db_clients d) (db_conversations d) (db_messages d) (db_queue d)
       (db_invocations d) (db_context d) t (db_uuid d).

(** [randomUUID()]: the next value of the supply. *)
Definition randomUUID : ST Db Uuid :=
  fun d => Ok (db_uuid d,
               mkDb (db_clients d) (db_conversations d) (db_messages d) (db_queue d)
                    (db_invocations d) (db_context d) (db_clock d) (db_uuid d + 1)%N).

(** [strftime('%Y-%m-%dT%H:%M:%fZ','now')] and [Date.now()]. *)
Definition now : ST Db Timestamp := fun d => Ok (db_clock d, d).

(** The seed rows of [schema.sql]. *)
Definition seed_clients : list Client :=
  [ mkClient claude "Claude Code CLI" None None cs_offline 0;
    mkClient codex "OpenAI Codex CLI" None None cs_offline 0 ].

Definition empty_db : Db := mkDb seed_clients [] [] [] [] [] 0 0.

(** ** Primary-key reads *)

Definition find_message (id : Uuid) (ms : list Message) : option Message :=
  find_first (fun m => N.eqb (msg_id m) id) ms.

Definition find_conversation (id : Uuid) (cs : list Conversation) : option Conversation :=
  find_first (fun c => N.eqb (conv_id c) id) cs.

Lemma find_message_Some id ms m :
  find_message id ms = Some m -> m ∈ ms /\ msg_id m = id.
Proof.
  unfold find_message. intros H. apply find_first_Some in H as [Hin Hid].
  split; [done|]. by apply N.eqb_eq.
Qed.

Lemma find_conversation_Some id cs c :
  find_conversation id cs = Some c -> c ∈ cs /\ conv_id c = id.
Proof.
  unfold find_conversation. intros H. apply find_first_Some in H as [Hin Hid].
  split; [done|]. by apply N.eqb_eq.
Qed.

Lemma find_message_None id ms :
  find_message id ms = None <-> Forall (fun m => msg_id m <> id) ms.
Proof.
  unfold find_message. induction ms as [|m ms IH]; simpl.
  - split; [constructor|done].
  - destruct (N.eqb_spec (msg_id m) id) as [E|E].
    + split; [done|]. intros H. by inversion H.
    + rewrite IH, Forall_cons. naive_solver.
Qed.

Lemma find_conversation_None id cs :
  find_conversation id cs = None <-> Forall (fun c => conv_id c <> id) cs.
Proof.
  unfold find_conversation. induction cs as [|c cs IH]; simpl.
  - split; [constructor|done].
  - destruct (N.eqb_spec (conv_id c) id) as [E|E].
    + split; [done|]. intros H. by inversion H.
    + rewrite IH, Forall_cons. naive_solver.
Qed.

#[export] Hint Resolve find_message_Some find_conversation_Some : bridge.

(** The clients table always has one row per assistant, with its id. *)
Definition clients_ok (cs : list Client) : Prop :=
  map client_id cs = [claude; codex].

(** ** The referential invariant of the store

    What the schema's keys and foreign keys guarantee of every reachable
    store, and what the UUID supply guarantees: every row id was drawn
    before ([< db_uuid]). *)
Record db_wf (d : Db) : Prop := {
  wf_clients : clients_ok (db_clients d);
  wf_msg_ids : NoDup (msg_id <$> db_messages d);
  wf_conv_ids : NoDup (conv_id <$> db_conversations d);
  wf_msg_conv : Forall (fun m => is_Some (find_conversation (msg_conversation_id m)
                                                             (db_conversations d)))
                       (db_messages d);
  wf_msg_resp : Forall (fun m => forall r, msg_response_to_id m = Some r ->
                                  is_Some (find_message r (db_messages d)))
                       (db_messages d);
  wf_queue_msg : Forall (fun q => is_Some (find_message (q_message_id q) (db_messages d)))
                        (db_queue d);
  wf_queue_unique : NoDup (q_message_id <$> db_queue d);
  wf_msg_fresh : Forall (fun m => (msg_id m < db_uuid d)%N) (db_messages d);
  wf_conv_fresh : Forall (fun c => (conv_id c < db_uuid d)%N) (db_conversations d);
}.

Lemma empty_db_wf : db_wf empty_db.
Proof. split; simpl; repeat constructor. Qed.

(** ** Lookups through row-wise updates, and the invariant they keep *)

Lemma find_message_map (f : Message -> Message) id ms :
  (forall m, msg_id (f m) = msg_id m) -> find_message id (map f ms) = f <$> find_message id ms.
Proof. intros Hf. apply find_first_map. intros m. by rewrite Hf. Qed.

Lemma find_conversation_map (f : Conversation -> Conversation) id cs :
  (forall c, conv_id (f c) = conv_id c) ->
  find_conversation id (map f cs) = f <$> find_conversation id cs.
Proof. intros Hf. apply find_first_map. intros c. by rewrite Hf. Qed.

Lemma is_Some_fmap_iff {A B} (f : A -> B) (o : option A) : is_Some (f <$> o) <-> is_Some o.
Proof. destruct o; simpl; split; intros []; eauto; done. Qed.

Section WfMap.
Context (d : Db).

(** A row-wise update of [messages] that keeps the key columns keeps
    the invariant. *)
Lemma db_wf_map_messages (f : Message -> Message) :
  (forall m, msg_id (f m) = msg_id m) ->
  (forall m, msg_conversation_id (f m) = msg_conversation_id m) ->
  (forall m, msg_response_to_id (f m) = msg_response_to_id m) ->
  db_wf d -> db_wf (set_messages (map f (db_messages d)) d).
Proof.
  intros Hid Hconv Hresp [Hc Hmi Hci Hmc Hmr Hq Hqu Hmf Hcf]. split; simpl; try done.
  - by rewrite fmap_map_ext.
  - apply Forall_map. eapply Forall_impl; [exact Hmc|]. intros m. by rewrite Hconv.
  - apply Forall_map. eapply Forall_impl; [exact Hmr|]. intros m H r Hr.
    rewrite find_message_map, is_Some_fmap_iff by done. apply H. by rewrite <- Hresp.
  - eapply Forall_impl; [exact Hq|]. intros q H.
    by rewrite find_message_map, is_Some_fmap_iff.
  - apply Forall_map. eapply Forall_impl; [exact Hmf|]. intros m. by rewrite Hid.
Qed.

(** Likewise for [conversations]. *)
Lemma db_wf_map_conversations (f : Conversation -> Conversation) :
  (forall c, conv_id (f c) = conv_id c) ->
  db_wf d -> db_wf (set_conversations (map f (db_conversations d)) d).
Proof.
  intros Hid [Hc Hmi Hci Hmc Hmr Hq Hqu Hmf Hcf]. split; simpl; try done.
  - by rewrite fmap_map_ext.
  - eapply Forall_impl; [exact Hmc|]. intros m H.
    by rewrite find_conversation_map, is_Some_fmap_iff.
  - apply Forall_map. eapply Forall_impl; [exact Hcf|]. intros c. by rewrite Hid.
Qed.

(** Drawing a UUID keeps the invariant. *)
Lemma randomUUID_wf id d' : db_wf d -> randomUUID d = Ok (id, d') -> db_wf d' /\ id = db_uuid d.
Proof.
  intros [Hc Hmi Hci Hmc Hmr Hq Hqu Hmf Hcf] H. injection H as <- <-.
  split; [|done]. split; simpl; try done.
  - eapply Forall_impl; [exact Hmf|]. intros m ?. simpl in *. lia.
  - eapply Forall_impl; [exact Hcf|]. intros c ?. simpl in *. lia.
Qed.
End WfMap.

(** The invariant reads only the five tables and the UUID supply, and a
    larger supply keeps the ids fresh. *)
Lemma db_wf_frame d d' :
  db_wf d ->
  db_clients d' = db_clients d -> db_conversations d' = db_conversations d ->
  db_messages d' = db_messages d -> db_queue d' = db_queue d ->
  (db_uuid d <= db_uuid d')%N -> db_wf d'.
Proof.
  intros [Hc Hmi Hci Hmc Hmr Hq Hqu Hmf Hcf] E1 E2 E3 E4 Hu.
  split; rewrite ?E1, ?E2, ?E3, ?E4; try done.
  - eapply Forall_impl; [exact Hmf|]. intros m ?. simpl in *. lia.
  - eapply Forall_impl; [exact Hcf|]. intros c ?. simpl in *. lia.
Qed.

(** ** A sample store for the witnesses

    Claude online; conversation 1; Codex has sent message 2 (high) and
    message 3 (urgent) to Claude, both queued, the second on its last
    allowed attempt; message 4 is Claude's answer to message 2. *)
Definition msg_demo2 : Message :=
  mkMessage 2 1 codex claude "hello" mt_message prio_high ms_pending None 1 None None None.
Definition msg_demo3 : Message :=
  mkMessage 3 1 codex claude "ping" mt_message prio_urgent ms_pending None 2 None None None.
Definition msg_demo4 : Message :=
  mkMessage 4 1 claude codex "hi" mt_message prio_normal ms_pending (Some 2%N) 5 None None None.
Definition q_demo1 : QueuedMessage := mkQueuedMessage 1 2 claude 1 0 5 0 0.
Definition q_demo2 : QueuedMessage := mkQueuedMessage 2 3 claude 2 4 5 0 0.

Definition demo_db : Db :=
  mkDb [ mkClient claude "Claude Code CLI" (Some 0%Z) (Some "sess-1") cs_online 0;
         mkClient codex "OpenAI Codex CLI" None None cs_offline 0 ]
       [mkConversation 1 None None conv_active codex 0 5 None None None]
       [msg_demo2; msg_demo3; msg_demo4] [q_demo1; q_demo2] [] [] 1000 5.

Lemma demo_db_wf : db_wf demo_db.
Proof.
  split; vm_compute; try reflexivity; repeat constructor; vm_compute; try done; set_solver.
Qed.
