(* ===== verification/Clients.v ===== *)
(** * Clients: the client status rows ([src/src/db/clients.ts])

    The [clients] table holds one row per assistant, seeded by the
    schema.  The transport mirrors the registry into it
    ([updateClientStatus] on session start, [setClientOffline] on close),
    and the queue processor reads it through [isClientOnline]: this
    database mirror, not the in-memory registry, decides whether the
    processor delivers. *)

From S2P Require Import Prelude Schema.

(** [getClient]: [SELECT * FROM clients WHERE id = ?]. *)
Definition getClient (d : Db) (id : ClientId) : option Client :=
  find_first (fun c => bool_decide (client_id c = id)) (db_clients d).

(** [updateClientStatus]: sets status and session id, stamps
    [last_seen_at]; a missing [sessionId] writes NULL. *)
Definition updateClientStatus (id : ClientId) (status : ClientStatus)
    (sessionId : option string) (d : Db) : Db :=
  set_clients
    (map (fun c => if bool_decide (client_id c = id)
                   then mkClient (client_id c) (client_display_name c) (Some (db_clock d))
                                 sessionId status (client_created_at c)
                   else c) (db_clients d)) d.

(** [setClientOffline]: status [offline], session id NULL, [last_seen_at]
    untouched. *)
Definition setClientOffline (id : ClientId) (d : Db) : Db :=
  set_clients
    (map (fun c => if bool_decide (client_id c = id)
                   then mkClient (client_id c) (client_display_name c) (client_last_seen_at c)
                                 None cs_offline (client_created_at c)
                   else c) (db_clients d)) d.

(** [isClientOnline]: [client?.status === "online"]. *)
Definition isClientOnline (d : Db) (id : ClientId) : bool :=
  match getClient d id with
  | Some c => bool_decide (client_status c = cs_online)
  | None => false
  end.

(** [getClientBySession]. *)
Definition getClientBySession (d : Db) (sid : string) : option Client :=
  find_first (fun c => bool_decide (client_session_id c = Some sid)) (db_clients d).

Lemma seed_clients_ok : clients_ok seed_clients.
Proof. reflexivity. Qed.

Lemma clients_ok_getClient d id :
  clients_ok (db_clients d) -> exists c, getClient d id = Some c /\ client_id c = id.
Proof.
  unfold clients_ok, getClient. destruct (db_clients d) as [|c1 [|c2 [|]]]; try done.
  simpl. intros [= H1 H2].
  destruct id; rewrite ?H1, ?H2; simpl; eexists; split; try reflexivity; done.
Qed.

(** Updating one client's row never changes which rows the table has. *)
Lemma map_client_ids (f : Client -> Client) cs :
  (forall c, client_id (f c) = client_id c) -> map client_id (map f cs) = map client_id cs.
Proof. intros Hf. rewrite map_map. apply map_ext. auto. Qed.

Lemma updateClientStatus_clients_ok id st sid d :
  clients_ok (db_clients d) -> clients_ok (db_clients (updateClientStatus id st sid d)).
Proof.
  unfold clients_ok. simpl. intros H. rewrite map_client_ids; [done|].
  intros c. by case_bool_decide.
Qed.

Lemma setClientOffline_clients_ok id d :
  clients_ok (db_clients d) -> clients_ok (db_clients (setClientOffline id d)).
Proof.
  unfold clients_ok. simpl. intros H. rewrite map_client_ids; [done|].
  intros c. by case_bool_decide.
Qed.

#[export] Hint Resolve updateClientStatus_clients_ok setClientOffline_clients_ok : bridge.

(** The row of [id] after a write to the row of [id] or of another id. *)
Lemma getClient_map_same (f : Client -> Client) d id :
  (forall c, client_id (f c) = client_id c) ->
  find_first (fun c => bool_decide (client_id c = id))
    (map (fun c => if bool_decide (client_id c = id) then f c else c) (db_clients d)) =
  f <$> getClient d id.
Proof.
  intros Hf. unfold getClient. induction (db_clients d) as [|c cs IH]; simpl; [done|].
  destruct (decide (client_id c = id)) as [E|E].
  - rewrite !(bool_decide_true _ E), Hf, (bool_decide_true _ E). done.
  - rewrite !(bool_decide_false _ E). exact IH.
Qed.

Lemma getClient_map_other (f : Client -> Client) d id id' :
  id <> id' -> (forall c, client_id (f c) = client_id c) ->
  find_first (fun c => bool_decide (client_id c = id'))
    (map (fun c => if bool_decide (client_id c = id) then f c else c) (db_clients d)) =
  getClient d id'.
Proof.
  intros Hne Hf. unfold getClient. induction (db_clients d) as [|c cs IH]; simpl; [done|].
  destruct (decide (client_id c = id)) as [E|E].
  - rewrite !(bool_decide_true _ E), Hf, E, !bool_decide_false by done. exact IH.
  - rewrite !(bool_decide_false _ E). by case_bool_decide.
Qed.

(** [updateClientStatus id online sid] makes [id] online in the mirror. *)
Lemma updateClientStatus_online id sid d :
  clients_ok (db_clients d) ->
  isClientOnline (updateClientStatus id cs_online sid d) id = true.
Proof.
  intros Hok. destruct (clients_ok_getClient d id Hok) as (c & Hc & _).
  unfold isClientOnline, getClient, updateClientStatus. simpl.
  rewrite getClient_map_same, Hc; [|done]. done.
Qed.

(** [setClientOffline id] makes [id] offline in the mirror. *)
Lemma setClientOffline_offline id d :
  isClientOnline (setClientOffline id d) id = false.
Proof.
  unfold isClientOnline, getClient, setClientOffline. simpl.
  rewrite getClient_map_same; [|done]. by destruct (getClient d id).
Qed.

(** Writes to one client leave the other's status as it was. *)
Lemma updateClientStatus_other id id' st sid d :
  id <> id' -> isClientOnline (updateClientStatus id st sid d) id' = isClientOnline d id'.
Proof.
  intros Hne. unfold isClientOnline, getClient, updateClientStatus. simpl.
  by rewrite getClient_map_other.
Qed.

Lemma setClientOffline_other id id' d :
  id <> id' -> isClientOnline (setClientOffline id d) id' = isClientOnline d id'.
Proof.
  intros Hne. unfold isClientOnline, getClient, setClientOffline. simpl.
  by rewrite getClient_map_other.
Qed.

(** Status writes touch only the clients table and keep its two rows. *)
Lemma updateClientStatus_wf id st sid d : db_wf d -> db_wf (updateClientStatus id st sid d).
Proof.
  intros [Hc Hmi Hci Hmc Hmr Hq Hqu Hmf Hcf].
  split; try done. by apply updateClientStatus_clients_ok.
Qed.

Lemma setClientOffline_wf id d : db_wf d -> db_wf (setClientOffline id d).
Proof.
  intros [Hc Hmi Hci Hmc Hmr Hq Hqu Hmf Hcf].
  split; try done. by apply setClientOffline_clients_ok.
Qed.

#[export] Hint Resolve updateClientStatus_wf setClientOffline_wf : bridge.
