(* ===== verification/Conversations.v ===== *)
(** * Conversations ([src/src/db/conversations.ts])

    Create, read, list, update and close conversations.  The dispatcher
    creates one per [send_message] without a [conversation_id];
    [close_conversation] sets it [completed] and stamps [closed_at]. *)

From S2P Require Import Prelude Schema.

(** [CreateConversationInput]; [metadata] is already [JSON.stringify]ed. *)
Record CreateConversationInput := mkCreateConversationInput {
  cci_title : option string;
  cci_project : option string;
  cci_created_by : ClientId;
  cci_metadata : option string;
}.

(** [getConversation]: [SELECT * FROM conversations WHERE id = ?]. *)
Definition getConversation (d : Db) (id : Uuid) : option Conversation :=
  find_conversation id (db_conversations d).

(** [createConversation]: draw a UUID, INSERT with the column defaults
    ([status = 'active'], both timestamps [now]), read the row back.  The
    primary key makes a duplicate id a constraint error. *)
Definition createConversation (input : CreateConversationInput) : ST Db Conversation :=
  do id <- randomUUID;
  do t <- now;
  fun d =>
    match getConversation d id with
    | Some _ => Fail (ErrSql "UNIQUE constraint failed: conversations.id")
    | None =>
        let row := mkConversation id (cci_title input) (cci_project input) conv_active
                     (cci_created_by input) t t None None (cci_metadata input) in
        Ok (row, set_conversations (db_conversations d ++ [row]) d)
    end.

(** The [updates] argument of [updateConversation]. *)
Record ConversationUpdates := mkConversationUpdates {
  upd_title : option string;
  upd_status : option ConversationStatus;
  upd_summary : option string;
}.

(** The SET list of [updateConversation] applied to one row: [updated_at]
    always, then each given field; a status of [completed] or [archived]
    also stamps [closed_at]. *)
Definition apply_conversation_updates (t : Timestamp) (u : ConversationUpdates)
    (c : Conversation) : Conversation :=
  mkConversation (conv_id c)
    (match upd_title u with Some x => Some x | None => conv_title c end)
    (conv_project c)
    (match upd_status u with Some s => s | None => conv_status c end)
    (conv_created_by c) (conv_created_at c) t
    (match upd_status u with
     | Some conv_completed | Some conv_archived => Some t
     | _ => conv_closed_at c
     end)
    (match upd_summary u with Some x => Some x | None => conv_summary c end)
    (conv_metadata c).

(** [updateConversation]: the UPDATE, then [getConversation]. *)
Definition updateConversation (id : Uuid) (u : ConversationUpdates) (d : Db)
    : option Conversation * Db :=
  let d' := set_conversations
              (map (fun c => if N.eqb (conv_id c) id
                             then apply_conversation_updates (db_clock d) u c else c)
                   (db_conversations d)) d in
  (getConversation d' id, d').

(** [closeConversation]: status [completed] with the given summary. *)
Definition closeConversation (id : Uuid) (summary : option string) (d : Db)
    : option Conversation * Db :=
  updateConversation id (mkConversationUpdates None (Some conv_completed) summary) d.

(** [listConversations] without a participant: [WHERE c.status = ?]
    unless ["all"], [ORDER BY c.updated_at DESC LIMIT ? OFFSET ?]. *)
Definition conv_newer (a b : Conversation) : bool :=
  Z.leb (conv_updated_at b) (conv_updated_at a).

Definition listConversations (d : Db) (status : option ConversationStatus)
    (limit offset : nat) : list Conversation :=
  take limit (drop offset
    (isort conv_newer
       (List.filter (fun c => match status with
                         | Some s => bool_decide (conv_status c = s)
                         | None => true
                         end) (db_conversations d)))).

(** ** Behaviour *)

Section Conversations.
Context (d : Db).

(** A created conversation is active, stamped now, drawn fresh, and
    appended to the table. *)
Lemma createConversation_ok input :
  getConversation d (db_uuid d) = None ->
  createConversation input d =
    Ok (mkConversation (db_uuid d) (cci_title input) (cci_project input) conv_active
          (cci_created_by input) (db_clock d) (db_clock d) None None (cci_metadata input),
        set_conversations
          (db_conversations d ++
           [mkConversation (db_uuid d) (cci_title input) (cci_project input) conv_active
              (cci_created_by input) (db_clock d) (db_clock d) None None (cci_metadata input)])
          (mkDb (db_clients d) (db_conversations d) (db_messages d) (db_queue d)
                (db_invocations d) (db_context d) (db_clock d) (db_uuid d + 1))).
Proof. intros H. unfold getConversation in H. unfold createConversation, st_bind, randomUUID, now, getConversation. cbn -[find_conversation]. by rewrite H. Qed.
End Conversations.

(** Rows other than [id] are untouched by [updateConversation]. *)
Lemma updateConversation_other id id' u d :
  id <> id' ->
  getConversation (updateConversation id u d).2 id' = getConversation d id'.
Proof.
  intros Hne. unfold updateConversation, getConversation, find_conversation. simpl.
  induction (db_conversations d) as [|c cs IH]; simpl; [done|].
  destruct (N.eqb_spec (conv_id c) id) as [E|E]; simpl.
  - rewrite E. destruct (N.eqb_spec id id'); [done|]. exact IH.
  - destruct (N.eqb_spec (conv_id c) id'); [done|]. exact IH.
Qed.

(** The row of [id] after [updateConversation] is the old row with the
    updates applied, or absent if there was none. *)
Lemma updateConversation_same id u d :
  (updateConversation id u d).1 =
  apply_conversation_updates (db_clock d) u <$> getConversation d id.
Proof.
  unfold updateConversation, getConversation, find_conversation. simpl.
  induction (db_conversations d) as [|c cs IH]; simpl; [done|].
  destruct (N.eqb_spec (conv_id c) id) as [E|E]; simpl.
  - by rewrite E, N.eqb_refl.
  - destruct (N.eqb_spec (conv_id c) id); [done|]. exact IH.
Qed.

Lemma updateConversation_ids id u d :
  conv_id <$> db_conversations (updateConversation id u d).2 = conv_id <$> db_conversations d.
Proof.
  simpl. rewrite <- list_fmap_compose. apply list_fmap_ext. intros _ c _.
  simpl. by destruct (conv_id c =? id)%N.
Qed.

Lemma fresh_conversation_id d : db_wf d -> getConversation d (db_uuid d) = None.
Proof.
  intros Hwf. apply find_conversation_None. eapply Forall_impl; [apply (wf_conv_fresh _ Hwf)|].
  intros c Hc Heq. simpl in Hc. lia.
Qed.

(** On a well-formed store [createConversation] succeeds, its row reads
    back, and the invariant holds after. *)
Lemma createConversation_wf_ok input d :
  db_wf d ->
  exists c d', createConversation input d = Ok (c, d') /\ conv_id c = db_uuid d /\
    getConversation d' (conv_id c) = Some c /\ db_wf d' /\
    db_clients d' = db_clients d /\ db_messages d' = db_messages d /\
    db_queue d' = db_queue d /\ db_clock d' = db_clock d.
Proof.
  intros Hwf. pose proof (fresh_conversation_id d Hwf) as Hf.
  rewrite createConversation_ok by done. eexists _, _. split; [reflexivity|].
  split; [done|]. split.
  { unfold getConversation, find_conversation. simpl. rewrite find_first_app.
    unfold getConversation, find_conversation in Hf. rewrite Hf. simpl. by rewrite N.eqb_refl. }
  split; [|done].
  destruct Hwf as [Hc Hmi Hci Hmc Hmr Hq Hqu Hmf Hcf]. split; simpl; try done.
  - rewrite fmap_app. apply NoDup_app. split; [done|]. split; [|apply NoDup_singleton].
    intros x Hx ->%list_elem_of_singleton. apply list_elem_of_fmap in Hx as (c & Hxc & Hc').
    eapply Forall_forall in Hc'; [|exact Hcf]. simpl in *. lia.
  - eapply Forall_impl; [exact Hmc|]. intros m [c Hm]. unfold find_conversation.
    rewrite find_first_app. unfold find_conversation in Hm. rewrite Hm. by eexists.
  - eapply Forall_impl; [exact Hmf|]. intros m ?. simpl in *. lia.
  - apply Forall_app. split; [|apply Forall_singleton; simpl; lia].
    eapply Forall_impl; [exact Hcf|]. intros c ?. simpl in *. lia.
Qed.

(** [closeConversation] marks the conversation [completed], stamps
    [closed_at] now and sets the summary given. *)
Lemma closeConversation_spec id summary d c :
  getConversation d id = Some c ->
  exists c', (closeConversation id summary d).1 = Some c' /\ conv_status c' = conv_completed /\
             conv_closed_at c' = Some (db_clock d) /\
             conv_summary c' = match summary with Some s => Some s | None => conv_summary c end.
Proof.
  intros Hc. unfold closeConversation. rewrite updateConversation_same, Hc. by eexists.
Qed.

(** C36: A closed conversation set back to [active] keeps its [closed_at]:
    [updateConversation] stamps [closed_at] for [completed] and
    [archived] but never clears it, so "[closed_at] is set iff the
    status is completed or archived" fails after a reopen. *)
Theorem reopen_keeps_closed_at id summary d c :
  getConversation d id = Some c ->
  exists c', (updateConversation id (mkConversationUpdates None (Some conv_active) None)
                (closeConversation id summary d).2).1 = Some c' /\
             conv_status c' = conv_active /\ conv_closed_at c' = Some (db_clock d).
Proof.
  intros Hc. destruct (closeConversation_spec id summary d c Hc) as (c1 & E1 & _ & Hcl & _).
  rewrite updateConversation_same.
  change (getConversation (closeConversation id summary d).2 id) with
    (closeConversation id summary d).1.
  rewrite E1. simpl. by eexists.
Qed.

Lemma reopen_keeps_closed_at_witness :
  getConversation demo_db 1 = Some (mkConversation 1 None None conv_active codex 0 5 None None None)
  /\ exists c', (updateConversation 1 (mkConversationUpdates None (Some conv_active) None)
                  (closeConversation 1 (Some "done") demo_db).2).1 = Some c' /\
               conv_status c' = conv_active /\ conv_closed_at c' = Some (db_clock demo_db).
Proof.
  assert (H : getConversation demo_db 1 =
              Some (mkConversation 1 None None conv_active codex 0 5 None None None))
    by reflexivity.
  split; [exact H|]. exact (reopen_keeps_closed_at 1 (Some "done") demo_db _ H).
Defined.
