(* ===== verification/SharedContext.v ===== *)
(** * Shared context ([src/unnamed/part_004]: [db/shared_context.ts])

    Rows of [shared_context]: a file, snippet, entity, memory item or URL
    one assistant shares, optionally inside a conversation.  Creation
    (primary key, then the foreign keys of the conversation and of the
    sharing client), read by id, three paged listings ([ORDER BY
    created_at DESC LIMIT ? OFFSET ?]), the partial update of
    [memorantado_id] and [description], and deletion. *)

From S2P Require Import Prelude Schema Clients Conversations.

(** [CreateSharedContextInput]. *)
Record CreateSharedContextInput := mkCreateSharedContextInput {
  csi_conversation_id : option Uuid;
  csi_context_type : ContextType;
  csi_content : string;
  csi_description : option string;
  csi_shared_by : ClientId;
}.

(** [ListSharedContextOpts]; [limit = 50] and [offset = 0] by default. *)
Record ListSharedContextOpts := mkListSharedContextOpts {
  lo_limit : option nat;
  lo_offset : option nat;
}.

Definition default_list_opts : ListSharedContextOpts := mkListSharedContextOpts None None.

(** [getSharedContext]: [SELECT * FROM shared_context WHERE id = ?]. *)
Definition getSharedContext (d : Db) (id : Uuid) : option SharedContext :=
  find_first (fun c => N.eqb (sc_id c) id) (db_context d).

(** The foreign keys of [shared_context]. *)
Definition context_fks_ok (d : Db) (input : CreateSharedContextInput) : bool :=
  match csi_conversation_id input with
  | Some c => bool_decide (is_Some (getConversation d c))
  | None => true
  end && bool_decide (is_Some (getClient d (csi_shared_by input))).

(** The row the INSERT writes: [memorantado_id] NULL, [created_at] now. *)
Definition new_context_row (id : Uuid) (t : Timestamp) (input : CreateSharedContextInput)
    : SharedContext :=
  mkSharedContext id (csi_conversation_id input) (csi_context_type input)
    (csi_content input) (csi_description input) (csi_shared_by input) None t.

(** [createSharedContext]: draw a UUID, INSERT, return
    [getSharedContext(db, id)!] (the [!] is a type assertion only, so the
    value is whatever the read returns). *)
Definition createSharedContext (input : CreateSharedContextInput)
    : ST Db (option SharedContext) :=
  do id <- randomUUID;
  do t <- now;
  fun d =>
    if bool_decide (is_Some (getSharedContext d id))
    then Fail (ErrSql "UNIQUE constraint failed: shared_context.id")
    else if negb (context_fks_ok d input)
    then Fail (ErrSql "FOREIGN KEY constraint failed")
    else
      let d' := set_context (db_context d ++ [new_context_row id t input]) d in
      Ok (getSharedContext d' id, d').

(** [ORDER BY created_at DESC] (ties in table order). *)
Definition ctx_newer (a b : SharedContext) : bool := Z.leb (sc_created_at b) (sc_created_at a).

(** [LIMIT ? OFFSET ?] over the ordered rows, with the defaults. *)
Definition page (opts : ListSharedContextOpts) (rows : list SharedContext) : list SharedContext :=
  let limit := default 50%nat (lo_limit opts) in
  let offset := default 0%nat (lo_offset opts) in
  take limit (drop offset (isort ctx_newer rows)).

Definition listSharedContextByConversation (d : Db) (conversationId : Uuid)
    (opts : ListSharedContextOpts) : list SharedContext :=
  page opts (List.filter (fun c => bool_decide (sc_conversation_id c = Some conversationId))
               (db_context d)).

Definition listSharedContextByType (d : Db) (contextType : ContextType)
    (opts : ListSharedContextOpts) : list SharedContext :=
  page opts (List.filter (fun c => bool_decide (sc_context_type c = contextType)) (db_context d)).

Definition listAllSharedContext (d : Db) (opts : ListSharedContextOpts) : list SharedContext :=
  page opts (db_context d).

(** The update object of [updateSharedContext]. *)
Record ContextUpdates := mkContextUpdates {
  cu_memorantado_id : option Z;
  cu_description : option string;
}.

(** The SET clauses the update builds, on one row. *)
Definition apply_context_updates (u : ContextUpdates) (c : SharedContext) : SharedContext :=
  mkSharedContext (sc_id c) (sc_conversation_id c) (sc_context_type c) (sc_content c)
    (match cu_description u with Some s => Some s | None => sc_description c end)
    (sc_shared_by c)
    (match cu_memorantado_id u with Some m => Some m | None => sc_memorantado_id c end)
    (sc_created_at c).

(** [updateSharedContext]: with no field set, only the read; otherwise the
    UPDATE, then the read. *)
Definition updateSharedContext (id : Uuid) (u : ContextUpdates) (d : Db)
    : option SharedContext * Db :=
  if bool_decide (cu_memorantado_id u = None /\ cu_description u = None)
  then (getSharedContext d id, d)
  else
    let d' := set_context (map (fun c => if N.eqb (sc_id c) id then apply_context_updates u c
                                         else c) (db_context d)) d in
    (getSharedContext d' id, d').

(** [deleteSharedContext]: [changes > 0]. *)
Definition deleteSharedContext (id : Uuid) (d : Db) : bool * Db :=
  let xs := List.filter (fun c => negb (N.eqb (sc_id c) id)) (db_context d) in
  (bool_decide (length xs < length (db_context d))%nat, set_context xs d).

(** ** The table's invariant: unique ids drawn from the supply, and the
    conversation foreign key. *)
Record ctx_wf (d : Db) : Prop := {
  ctx_ids : NoDup (sc_id <$> db_context d);
  ctx_fresh : Forall (fun c => (sc_id c < db_uuid d)%N) (db_context d);
  ctx_conv : Forall (fun c => forall cid, sc_conversation_id c = Some cid ->
                                          is_Some (getConversation d cid)) (db_context d);
}.

(** ** Creation *)

Lemma getSharedContext_set d xs id :
  getSharedContext (set_context xs d) id = find_first (fun c => N.eqb (sc_id c) id) xs.
Proof. done. Qed.

Lemma getConversation_set_context d xs id :
  getConversation (set_context xs d) id = getConversation d id.
Proof. done. Qed.

Lemma fresh_context_id d : ctx_wf d -> getSharedContext d (db_uuid d) = None.
Proof.
  intros Hwf. destruct (getSharedContext d _) as [c|] eqn:E; [|done].
  apply find_first_Some in E as [Hin Hid]. apply N.eqb_eq in Hid.
  eapply Forall_forall in Hin; [|exact (ctx_fresh _ Hwf)]. simpl in Hin. lia.
Qed.

Section Create.
Context (d : Db) (input : CreateSharedContextInput).

Let row := new_context_row (db_uuid d) (db_clock d) input.
Let d' := set_context (db_context d ++ [row])
            (mkDb (db_clients d) (db_conversations d) (db_messages d) (db_queue d)
                  (db_invocations d) (db_context d) (db_clock d) (db_uuid d + 1)).

Lemma createSharedContext_unfold :
  ctx_wf d ->
  createSharedContext input d =
    if negb (context_fks_ok d input) then Fail (ErrSql "FOREIGN KEY constraint failed")
    else Ok (getSharedContext d' (db_uuid d), d').
Proof.
  intros Hwf. pose proof (fresh_context_id d Hwf) as Hf. unfold getSharedContext in Hf.
  unfold createSharedContext, st_bind, randomUUID, now. cbn -[context_fks_ok find_first].
  unfold getSharedContext. cbn [db_context]. rewrite Hf. simpl. reflexivity.
Qed.

Lemma ctx_wf_create : ctx_wf d -> context_fks_ok d input = true -> ctx_wf d'.
Proof.
  intros [Hids Hfr Hcv] Hfk. apply andb_prop in Hfk as [Hc _]. split; simpl.
  - rewrite fmap_app. apply NoDup_app. split; [done|]. split; [|apply NoDup_singleton].
    intros x Hx Hy. apply list_elem_of_singleton in Hy.
    apply list_elem_of_fmap in Hx as (c & Hxc & Hc').
    eapply Forall_forall in Hc'; [|exact Hfr]. simpl in *. unfold row in Hy. simpl in Hy. lia.
  - apply Forall_app. split; [|apply Forall_singleton; simpl; lia].
    eapply Forall_impl; [exact Hfr|]. intros c Hc0. simpl in *. lia.
  - apply Forall_app. split; [exact Hcv|]. apply Forall_singleton. intros cid Hcid.
    unfold row in Hcid. simpl in Hcid. rewrite Hcid in Hc. by apply bool_decide_eq_true in Hc.
Qed.

(** C34: (create, get) round trip: on a well-formed table whose foreign keys
    hold, the new row has the drawn id, no [memorantado_id], the input's
    fields and [created_at] now; it is what [createSharedContext]
    returns (never [null]) and what [getSharedContext] reads back; the
    invariant holds after.  A failed foreign key raises. *)
Theorem createSharedContext_roundtrip :
  ctx_wf d ->
  (context_fks_ok d input = true ->
   exists d'', createSharedContext input d = Ok (Some row, d'') /\
               getSharedContext d'' (sc_id row) = Some row /\ ctx_wf d'') /\
  (context_fks_ok d input = false ->
   createSharedContext input d = Fail (ErrSql "FOREIGN KEY constraint failed")).
Proof.
  intros Hwf. rewrite createSharedContext_unfold by done. split; intros Hfk; rewrite Hfk; [|done].
  assert (Hget : getSharedContext d' (db_uuid d) = Some row).
  { unfold d'. rewrite getSharedContext_set, find_first_app.
    pose proof (fresh_context_id d Hwf) as Hf. unfold getSharedContext in Hf.
    rewrite Hf. simpl. by rewrite N.eqb_refl. }
  exists d'. rewrite Hget. split; [done|]. split; [exact Hget|]. by apply ctx_wf_create.
Qed.
End Create.

(** ** Update *)

Lemma getSharedContext_map (g : SharedContext -> SharedContext) xs id :
  (forall c, sc_id (g c) = sc_id c) ->
  find_first (fun c => N.eqb (sc_id c) id) (map g xs) =
  g <$> find_first (fun c => N.eqb (sc_id c) id) xs.
Proof. intros Hg. apply find_first_map. intros c. by rewrite Hg. Qed.

Definition update_row (id : Uuid) (u : ContextUpdates) (c : SharedContext) : SharedContext :=
  if N.eqb (sc_id c) id then apply_context_updates u c else c.

Lemma update_row_id id u c : sc_id (update_row id u c) = sc_id c.
Proof. unfold update_row. by destruct (sc_id c =? id)%N. Qed.

Lemma apply_context_updates_none u c :
  cu_memorantado_id u = None -> cu_description u = None -> apply_context_updates u c = c.
Proof. intros Hm Hd. unfold apply_context_updates. rewrite Hm, Hd. by destruct c. Qed.

(** [updateSharedContext] returns the row with exactly the fields given
    replaced ([null] when there is no row), on both of its branches; other
    rows read as before. *)
Theorem updateSharedContext_spec id u d :
  (updateSharedContext id u d).1 = apply_context_updates u <$> getSharedContext d id /\
  forall id', id' <> id ->
    getSharedContext (updateSharedContext id u d).2 id' = getSharedContext d id'.
Proof.
  unfold updateSharedContext. case_bool_decide as Hnone.
  - destruct Hnone as [Hm Hd]. split; [|done]. simpl.
    destruct (getSharedContext d id); [|done]. simpl. by rewrite apply_context_updates_none.
  - cbn [fst snd]. rewrite !getSharedContext_set.
    change (fun c => if (sc_id c =? id)%N then apply_context_updates u c else c)
      with (update_row id u).
    rewrite !getSharedContext_map by apply update_row_id. split.
    + unfold getSharedContext. destruct (find_first _ _) as [c|] eqn:E; [|done].
      apply find_first_Some in E as [_ E]. simpl. unfold update_row. by rewrite E.
    + intros id' Hne. rewrite getSharedContext_set, getSharedContext_map by apply update_row_id. unfold getSharedContext. destruct (find_first _ _) as [c|] eqn:E; [|done].
      apply find_first_Some in E as [_ E]. apply N.eqb_eq in E. simpl. unfold update_row.
      destruct (N.eqb_spec (sc_id c) id); [congruence|done].
Qed.

Lemma updateSharedContext_wf id u d : ctx_wf d -> ctx_wf (updateSharedContext id u d).2.
Proof.
  intros [Hids Hfr Hcv]. unfold updateSharedContext. case_bool_decide; [done|].
  change (fun c => if (sc_id c =? id)%N then apply_context_updates u c else c)
    with (update_row id u).
  split; simpl.
  - by rewrite fmap_map_ext by apply update_row_id.
  - apply Forall_map. eapply Forall_impl; [exact Hfr|]. intros c. by rewrite update_row_id.
  - apply Forall_map. eapply Forall_impl; [exact Hcv|]. intros c Hc.
    unfold update_row. by destruct (sc_id c =? id)%N.
Qed.

(** ** Deletion *)

(** [deleteSharedContext] reports whether the row existed; afterwards it
    reads as [null] and every other row is kept. *)
Theorem deleteSharedContext_spec id d :
  (deleteSharedContext id d).1 = bool_decide (is_Some (getSharedContext d id)) /\
  getSharedContext (deleteSharedContext id d).2 id = None /\
  forall c, c ∈ db_context (deleteSharedContext id d).2 <-> c ∈ db_context d /\ sc_id c <> id.
Proof.
  split; [|split].
  - simpl. apply bool_decide_ext. rewrite filter_length_lt. unfold getSharedContext.
    rewrite find_first_is_Some. split; intros H; eapply Exists_impl; try exact H; intros c Hc; simpl in *; destruct (sc_id c =? id)%N; simpl in *; congruence.
  - destruct (getSharedContext _ id) as [c|] eqn:E; [|done]. unfold getSharedContext in E. simpl in E.
    apply find_first_Some in E as [Hin E]. apply elem_of_list_filter_bool in Hin as [_ Hn].
    by rewrite E in Hn.
  - intros c. simpl. rewrite elem_of_list_filter_bool, negb_true_iff.
    destruct (N.eqb_spec (sc_id c) id); simpl; intuition congruence.
Qed.

Lemma deleteSharedContext_wf id d : ctx_wf d -> ctx_wf (deleteSharedContext id d).2.
Proof.
  intros [Hids Hfr Hcv]. split; simpl.
  - by apply NoDup_fmap_filter.
  - by apply Forall_filter_bool.
  - by apply Forall_filter_bool.
Qed.

(** ** Paged listings *)

Lemma ctx_newer_total x y : ctx_newer x y = true \/ ctx_newer y x = true.
Proof. unfold ctx_newer. rewrite !Z.leb_le. lia. Qed.

Lemma ctx_newer_trans x y z : ctx_newer x y = true -> ctx_newer y z = true -> ctx_newer x z = true.
Proof. unfold ctx_newer. rewrite !Z.leb_le. lia. Qed.

(** A page holds rows of the input, newest first, at most [limit] of them. *)
Lemma page_spec opts rows :
  (forall c, c ∈ page opts rows -> c ∈ rows) /\
  StronglySorted (le_rel ctx_newer) (page opts rows) /\
  (length (page opts rows) <= default 50 (lo_limit opts))%nat.
Proof.
  unfold page. split; [|split].
  - intros c Hc. apply (elem_of_isort ctx_newer).
    by eapply elem_of_sublist, sublist_drop; eapply elem_of_sublist, sublist_take.
  - apply StronglySorted_take, StronglySorted_drop, isort_sorted;
      [apply ctx_newer_total|apply ctx_newer_trans].
  - rewrite length_take. lia.
Qed.

(** Two consecutive pages are the page of their combined size: paging
    through [listSharedContextByConversation] loses and repeats nothing. *)
Lemma page_concat rows o a b :
  page (mkListSharedContextOpts (Some a) (Some o)) rows ++
  page (mkListSharedContextOpts (Some b) (Some (o + a))) rows =
  page (mkListSharedContextOpts (Some (a + b)) (Some o)) rows.
Proof. apply take_drop_pages. Qed.

(** C35: [listSharedContextByConversation] is [WHERE conversation_id = ?
    ORDER BY created_at DESC LIMIT ? OFFSET ?] with the defaults 50 and
    0: the rows of the conversation split into the [offset] newest rows,
    the returned page, and the older rest; the page has
    [min limit (n - offset)] rows, newest first, no skipped row is older
    than a returned one and no later row newer. *)
Theorem listSharedContextByConversation_spec d cid opts :
  let rows := List.filter (fun c => bool_decide (sc_conversation_id c = Some cid)) (db_context d) in
  let limit := default 50%nat (lo_limit opts) in
  let offset := default 0%nat (lo_offset opts) in
  let res := listSharedContextByConversation d cid opts in
  exists before after,
    rows ≡ₚ before ++ res ++ after /\
    length before = Nat.min offset (length rows) /\
    length res = Nat.min limit (length rows - offset) /\
    (forall x y, x ∈ before -> y ∈ res -> (sc_created_at y <= sc_created_at x)%Z) /\
    (forall x y, x ∈ res -> y ∈ after -> (sc_created_at y <= sc_created_at x)%Z) /\
    StronglySorted (fun x y => sc_created_at y <= sc_created_at x)%Z res.
Proof.
  intros rows limit offset res.
  destruct (isort_page ctx_newer limit offset rows ctx_newer_total ctx_newer_trans)
    as (before & after & Hp & Hb & Hl & Hbp & Hpa & Hs).
  exists before, after. unfold ctx_newer, le_rel in *. split_and!; try done.
  - intros x y Hx Hy. apply Z.leb_le. by apply Hbp.
  - intros x y Hx Hy. apply Z.leb_le. by apply Hpa.
  - eapply StronglySorted_impl; [|exact Hs]. intros x y. apply Z.leb_le.
Qed.

Lemma listSharedContextByType_sound d ty opts c :
  c ∈ listSharedContextByType d ty opts -> c ∈ db_context d /\ sc_context_type c = ty.
Proof.
  intros Hc. apply (page_spec opts), elem_of_list_filter_bool in Hc as [Hc Hb].
  by apply bool_decide_eq_true in Hb.
Qed.

(** ** Witness on [demo_db] *)

Definition demo_context_input : CreateSharedContextInput :=
  mkCreateSharedContextInput (Some 1%N) ctx_file "src/db/db.ts" None claude.

Lemma createSharedContext_roundtrip_witness :
  ctx_wf demo_db /\
  exists d'', createSharedContext demo_context_input demo_db =
                Ok (Some (new_context_row 5 1000 demo_context_input), d'') /\
              getSharedContext d'' 5 = Some (new_context_row 5 1000 demo_context_input) /\
              ctx_wf d''.
Proof.
  assert (Hwf : ctx_wf demo_db) by (split; vm_compute; constructor).
  split; [exact Hwf|].
  apply (proj1 (createSharedContext_roundtrip demo_db demo_context_input Hwf)).
  vm_compute. reflexivity.
Defined.
