(* ===== verification/Messages.v ===== *)
(** * Messages ([src/unnamed/part_005], second file: [db/messages.ts])

    Message rows: creation (with the schema's primary and foreign keys,
    and the [updated_at] bump of the conversation), status updates with
    their timestamps, the conversation history in [created_at] order,
    the pending messages of a target, and the earliest response to a
    message.  The full-text search ([searchMessages]) is not modelled. *)

From S2P Require Import Prelude Schema Clients Conversations.

(** [CreateMessageInput]; [metadata] is already [JSON.stringify]ed. *)
Record CreateMessageInput := mkCreateMessageInput {
  cmi_conversation_id : Uuid;
  cmi_sender : ClientId;
  cmi_target : ClientId;
  cmi_content : string;
  cmi_message_type : option MessageType;
  cmi_priority : option MessagePriority;
  cmi_response_to_id : option Uuid;
  cmi_metadata : option string;
}.

(** [getMessage]: [SELECT * FROM messages WHERE id = ?]. *)
Definition getMessage (d : Db) (id : Uuid) : option Message :=
  find_message id (db_messages d).

(** [UPDATE conversations SET updated_at = now WHERE id = ?]. *)
Definition touch_conversation (id : Uuid) (d : Db) : Db :=
  set_conversations
    (map (fun c => if N.eqb (conv_id c) id
                   then mkConversation (conv_id c) (conv_title c) (conv_project c)
                          (conv_status c) (conv_created_by c) (conv_created_at c)
                          (db_clock d) (conv_closed_at c) (conv_summary c) (conv_metadata c)
                   else c) (db_conversations d)) d.

(** The foreign keys of [messages]: the conversation, both clients, and
    the message answered, when there is one. *)
Definition message_fks_ok (d : Db) (input : CreateMessageInput) : bool :=
  bool_decide (is_Some (getConversation d (cmi_conversation_id input))) &&
  bool_decide (is_Some (getClient d (cmi_sender input))) &&
  bool_decide (is_Some (getClient d (cmi_target input))) &&
  match cmi_response_to_id input with
  | Some r => bool_decide (is_Some (getMessage d r))
  | None => true
  end.

(** The row [createMessage] inserts, with the column defaults. *)
Definition new_message_row (id : Uuid) (t : Timestamp) (input : CreateMessageInput) : Message :=
  mkMessage id (cmi_conversation_id input) (cmi_sender input) (cmi_target input)
    (cmi_content input)
    (match cmi_message_type input with Some ty => ty | None => mt_message end)
    (match cmi_priority input with Some p => p | None => prio_normal end)
    ms_pending (cmi_response_to_id input) t None None (cmi_metadata input).

(** [createMessage]: draw a UUID, INSERT (primary key, then foreign keys),
    bump the conversation's [updated_at], return the row. *)
Definition createMessage (input : CreateMessageInput) : ST Db Message :=
  do id <- randomUUID;
  do t <- now;
  fun d =>
    if bool_decide (is_Some (getMessage d id))
    then Fail (ErrSql "UNIQUE constraint failed: messages.id")
    else if negb (message_fks_ok d input)
    then Fail (ErrSql "FOREIGN KEY constraint failed")
    else
      let row := new_message_row id t input in
      Ok (row, touch_conversation (cmi_conversation_id input)
                 (set_messages (db_messages d ++ [row]) d)).

(** One row after [UPDATE messages SET status = ?[, delivered_at|read_at = now]]. *)
Definition set_status_row (t : Timestamp) (status : MessageStatus) (m : Message) : Message :=
  mkMessage (msg_id m) (msg_conversation_id m) (msg_sender m) (msg_target m) (msg_content m)
    (msg_type m) (msg_priority m) status (msg_response_to_id m) (msg_created_at m)
    (match status with ms_delivered => Some t | _ => msg_delivered_at m end)
    (match status with ms_read => Some t | _ => msg_read_at m end)
    (msg_metadata m).

(** [updateMessageStatus]. *)
Definition updateMessageStatus (id : Uuid) (status : MessageStatus) (d : Db) : Db :=
  set_messages
    (map (fun m => if N.eqb (msg_id m) id then set_status_row (db_clock d) status m else m)
         (db_messages d)) d.

(** [ORDER BY created_at ASC]. *)
Definition msg_older (a b : Message) : bool := Z.leb (msg_created_at a) (msg_created_at b).

(** [getConversationMessages]: [WHERE conversation_id = ? ORDER BY
    created_at ASC LIMIT ? OFFSET ?] (defaults 50 and 0). *)
Definition getConversationMessages (d : Db) (conversationId : Uuid) (limit offset : nat)
    : list Message :=
  take limit (drop offset
    (isort msg_older
       (List.filter (fun m => N.eqb (msg_conversation_id m) conversationId) (db_messages d)))).

(** [getPendingMessagesForTarget]: pending rows of [target] by priority
    rank (urgent, high, then the rest) and age. *)
Definition priority_rank (p : MessagePriority) : Z :=
  match p with prio_urgent => 0 | prio_high => 1 | prio_normal => 2 end.

Definition msg_more_urgent (a b : Message) : bool :=
  Z.ltb (priority_rank (msg_priority a)) (priority_rank (msg_priority b)) ||
  (Z.eqb (priority_rank (msg_priority a)) (priority_rank (msg_priority b)) &&
   Z.leb (msg_created_at a) (msg_created_at b)).

Definition getPendingMessagesForTarget (d : Db) (target : ClientId) (limit : nat)
    : list Message :=
  take limit
    (isort msg_more_urgent
       (List.filter (fun m => bool_decide (msg_target m = target) &&
                              bool_decide (msg_status m = ms_pending)) (db_messages d))).

(** [getResponseToMessage]: [WHERE response_to_id = ? ORDER BY created_at
    ASC LIMIT 1]. *)
Definition responses_to (d : Db) (messageId : Uuid) : list Message :=
  List.filter (fun m => bool_decide (msg_response_to_id m = Some messageId)) (db_messages d).

Definition getResponseToMessage (d : Db) (messageId : Uuid) : option Message :=
  head (isort msg_older (responses_to d messageId)).

(** ** Lookups after the writes *)

Lemma find_message_app_is_Some r ms l :
  is_Some (find_message r ms) -> is_Some (find_message r (ms ++ l)).
Proof.
  unfold find_message. rewrite find_first_app. by destruct (find_first _ ms).
Qed.

Lemma getMessage_updateMessageStatus id status d id' :
  getMessage (updateMessageStatus id status d) id' =
  if N.eqb id' id then set_status_row (db_clock d) status <$> getMessage d id'
  else getMessage d id'.
Proof.
  unfold getMessage, updateMessageStatus. simpl.
  rewrite find_message_map by (intros m; by destruct (msg_id m =? id)%N).
  destruct (find_message id' (db_messages d)) as [m|] eqn:E; simpl;
    [|by destruct (id' =? id)%N].
  apply find_message_Some in E as [_ <-]. by destruct (msg_id m =? id)%N.
Qed.

Lemma getConversation_touch id d id' :
  getConversation (touch_conversation id d) id' =
  (fun c => if N.eqb (conv_id c) id
            then mkConversation (conv_id c) (conv_title c) (conv_project c)
                   (conv_status c) (conv_created_by c) (conv_created_at c)
                   (db_clock d) (conv_closed_at c) (conv_summary c) (conv_metadata c)
            else c) <$> getConversation d id'.
Proof.
  unfold getConversation, touch_conversation. simpl.
  apply find_conversation_map. intros c. by destruct (conv_id c =? id)%N.
Qed.

(** ** The invariant *)

Lemma updateMessageStatus_wf id status d : db_wf d -> db_wf (updateMessageStatus id status d).
Proof. apply db_wf_map_messages; intros m; by destruct (msg_id m =? id)%N. Qed.

Lemma touch_conversation_wf id d : db_wf d -> db_wf (touch_conversation id d).
Proof. apply db_wf_map_conversations. intros c. by destruct (conv_id c =? id)%N. Qed.

#[export] Hint Resolve updateMessageStatus_wf touch_conversation_wf : bridge.

(** Appending a row with a fresh id and satisfied foreign keys. *)
Lemma db_wf_add_message d row :
  db_wf d ->
  find_message (msg_id row) (db_messages d) = None ->
  (msg_id row < db_uuid d)%N ->
  is_Some (find_conversation (msg_conversation_id row) (db_conversations d)) ->
  (forall r, msg_response_to_id row = Some r -> is_Some (find_message r (db_messages d))) ->
  db_wf (set_messages (db_messages d ++ [row]) d).
Proof.
  intros [Hc Hmi Hci Hmc Hmr Hq Hqu Hmf Hcf] Hfresh Hlt Hconv Hresp.
  apply find_message_None in Hfresh. split; simpl; try done.
  - rewrite fmap_app. apply NoDup_app. split; [done|]. split; [|apply NoDup_singleton].
    intros x Hx Hin. apply list_elem_of_singleton in Hin as ->.
    apply list_elem_of_fmap in Hx as (m & Heq & Hm).
    eapply Forall_forall in Hfresh; [|exact Hm]. done.
  - apply Forall_app. split; [done|]. by repeat constructor.
  - apply Forall_app. split.
    + eapply Forall_impl; [exact Hmr|]. intros m H r Hr.
      by apply find_message_app_is_Some, H.
    + repeat constructor. intros r Hr. by apply find_message_app_is_Some, Hresp.
  - eapply Forall_impl; [exact Hq|]. intros q H. by apply find_message_app_is_Some.
  - apply Forall_app. split; [done|]. by repeat constructor.
Qed.

(** ** [createMessage] *)

Section CreateMessage.
Context (d : Db) (input : CreateMessageInput).

(** The store after the UUID draw. *)
Definition bumped : Db :=
  mkDb (db_clients d) (db_conversations d) (db_messages d) (db_queue d)
       (db_invocations d) (db_context d) (db_clock d) (db_uuid d + 1).

Lemma fresh_message_id : db_wf d -> getMessage d (db_uuid d) = None.
Proof.
  intros Hwf. apply find_message_None. eapply Forall_impl; [apply (wf_msg_fresh _ Hwf)|].
  intros m Hm Heq. simpl in Hm. lia.
Qed.

(** On a well-formed store, [createMessage] inserts a pending row with
    the drawn id, stamped now, and bumps the conversation, exactly when
    the foreign keys hold. *)
Lemma createMessage_ok :
  db_wf d -> message_fks_ok d input = true ->
  createMessage input d =
    Ok (new_message_row (db_uuid d) (db_clock d) input,
        touch_conversation (cmi_conversation_id input)
          (set_messages (db_messages d ++ [new_message_row (db_uuid d) (db_clock d) input])
             bumped)).
Proof.
  intros Hwf Hfk. pose proof (fresh_message_id Hwf) as Hfresh.
  unfold getMessage in Hfresh.
  unfold createMessage, st_bind, randomUUID, now. cbn -[message_fks_ok find_message].
  unfold getMessage. cbn [db_messages]. rewrite Hfresh. simpl.
  change (message_fks_ok _ input) with (message_fks_ok d input). by rewrite Hfk.
Qed.

Lemma createMessage_fk_error :
  db_wf d -> message_fks_ok d input = false ->
  createMessage input d = Fail (ErrSql "FOREIGN KEY constraint failed").
Proof.
  intros Hwf Hfk. pose proof (fresh_message_id Hwf) as Hfresh.
  unfold getMessage in Hfresh.
  unfold createMessage, st_bind, randomUUID, now. cbn -[message_fks_ok find_message].
  unfold getMessage. cbn [db_messages]. rewrite Hfresh. simpl.
  change (message_fks_ok _ input) with (message_fks_ok d input). by rewrite Hfk.
Qed.
End CreateMessage.

Lemma message_fks_ok_conv d input :
  message_fks_ok d input = true -> is_Some (getConversation d (cmi_conversation_id input)).
Proof. unfold message_fks_ok. intros H. by repeat (apply andb_prop in H as [H ?]; try case_bool_decide). Qed.

Lemma message_fks_ok_resp d input r :
  message_fks_ok d input = true -> cmi_response_to_id input = Some r ->
  is_Some (getMessage d r).
Proof.
  unfold message_fks_ok. intros H Hr. rewrite Hr in H.
  apply andb_prop in H as [_ H]. by case_bool_decide.
Qed.

Lemma createMessage_wf input : st_preserves db_wf (createMessage input).
Proof.
  intros d m d' Hwf H. destruct (message_fks_ok d input) eqn:Hfk.
  - rewrite createMessage_ok in H by done. injection H as <- <-.
    apply touch_conversation_wf.
    assert (Hb : db_wf (bumped d)) by (eapply (randomUUID_wf d); [exact Hwf|reflexivity]).
    apply (db_wf_add_message (bumped d)); [exact Hb| | |exact (message_fks_ok_conv d input Hfk)|].
    + exact (fresh_message_id d Hwf).
    + simpl. lia.
    + intros r Hr. exact (message_fks_ok_resp d input r Hfk Hr).
  - by rewrite createMessage_fk_error in H.
Qed.

#[export] Hint Resolve createMessage_wf : bridge.

(** ** The earliest response *)

Lemma msg_older_total x y : msg_older x y = true \/ msg_older y x = true.
Proof. unfold msg_older. rewrite !Z.leb_le. lia. Qed.

Lemma msg_older_trans x y z :
  msg_older x y = true -> msg_older y z = true -> msg_older x z = true.
Proof. unfold msg_older. rewrite !Z.leb_le. lia. Qed.

Lemma elem_of_responses_to d id m :
  m ∈ responses_to d id <-> m ∈ db_messages d /\ msg_response_to_id m = Some id.
Proof.
  unfold responses_to. rewrite list_elem_of_In, filter_In, <- list_elem_of_In.
  by rewrite bool_decide_eq_true.
Qed.

Lemma head_elem_of {A} (l : list A) x : head l = Some x -> x ∈ l.
Proof. destruct l; simpl; [done|]. intros [= ->]. left. Qed.

(** C30: [getResponseToMessage] returns a response to the message, and the
    earliest one by [created_at]. *)
Theorem getResponseToMessage_earliest d id r :
  getResponseToMessage d id = Some r ->
  r ∈ db_messages d /\ msg_response_to_id r = Some id /\
  forall r', r' ∈ db_messages d -> msg_response_to_id r' = Some id ->
             (msg_created_at r <= msg_created_at r')%Z.
Proof.
  unfold getResponseToMessage. intros Hh.
  pose proof (head_elem_of _ _ Hh) as Hin.
  rewrite elem_of_isort, elem_of_responses_to in Hin. destruct Hin as [Hin Hr].
  split; [done|]. split; [done|]. intros r' Hin' Hr'.
  destruct (decide (r' = r)) as [->|Hne]; [lia|].
  assert (Hle : le_rel msg_older r r').
  { eapply head_StronglySorted; [apply isort_sorted; [apply msg_older_total|apply msg_older_trans]
                                |exact Hh| |exact Hne].
    by rewrite elem_of_isort, elem_of_responses_to. }
  unfold le_rel, msg_older in Hle. by apply Z.leb_le.
Qed.

(** [getResponseToMessage] returns nothing exactly when no message
    answers [id]. *)
Theorem getResponseToMessage_None d id :
  getResponseToMessage d id = None <->
  forall m, m ∈ db_messages d -> msg_response_to_id m <> Some id.
Proof.
  unfold getResponseToMessage. split.
  - intros Hh m Hm Hr.
    assert (Hin : m ∈ isort msg_older (responses_to d id))
      by (by rewrite elem_of_isort, elem_of_responses_to).
    destruct (isort msg_older (responses_to d id)); [by apply elem_of_nil in Hin|done].
  - intros Hnone. destruct (isort msg_older (responses_to d id)) as [|m l] eqn:E; [done|].
    assert (Hin : m ∈ isort msg_older (responses_to d id)) by (rewrite E; left).
    rewrite elem_of_isort, elem_of_responses_to in Hin. destruct Hin as [Hm Hr].
    by destruct (Hnone m Hm).
Qed.

(** ** Creation, as its callers use it *)

(** On a well-formed store whose foreign keys hold, [createMessage]
    succeeds with the row drawn now, that row reads back, the other rows
    and the queue, clients and clock are as before, and the invariant
    holds after. *)
Lemma createMessage_wf_ok d input :
  db_wf d -> message_fks_ok d input = true ->
  exists d', createMessage input d = Ok (new_message_row (db_uuid d) (db_clock d) input, d') /\
    db_wf d' /\
    getMessage d' (db_uuid d) = Some (new_message_row (db_uuid d) (db_clock d) input) /\
    (forall x, x <> db_uuid d -> getMessage d' x = getMessage d x) /\
    db_messages d' = db_messages d ++ [new_message_row (db_uuid d) (db_clock d) input] /\
    db_queue d' = db_queue d /\ db_clients d' = db_clients d /\ db_clock d' = db_clock d /\
    (forall c, is_Some (getConversation d c) -> is_Some (getConversation d' c)).
Proof.
  intros Hwf Hfk. eexists. rewrite createMessage_ok by done. split; [reflexivity|].
  split; [eapply createMessage_wf; [exact Hwf|by rewrite createMessage_ok]|].
  split; [|split; [|split; [done|split; [done|split; [done|split; [done|]]]]]]; cycle 2.
  { intros c. rewrite getConversation_touch. unfold getConversation. simpl. by intros [? ->]. }
  all: pose proof (fresh_message_id d Hwf) as Hf; unfold getMessage, find_message in Hf |- *;
    cbn [db_messages touch_conversation set_conversations set_messages].
  - rewrite find_first_app, Hf. simpl. by rewrite N.eqb_refl.
  - intros x Hx. rewrite find_first_app.
    destruct (find_first (fun m => (msg_id m =? x)%N) (db_messages d)) eqn:E; [done|]. simpl.
    destruct (N.eqb_spec (db_uuid d) x); [congruence|done].
Qed.

(** ** Responses through the writes *)

Lemma getResponseToMessage_single d mid r :
  responses_to d mid = [r] -> getResponseToMessage d mid = Some r.
Proof. unfold getResponseToMessage. intros ->. done. Qed.

(** A status update keeps the [response_to_id] column, so the responses
    to a message are the same rows, updated. *)
Lemma responses_to_updateMessageStatus id st d mid :
  responses_to (updateMessageStatus id st d) mid =
  map (fun m => if N.eqb (msg_id m) id then set_status_row (db_clock d) st m else m)
      (responses_to d mid).
Proof.
  unfold responses_to, updateMessageStatus. simpl. rewrite List.filter_map_swap.
  f_equal. apply List.filter_ext. intros m. by destruct (msg_id m =? id)%N.
Qed.

(** On a well-formed store nothing answers the id about to be drawn. *)
Lemma responses_to_fresh d : db_wf d -> responses_to d (db_uuid d) = [].
Proof.
  intros Hwf. destruct (responses_to d (db_uuid d)) as [|m l] eqn:E; [done|].
  assert (Hm : m ∈ responses_to d (db_uuid d)) by (rewrite E; left).
  apply elem_of_responses_to in Hm as [Hm Hr].
  eapply Forall_forall in Hm; [|exact (wf_msg_resp _ Hwf)]. simpl in Hm.
  apply Hm in Hr as [x Hx]. pose proof (fresh_message_id d Hwf) as Hf. unfold getMessage in Hf. congruence.
Qed.

Lemma responses_to_app d ms mid :
  List.filter (fun m => bool_decide (msg_response_to_id m = Some mid)) (db_messages d ++ ms) =
  responses_to d mid ++
  List.filter (fun m => bool_decide (msg_response_to_id m = Some mid)) ms.
Proof. apply List.filter_app. Qed.

(** ** Witnesses on [demo_db] *)

Lemma getResponseToMessage_earliest_witness :
  getResponseToMessage demo_db 2 = Some msg_demo4 /\
  (msg_demo4 ∈ db_messages demo_db /\ msg_response_to_id msg_demo4 = Some 2%N /\
   forall r', r' ∈ db_messages demo_db -> msg_response_to_id r' = Some 2%N ->
              (msg_created_at msg_demo4 <= msg_created_at r')%Z).
Proof.
  assert (H : getResponseToMessage demo_db 2 = Some msg_demo4) by (vm_compute; reflexivity).
  split; [exact H|]. exact (getResponseToMessage_earliest demo_db 2 msg_demo4 H).
Defined.

(** ** What [createMessage] does not read

    The conversation [cid] with its status set to [st], every other
    column and row as it was. *)
Definition with_conv_status (cid : Uuid) (st : ConversationStatus) (c : Conversation)
    : Conversation :=
  if N.eqb (conv_id c) cid then
    mkConversation (conv_id c) (conv_title c) (conv_project c) st (conv_created_by c)
      (conv_created_at c) (conv_updated_at c) (conv_closed_at c) (conv_summary c) (conv_metadata c)
  else c.

Definition set_conv_status (cid : Uuid) (st : ConversationStatus) (d : Db) : Db :=
  set_conversations (map (with_conv_status cid st) (db_conversations d)) d.

Lemma getConversation_set_conv_status cid st d id :
  getConversation (set_conv_status cid st d) id = with_conv_status cid st <$> getConversation d id.
Proof. apply find_first_map. intros c. unfold with_conv_status. by destruct (conv_id c =? cid)%N. Qed.

Lemma message_fks_ok_set_conv_status cid st d input :
  message_fks_ok (set_conv_status cid st d) input = message_fks_ok d input.
Proof.
  unfold message_fks_ok. rewrite getConversation_set_conv_status.
  by destruct (getConversation d (cmi_conversation_id input)).
Qed.

Lemma touch_set_conv_status cid st id d :
  touch_conversation id (set_conv_status cid st d) = set_conv_status cid st (touch_conversation id d).
Proof.
  unfold touch_conversation, set_conv_status, set_conversations. simpl. f_equal.
  rewrite !map_map. apply map_ext. intros c. unfold with_conv_status.
  destruct (conv_id c =? cid)%N eqn:E1, (conv_id c =? id)%N eqn:E2; simpl; rewrite ?E1, ?E2; done.
Qed.

(** C37: [createMessage] never reads a conversation's status: on the
    store with the status of any conversation set to any value, it
    raises the same error, or writes and returns the same message and
    leaves the same store, the changed status aside.  So a message is
    accepted in an archived or completed conversation, where the spec
    requires an active one. *)
Theorem createMessage_ignores_conversation_status input cid st d :
  createMessage input (set_conv_status cid st d) =
  match createMessage input d with
  | Ok (m, d') => Ok (m, set_conv_status cid st d')
  | Fail e => Fail e
  end.
Proof.
  unfold createMessage, st_bind, randomUUID, now.
  cbn -[message_fks_ok touch_conversation getMessage set_messages].
  set (d1 := mkDb (db_clients d) (db_conversations d) (db_messages d) (db_queue d)
               (db_invocations d) (db_context d) (db_clock d) (db_uuid d + 1)).
  change (mkDb (db_clients d) (map (with_conv_status cid st) (db_conversations d)) (db_messages d)
            (db_queue d) (db_invocations d) (db_context d) (db_clock d) (db_uuid d + 1))
    with (set_conv_status cid st d1).
  change (getMessage (set_conv_status cid st d1) (db_uuid d)) with (getMessage d1 (db_uuid d)).
  rewrite message_fks_ok_set_conv_status.
  destruct (bool_decide _); [done|]. destruct (negb _); [done|]. do 2 f_equal.
  change (set_messages ?ms (set_conv_status cid st d1)) with (set_conv_status cid st (set_messages ms d1)).
  apply touch_set_conv_status.
Qed.
