(* ===== verification/Invocations.v ===== *)
(** * Invocations ([src/src/db/db.ts], second file: [db/invocations.ts])

    The audit rows of the subprocess invocations: creation (primary key,
    then the foreign keys of the target client and of the message), read
    by id, the latest row of a message, the two paged listings, and the
    partial update that builds its SET clause from the fields present in
    the update object. *)

From S2P Require Import Prelude Schema Clients Messages.

(** [CreateInvocationInput]. *)
Record CreateInvocationInput := mkCreateInvocationInput {
  cii_target : ClientId;
  cii_message_id : Uuid;
  cii_invocation_type : InvocationType;
  cii_command : option string;
}.

(** [ListInvocationsOpts]; [limit = 50], [offset = 0] by default. *)
Record ListInvocationsOpts := mkListInvocationsOpts {
  li_limit : option nat;
  li_offset : option nat;
}.

(** [getInvocation]: [SELECT * FROM invocations WHERE id = ?]. *)
Definition getInvocation (d : Db) (id : Uuid) : option Invocation :=
  find_first (fun i => N.eqb (inv_id i) id) (db_invocations d).

(** The foreign keys of [invocations]. *)
Definition invocation_fks_ok (d : Db) (input : CreateInvocationInput) : bool :=
  bool_decide (is_Some (getClient d (cii_target input))) &&
  bool_decide (is_Some (getMessage d (cii_message_id input))).

(** The row the INSERT writes: status [pending] by default, the outputs
    and timestamps NULL, [created_at] now. *)
Definition new_invocation_row (id : Uuid) (t : Timestamp) (input : CreateInvocationInput)
    : Invocation :=
  mkInvocation id (cii_target input) (cii_message_id input) (cii_invocation_type input)
    inv_pending (cii_command input) None None None None None t.

(** [createInvocation]: draw a UUID, INSERT, return [getInvocation(db, id)!]. *)
Definition createInvocation (input : CreateInvocationInput) : ST Db (option Invocation) :=
  do id <- randomUUID;
  do t <- now;
  fun d =>
    if bool_decide (is_Some (getInvocation d id))
    then Fail (ErrSql "UNIQUE constraint failed: invocations.id")
    else if negb (invocation_fks_ok d input)
    then Fail (ErrSql "FOREIGN KEY constraint failed")
    else
      let d' := set_invocations (db_invocations d ++ [new_invocation_row id t input]) d in
      Ok (getInvocation d' id, d').

(** [ORDER BY created_at DESC] (ties in table order). *)
Definition inv_newer (a b : Invocation) : bool := Z.leb (inv_created_at b) (inv_created_at a).

(** [getInvocationByMessageId]: the newest row of the message. *)
Definition getInvocationByMessageId (d : Db) (messageId : Uuid) : option Invocation :=
  head (sql_page inv_newer 1 0
          (List.filter (fun i => N.eqb (inv_message_id i) messageId) (db_invocations d))).

Definition listInvocationsByStatus (d : Db) (status : InvocationStatus)
    (opts : ListInvocationsOpts) : list Invocation :=
  sql_page inv_newer (default 50%nat (li_limit opts)) (default 0%nat (li_offset opts))
    (List.filter (fun i => bool_decide (inv_status i = status)) (db_invocations d)).

Definition listInvocationsByTarget (d : Db) (target : ClientId)
    (opts : ListInvocationsOpts) : list Invocation :=
  sql_page inv_newer (default 50%nat (li_limit opts)) (default 0%nat (li_offset opts))
    (List.filter (fun i => bool_decide (inv_target i = target)) (db_invocations d)).

(** The update object [Partial<Pick<Invocation, ...>>]: a field is absent
    ([None], [undefined], left out of the SET clause) or present; the
    nullable columns may be present with the value [null]
    ([Some None]), which the SET clause writes. *)
Record InvocationUpdates := mkInvocationUpdates {
  iu_status : option InvocationStatus;
  iu_command : option (option string);
  iu_stdout : option (option string);
  iu_stderr : option (option string);
  iu_exit_code : option (option Z);
  iu_started_at : option (option Timestamp);
  iu_completed_at : option (option Timestamp);
}.

#[export] Instance InvocationUpdates_eq_dec : EqDecision InvocationUpdates.
Proof. solve_decision. Defined.

Definition no_updates : InvocationUpdates :=
  mkInvocationUpdates None None None None None None None.

(** [sets.length === 0]: no field of the object is defined. *)
Definition updates_empty (u : InvocationUpdates) : bool :=
  bool_decide (u = no_updates).

(** The SET clauses on one row. *)
Definition apply_invocation_updates (u : InvocationUpdates) (i : Invocation) : Invocation :=
  mkInvocation (inv_id i) (inv_target i) (inv_message_id i) (inv_type i)
    (default (inv_status i) (iu_status u))
    (default (inv_command i) (iu_command u))
    (default (inv_stdout i) (iu_stdout u))
    (default (inv_stderr i) (iu_stderr u))
    (default (inv_exit_code i) (iu_exit_code u))
    (default (inv_started_at i) (iu_started_at u))
    (default (inv_completed_at i) (iu_completed_at u))
    (inv_created_at i).

Definition update_invocation_row (id : Uuid) (u : InvocationUpdates) (i : Invocation)
    : Invocation :=
  if N.eqb (inv_id i) id then apply_invocation_updates u i else i.

(** [updateInvocation]: with no field present, only the read; otherwise
    [UPDATE invocations SET ... WHERE id = ?], then the read. *)
Definition updateInvocation (id : Uuid) (u : InvocationUpdates) (d : Db)
    : option Invocation * Db :=
  if updates_empty u then (getInvocation d id, d)
  else
    let d' := set_invocations (map (update_invocation_row id u) (db_invocations d)) d in
    (getInvocation d' id, d').

(** ** The table's invariant: unique ids drawn from the supply, and the
    message foreign key. *)
Record inv_wf (d : Db) : Prop := {
  inv_ids : NoDup (inv_id <$> db_invocations d);
  inv_fresh : Forall (fun i => (inv_id i < db_uuid d)%N) (db_invocations d);
  inv_msg : Forall (fun i => is_Some (getMessage d (inv_message_id i))) (db_invocations d);
}.

(** A step that keeps the invocations, keeps every message it had and
    does not move the supply back keeps the invariant. *)
Lemma inv_wf_frame d d' :
  db_invocations d' = db_invocations d ->
  (forall id, is_Some (getMessage d id) -> is_Some (getMessage d' id)) ->
  (db_uuid d <= db_uuid d')%N ->
  inv_wf d -> inv_wf d'.
Proof.
  intros Hi Hm Hu [Hids Hfr Hmsg]. rewrite <- Hi in Hids, Hfr, Hmsg. split; [done|..].
  - eapply Forall_impl; [exact Hfr|]. intros i ?. simpl in *. lia.
  - eapply Forall_impl; [exact Hmsg|]. intros i. apply Hm.
Qed.

Lemma getInvocation_set d xs id :
  getInvocation (set_invocations xs d) id = find_first (fun i => N.eqb (inv_id i) id) xs.
Proof. done. Qed.

Lemma fresh_invocation_id d : inv_wf d -> getInvocation d (db_uuid d) = None.
Proof.
  intros Hwf. destruct (getInvocation d _) as [i|] eqn:E; [|done].
  apply find_first_Some in E as [Hin Hid]. apply N.eqb_eq in Hid.
  eapply Forall_forall in Hin; [|exact (inv_fresh _ Hwf)]. simpl in Hin. lia.
Qed.

Lemma update_invocation_row_id id u i : inv_id (update_invocation_row id u i) = inv_id i.
Proof. unfold update_invocation_row. by destruct (inv_id i =? id)%N. Qed.

Lemma update_invocation_row_msg id u i :
  inv_message_id (update_invocation_row id u i) = inv_message_id i.
Proof. unfold update_invocation_row. by destruct (inv_id i =? id)%N. Qed.

Lemma apply_no_updates i : apply_invocation_updates no_updates i = i.
Proof. by destruct i. Qed.

Lemma getInvocation_map_update d id id' u :
  find_first (fun i => N.eqb (inv_id i) id') (map (update_invocation_row id u) (db_invocations d))
  = update_invocation_row id u <$> getInvocation d id'.
Proof. apply find_first_map. intros i. by rewrite update_invocation_row_id. Qed.

(** ** Creation *)

Section Create.
Context (d : Db) (input : CreateInvocationInput).

Let row := new_invocation_row (db_uuid d) (db_clock d) input.
Let d' := set_invocations (db_invocations d ++ [row])
            (mkDb (db_clients d) (db_conversations d) (db_messages d) (db_queue d)
                  (db_invocations d) (db_context d) (db_clock d) (db_uuid d + 1)).

Lemma createInvocation_unfold :
  inv_wf d ->
  createInvocation input d =
    if negb (invocation_fks_ok d input) then Fail (ErrSql "FOREIGN KEY constraint failed")
    else Ok (getInvocation d' (db_uuid d), d').
Proof.
  intros Hwf. pose proof (fresh_invocation_id d Hwf) as Hf. unfold getInvocation in Hf.
  unfold createInvocation, st_bind, randomUUID, now. cbn -[invocation_fks_ok find_first].
  unfold getInvocation. cbn [db_invocations]. rewrite Hf. reflexivity.
Qed.

Lemma getInvocation_created : inv_wf d -> getInvocation d' (db_uuid d) = Some row.
Proof.
  intros Hwf. unfold d'. rewrite getInvocation_set, find_first_app.
  pose proof (fresh_invocation_id d Hwf) as Hf. unfold getInvocation in Hf.
  rewrite Hf. simpl. by rewrite N.eqb_refl.
Qed.

Lemma inv_wf_create : inv_wf d -> invocation_fks_ok d input = true -> inv_wf d'.
Proof.
  intros [Hids Hfr Hmsg] Hfk. apply andb_prop in Hfk as [_ Hm].
  apply bool_decide_eq_true in Hm. split; simpl.
  - rewrite fmap_app. apply NoDup_app. split; [done|]. split; [|apply NoDup_singleton].
    intros x Hx Hy. apply list_elem_of_singleton in Hy.
    apply list_elem_of_fmap in Hx as (i & -> & Hi).
    eapply Forall_forall in Hi; [|exact Hfr]. unfold row in Hy. simpl in *. lia.
  - apply Forall_app. split; [|apply Forall_singleton; simpl; lia].
    eapply Forall_impl; [exact Hfr|]. intros i Hi. simpl in *. lia.
  - apply Forall_app. split; [exact Hmsg|]. by apply Forall_singleton.
Qed.

(** C38: (create, get) round trip: on a well-formed table whose foreign
    keys hold, [createInvocation] writes a [pending] row with the drawn
    id, the input's target, message, type and command, no output and
    [created_at] now, returns it and reads it back; both invariants hold
    after.  A missing client or message raises the foreign-key error. *)
Theorem createInvocation_roundtrip :
  inv_wf d -> db_wf d ->
  (invocation_fks_ok d input = true ->
   exists d'', createInvocation input d = Ok (Some row, d'') /\
               inv_status row = inv_pending /\ inv_stdout row = None /\
               getInvocation d'' (inv_id row) = Some row /\ inv_wf d'' /\ db_wf d'') /\
  (invocation_fks_ok d input = false ->
   createInvocation input d = Fail (ErrSql "FOREIGN KEY constraint failed")).
Proof.
  intros Hiw Hdw. rewrite createInvocation_unfold by done.
  split; intros Hfk; rewrite Hfk; [|done].
  exists d'. change (inv_id row) with (db_uuid d). rewrite getInvocation_created by done.
  do 4 (split; [done|]). split; [by apply inv_wf_create|].
  eapply db_wf_frame; [exact Hdw|..]; simpl; try done. lia.
Qed.
End Create.

(** ** Update *)

Lemma updateInvocation_result id u d :
  (updateInvocation id u d).1 = getInvocation (updateInvocation id u d).2 id.
Proof. unfold updateInvocation. by destruct (updates_empty u). Qed.

Lemma updateInvocation_self id u d :
  getInvocation (updateInvocation id u d).2 id = apply_invocation_updates u <$> getInvocation d id.
Proof.
  unfold updateInvocation, updates_empty. case_bool_decide as Hnone.
  - subst u. simpl. destruct (getInvocation d id); [|done]. simpl. by rewrite apply_no_updates.
  - cbn [snd]. rewrite getInvocation_set, getInvocation_map_update.
    destruct (getInvocation d id) as [i|] eqn:E; [|done].
    apply find_first_Some in E as [_ E]. simpl. unfold update_invocation_row. by rewrite E.
Qed.

Lemma updateInvocation_other id u d id' :
  id' <> id -> getInvocation (updateInvocation id u d).2 id' = getInvocation d id'.
Proof.
  intros Hne. unfold updateInvocation. destruct (updates_empty u); [done|].
  cbn [snd]. rewrite getInvocation_set, getInvocation_map_update.
  destruct (getInvocation d id') as [i|] eqn:E; [|done].
  apply find_first_Some in E as [_ E]. apply N.eqb_eq in E. simpl.
  unfold update_invocation_row. destruct (N.eqb_spec (inv_id i) id); [congruence|done].
Qed.

(** [updateInvocation] writes no other table, and neither the clock nor
    the supply. *)
Lemma updateInvocation_tables id u d :
  let d' := (updateInvocation id u d).2 in
  db_clients d' = db_clients d /\ db_conversations d' = db_conversations d /\
  db_messages d' = db_messages d /\ db_queue d' = db_queue d /\
  db_context d' = db_context d /\ db_clock d' = db_clock d /\ db_uuid d' = db_uuid d.
Proof. unfold updateInvocation. by destruct (updates_empty u). Qed.

Lemma updateInvocation_inv_wf id u d : inv_wf d -> inv_wf (updateInvocation id u d).2.
Proof.
  intros [Hids Hfr Hmsg]. unfold updateInvocation. destruct (updates_empty u); [by split|].
  split; simpl.
  - by rewrite fmap_map_ext by apply update_invocation_row_id.
  - apply Forall_map. eapply Forall_impl; [exact Hfr|].
    intros i. by rewrite update_invocation_row_id.
  - apply Forall_map. eapply Forall_impl; [exact Hmsg|].
    intros i. by rewrite update_invocation_row_msg.
Qed.

Lemma updateInvocation_db_wf id u d : db_wf d -> db_wf (updateInvocation id u d).2.
Proof.
  intros Hw. destruct (updateInvocation_tables id u d) as (E1 & E2 & E3 & E4 & _ & _ & E7).
  eapply db_wf_frame; [exact Hw|..]; rewrite ?E1, ?E2, ?E3, ?E4, ?E7; done.
Qed.

(** C39: [updateInvocation] returns the row with exactly the present
    fields replaced (a present [null] written as NULL) and every absent
    field, the id, target, message, type and [created_at] as they were,
    on both of its branches; a missing row reads as [null]; every other
    row reads as before, and both invariants are kept. *)
Theorem updateInvocation_spec id u d :
  (forall i, getInvocation d id = Some i ->
     exists i', (updateInvocation id u d).1 = Some i' /\
       inv_id i' = inv_id i /\ inv_target i' = inv_target i /\
       inv_message_id i' = inv_message_id i /\ inv_type i' = inv_type i /\
       inv_status i' = default (inv_status i) (iu_status u) /\
       inv_command i' = default (inv_command i) (iu_command u) /\
       inv_stdout i' = default (inv_stdout i) (iu_stdout u) /\
       inv_stderr i' = default (inv_stderr i) (iu_stderr u) /\
       inv_exit_code i' = default (inv_exit_code i) (iu_exit_code u) /\
       inv_started_at i' = default (inv_started_at i) (iu_started_at u) /\
       inv_completed_at i' = default (inv_completed_at i) (iu_completed_at u) /\
       inv_created_at i' = inv_created_at i) /\
  (getInvocation d id = None -> (updateInvocation id u d).1 = None) /\
  (forall id', id' <> id ->
     getInvocation (updateInvocation id u d).2 id' = getInvocation d id') /\
  (inv_wf d -> inv_wf (updateInvocation id u d).2) /\
  (db_wf d -> db_wf (updateInvocation id u d).2).
Proof.
  rewrite updateInvocation_result, updateInvocation_self. split_and!.
  - intros i ->. eexists. split; [reflexivity|]. by destruct i.
  - by intros ->.
  - apply updateInvocation_other.
  - apply updateInvocation_inv_wf.
  - apply updateInvocation_db_wf.
Qed.

(** ** The latest invocation of a message *)

Lemma inv_newer_total x y : inv_newer x y = true \/ inv_newer y x = true.
Proof. unfold inv_newer. rewrite !Z.leb_le. lia. Qed.

Lemma inv_newer_trans x y z : inv_newer x y = true -> inv_newer y z = true -> inv_newer x z = true.
Proof. unfold inv_newer. rewrite !Z.leb_le. lia. Qed.

(** The head of an [ORDER BY created_at DESC] listing is the newest row. *)
Lemma head_isort_newest (rows : list Invocation) i :
  head (isort inv_newer rows) = Some i ->
  i ∈ rows /\ forall j, j ∈ rows -> (inv_created_at j <= inv_created_at i)%Z.
Proof.
  intros H. destruct (isort inv_newer rows) as [|x l] eqn:E; [done|]. injection H as ->.
  pose proof (isort_sorted inv_newer inv_newer_total inv_newer_trans rows) as Hs.
  rewrite E in Hs. split; [apply (elem_of_isort inv_newer); rewrite E; left|].
  intros j Hj. apply (elem_of_isort inv_newer) in Hj. rewrite E in Hj.
  apply elem_of_cons in Hj as [->|Hj]; [lia|].
  inversion Hs as [|? ? _ Hall]; subst. eapply Forall_forall in Hall; [|exact Hj].
  unfold le_rel, inv_newer in Hall. apply Z.leb_le in Hall. lia.
Qed.

(** C40: [getInvocationByMessageId] returns a row of that message that no
    other row of the message is newer than, and [null] exactly when the
    message has no invocation. *)
Theorem getInvocationByMessageId_latest d mid :
  (forall i, getInvocationByMessageId d mid = Some i ->
     i ∈ db_invocations d /\ inv_message_id i = mid /\
     forall j, j ∈ db_invocations d -> inv_message_id j = mid ->
               (inv_created_at j <= inv_created_at i)%Z) /\
  (getInvocationByMessageId d mid = None <->
   Forall (fun i => inv_message_id i <> mid) (db_invocations d)).
Proof.
  unfold getInvocationByMessageId, sql_page. rewrite drop_0.
  set (rows := List.filter _ _). split.
  - intros i H. assert (Hh : head (isort inv_newer rows) = Some i).
    { destruct (isort inv_newer rows); [done|exact H]. }
    apply head_isort_newest in Hh as [Hin Hnew].
    apply elem_of_list_filter_bool in Hin as [Hin Hm]. apply N.eqb_eq in Hm.
    split; [done|split; [done|]]. intros j Hj Hjm. apply Hnew.
    apply elem_of_list_filter_bool. split; [done|]. by apply N.eqb_eq.
  - assert (Hnil : isort inv_newer rows = [] <-> rows = []).
    { split; intros H; [|by rewrite H].
      apply Permutation_nil. rewrite <- H. apply isort_perm. }
    destruct (isort inv_newer rows) as [|x l] eqn:E; simpl.
    + split; [|done]. intros _. destruct Hnil as [Hn _]. specialize (Hn eq_refl).
      apply Forall_forall. intros i Hi Him. assert (i ∈ rows) as Hr.
      { apply elem_of_list_filter_bool. split; [done|]. by apply N.eqb_eq. }
      rewrite Hn in Hr. by apply elem_of_nil in Hr.
    + split; [done|]. intros Hall. assert (rows = []) as Hr.
      { apply filter_nil_bool. intros i Hi. apply Forall_forall with (x := i) in Hall; [|done].
        by apply N.eqb_neq. }
      apply Hnil in Hr. discriminate.
Qed.

(** ** Witnesses on the sample store *)

Definition demo_invocation_input : CreateInvocationInput :=
  mkCreateInvocationInput codex 2 it_codex_exec (Some "codex exec --json").

Lemma demo_db_inv_wf : inv_wf demo_db.
Proof. split; vm_compute; constructor. Qed.

Lemma createInvocation_roundtrip_witness :
  inv_wf demo_db /\ db_wf demo_db /\
  exists d'', createInvocation demo_invocation_input demo_db =
                Ok (Some (new_invocation_row 5 1000 demo_invocation_input), d'') /\
              inv_status (new_invocation_row 5 1000 demo_invocation_input) = inv_pending /\
              inv_stdout (new_invocation_row 5 1000 demo_invocation_input) = None /\
              getInvocation d'' 5 = Some (new_invocation_row 5 1000 demo_invocation_input) /\
              inv_wf d'' /\ db_wf d''.
Proof.
  split; [exact demo_db_inv_wf|]. split; [exact demo_db_wf|].
  apply (proj1 (createInvocation_roundtrip demo_db demo_invocation_input
                  demo_db_inv_wf demo_db_wf)).
  vm_compute. reflexivity.
Defined.
