(* ===== verification/Identity.v ===== *)
(** * Client identification ([src/src/mcp/identity.ts], first file)

    [identifyClient] derives the assistant behind an HTTP request: the
    [x-client-id] header when it names an assistant, else a [User-Agent]
    substring, else the [client] query parameter, else none.  A request
    is reduced to the three inputs the function reads; a query parameter
    that is not a single string (absent, or repeated into an array) is
    [None], which no comparison with ["claude"] or ["codex"] accepts. *)

From S2P Require Import Prelude.

Record Request := mkRequest {
  req_x_client_id : option string;
  req_user_agent : option string;
  req_query_client : option string;
}.

(** [header === "claude" || header === "codex"]. *)
Definition client_of_name (s : option string) : option ClientId :=
  match s with
  | Some "claude" => Some claude
  | Some "codex" => Some codex
  | _ => None
  end%string.

Definition identifyClient (req : Request) : option ClientId :=
  match client_of_name (req_x_client_id req) with
  | Some c => Some c
  | None =>
      let ua := default "" (req_user_agent req) in
      if includes ua "claude-code" || includes ua "Claude" then Some claude
      else if includes ua "codex" || includes ua "Codex" then Some codex
      else client_of_name (req_query_client req)
  end.

Definition getOtherClient (clientId : ClientId) : ClientId :=
  match clientId with claude => codex | codex => claude end.

Lemma getOtherClient_ne c : getOtherClient c <> c.
Proof. by destruct c. Qed.

Lemma getOtherClient_involutive c : getOtherClient (getOtherClient c) = c.
Proof. by destruct c. Qed.

(** A request stays anonymous exactly when none of the three sources
    names an assistant. *)
Lemma identifyClient_None req :
  identifyClient req = None <->
  client_of_name (req_x_client_id req) = None /\
  Forall (fun p => includes (default "" (req_user_agent req)) p = false)
         ["claude-code"; "Claude"; "codex"; "Codex"]%string /\
  client_of_name (req_query_client req) = None.
Proof.
  unfold identifyClient. rewrite !Forall_cons, Forall_nil.
  destruct (client_of_name (req_x_client_id req)); [naive_solver|].
  destruct (includes _ "claude-code"), (includes _ "Claude"),
           (includes _ "codex"), (includes _ "Codex"); simpl; naive_solver.
Qed.
