(* ===== verification/Json.v ===== *)
(** * JSON values, [JSON.stringify] and [JSON.parse]

    The tool handlers answer with [JSON.stringify(obj, null, 2)] and the
    invoker reads Codex's line-delimited events with [JSON.parse]; both
    are ECMAScript built-ins, modelled here from the standard (sections
    QuoteJSONString, SerializeJSONObject/Array, Number::toString and the
    JSON grammar of RFC 8259).

    - Numbers are exact decimals [m * 10^e], normalised ([m] has no
      trailing zero; zero is [0 * 10^0]).  JavaScript rounds to binary64;
      the two agree on every number of at most 15 significant digits,
      which covers the integers, exit codes and line numbers the program
      reads.
    - Strings are byte strings (UTF-8 as it arrives); [\uXXXX] escapes
      decode to the UTF-8 bytes of the code unit (a surrogate pair to the
      4 bytes of its code point).
    - An object keeps its keys in insertion order with no duplicate: a
      repeated key in [JSON.parse] input overwrites the value in place,
      as a JavaScript property assignment does.  (JavaScript enumerates
      integer-like keys first; no object the program prints has one.) *)

From S2P Require Import Prelude.
From stdpp Require Import pretty.
From Stdlib Require Import Ascii.

Inductive json :=
| JNull
| JBool (b : bool)
| JNum (m : Z) (e : Z)
| JStr (s : string)
| JArr (xs : list json)
| JObj (kvs : list (string * json)).

(** The induction principle with hypotheses on the elements of arrays
    and the values of objects. *)
Section JsonInd.
Variable P : json -> Prop.
Hypothesis HNull : P JNull.
Hypothesis HBool : forall b, P (JBool b).
Hypothesis HNum : forall m e, P (JNum m e).
Hypothesis HStr : forall s, P (JStr s).
Hypothesis HArr : forall xs, Forall P xs -> P (JArr xs).
Hypothesis HObj : forall kvs, Forall (fun kv => P kv.2) kvs -> P (JObj kvs).

Fixpoint json_ind' (v : json) : P v :=
  match v with
  | JNull => HNull
  | JBool b => HBool b
  | JNum m e => HNum m e
  | JStr s => HStr s
  | JArr xs => HArr xs ((fix go (l : list json) : Forall P l :=
                          match l with
                          | [] => Forall_nil_2 _
                          | x :: l' => Forall_cons_2 _ x l' (json_ind' x) (go l')
                          end) xs)
  | JObj kvs => HObj kvs ((fix go (l : list (string * json)) : Forall (fun kv => P kv.2) l :=
                            match l with
                            | [] => Forall_nil_2 _
                            | kv :: l' => Forall_cons_2 _ kv l' (json_ind' kv.2) (go l')
                            end) kvs)
  end.
End JsonInd.

(** ** Numbers *)

(** Strip the trailing zeros of the mantissa into the exponent; [fuel]
    bounds the number of digits. *)
Fixpoint strip_zeros (fuel : nat) (m e : Z) : Z * Z :=
  match fuel with
  | O => (m, e)
  | S f => if Z.eqb m 0 then (0, 0)
           else if Z.eqb (m mod 10) 0 then strip_zeros f (m / 10) (e + 1) else (m, e)
  end%Z.

Definition mk_num (m e : Z) : json :=
  let '(m', e') := strip_zeros (Pos.to_nat (Pos.size (Z.to_pos (Z.abs m)))) m e in JNum m' e'.

Definition num_normal (m e : Z) : Prop := ((m = 0 /\ e = 0) \/ m mod 10 <> 0)%Z.

(** An integer as a JSON number. *)
Definition JInt (z : Z) : json := mk_num z 0.

Definition chr (n : nat) : Ascii.ascii := Ascii.ascii_of_nat n.

Fixpoint zeros (n : nat) : string :=
  match n with O => "" | S n' => String "0"%char (zeros n') end.

(** Number::toString(10) of [m * 10^e]: with the [k] digits [s] of [m]
    and the point after [n = e + k] of them, fixed notation when
    [-6 < n <= 21], exponential otherwise. *)
Definition num_to_string (m e : Z) : string :=
  if Z.eqb m 0 then "0" else
  let s := pretty (Z.to_N (Z.abs m)) in
  let k := Z.of_nat (String.length s) in
  let n := (e + k)%Z in
  let body :=
    if (k <=? n)%Z && (n <=? 21)%Z then s +:+ zeros (Z.to_nat (n - k))
    else if (0 <? n)%Z && (n <=? 21)%Z then
      String.substring 0 (Z.to_nat n) s +:+ "." +:+
      String.substring (Z.to_nat n) (String.length s) s
    else if (-6 <? n)%Z && (n <=? 0)%Z then "0." +:+ zeros (Z.to_nat (- n)) +:+ s
    else
      let ex := (n - 1)%Z in
      let exs := (if (0 <=? ex)%Z then "+" else "-") +:+ pretty (Z.to_N (Z.abs ex)) in
      match s with
      | String d "" => String d ("e" +:+ exs)
      | String d rest => String d ("." +:+ rest +:+ "e" +:+ exs)
      | "" => ""
      end in
  if (m <? 0)%Z then "-" +:+ body else body.

(** ** Strings: QuoteJSONString *)

Definition dq : Ascii.ascii := chr 34.
Definition bs : Ascii.ascii := chr 92.

Definition hex_digit (n : nat) : Ascii.ascii :=
  if (n <? 10)%nat then chr (48 + n) else chr (87 + n).

Definition quote_char (c : Ascii.ascii) : string :=
  let n := Ascii.nat_of_ascii c in
  if (n =? 8)%nat then "\b" else if (n =? 9)%nat then "\t"
  else if (n =? 10)%nat then "\n" else if (n =? 12)%nat then "\f"
  else if (n =? 13)%nat then "\r" else if (n =? 34)%nat then String bs (String dq "")
  else if (n =? 92)%nat then "\\"
  else if (n <? 32)%nat then String bs (String "u"%char (String "0"%char (String "0"
         (String (hex_digit (n / 16)) (String (hex_digit (n mod 16)) "")))))
  else String c "".

Fixpoint quote_body (s : string) : string :=
  match s with
  | "" => ""
  | String c r => quote_char c +:+ quote_body r
  end.

Definition quote (s : string) : string := String dq (quote_body s +:+ String dq "").

(** ** [JSON.stringify(value, null, gap)]

    [gap] is the indentation unit ([""] for the compact form, two spaces
    for [JSON.stringify(obj, null, 2)]), [ind] the current indentation. *)

Definition nl : string := String (chr 10) "".

Fixpoint join (sep : string) (l : list string) : string :=
  match l with
  | [] => ""
  | [x] => x
  | x :: l' => x +:+ sep +:+ join sep l'
  end.

Fixpoint ser (gap ind : string) (v : json) : string :=
  match v with
  | JNull => "null"
  | JBool true => "true"
  | JBool false => "false"
  | JNum m e => num_to_string m e
  | JStr s => quote s
  | JArr [] => "[]"
  | JArr xs =>
      if String.eqb gap "" then "[" +:+ join "," (map (ser gap ind) xs) +:+ "]"
      else "[" +:+ nl +:+ ind +:+ gap +:+
           join ("," +:+ nl +:+ ind +:+ gap) (map (ser gap (ind +:+ gap)) xs) +:+
           nl +:+ ind +:+ "]"
  | JObj [] => "{}"
  | JObj kvs =>
      if String.eqb gap "" then
        "{" +:+ join "," (map (fun kv => quote kv.1 +:+ ":" +:+ ser gap ind kv.2) kvs) +:+ "}"
      else "{" +:+ nl +:+ ind +:+ gap +:+
           join ("," +:+ nl +:+ ind +:+ gap)
             (map (fun kv => quote kv.1 +:+ ": " +:+ ser gap (ind +:+ gap) kv.2) kvs) +:+
           nl +:+ ind +:+ "}"
  end.

(** [JSON.stringify(v)] and [JSON.stringify(v, null, 2)]. *)
Definition stringify (v : json) : string := ser "" "" v.
Definition stringify2 (v : json) : string := ser "  " "" v.

(** ** [JSON.parse] *)

Definition is_ws (c : ascii) : bool :=
  Ascii.eqb c " " || Ascii.eqb c (chr 9) || Ascii.eqb c (chr 10) || Ascii.eqb c (chr 13).

Fixpoint skip_ws (s : string) : string :=
  match s with
  | String c r => if is_ws c then skip_ws r else s
  | "" => ""
  end.

(** [p]'s remainder in [s] when [p] is a prefix of [s]. *)
Fixpoint strip_prefix (p s : string) : option string :=
  match p, s with
  | "", _ => Some s
  | String a p', String b s' => if Ascii.eqb a b then strip_prefix p' s' else None
  | _, "" => None
  end.

Definition is_digit (c : ascii) : bool :=
  (48 <=? nat_of_ascii c)%nat && (nat_of_ascii c <=? 57)%nat.

Fixpoint span_digits (s : string) : string * string :=
  match s with
  | String c r =>
      if is_digit c then let '(ds, rest) := span_digits r in (String c ds, rest) else ("", s)
  | "" => ("", "")
  end.

Fixpoint digits_value (acc : Z) (ds : string) : Z :=
  match ds with
  | "" => acc
  | String c r => digits_value (acc * 10 + Z.of_nat (nat_of_ascii c - 48)) r
  end.

(** The number grammar [-? (0 | [1-9][0-9]* ) (. [0-9]+)? ([eE] [+-]? [0-9]+)?]. *)
Definition parse_exponent (s : string) : option (Z * string) :=
  match s with
  | String c r =>
      if Ascii.eqb c "e" || Ascii.eqb c "E" then
        let '(sg, r1) := match r with
                         | String c' r' => if Ascii.eqb c' "+" then (1%Z, r')
                                           else if Ascii.eqb c' "-" then ((-1)%Z, r')
                                           else (1%Z, r)
                         | "" => (1%Z, r)
                         end in
        let '(ed, r2) := span_digits r1 in
        if String.eqb ed "" then None else Some ((sg * digits_value 0 ed)%Z, r2)
      else Some (0%Z, s)
  | "" => Some (0%Z, "")
  end.

Definition parse_fraction (s : string) : option (string * string) :=
  match s with
  | String c r =>
      if Ascii.eqb c "." then
        let '(fd, r') := span_digits r in if String.eqb fd "" then None else Some (fd, r')
      else Some ("", s)
  | "" => Some ("", "")
  end.

Definition parse_number (s : string) : option (json * string) :=
  let '(neg, s1) := match s with
                    | String c r => if Ascii.eqb c "-" then (true, r) else (false, s)
                    | "" => (false, s)
                    end in
  let '(intd, s2) := match s1 with
                     | String c r => if Ascii.eqb c "0" then ("0", r) else span_digits s1
                     | "" => ("", "")
                     end in
  if String.eqb intd "" then None else
  match parse_fraction s2 with
  | None => None
  | Some (fracd, s3) =>
      match parse_exponent s3 with
      | None => None
      | Some (ex, s4) =>
          let mant := digits_value 0 (intd +:+ fracd) in
          Some (mk_num (if neg then - mant else mant)%Z
                       (ex - Z.of_nat (String.length fracd))%Z, s4)
      end
  end.

Definition hex_val (c : ascii) : option N :=
  let n := N_of_ascii c in
  if (48 <=? n)%N && (n <=? 57)%N then Some (n - 48)%N
  else if (97 <=? n)%N && (n <=? 102)%N then Some (n - 87)%N
  else if (65 <=? n)%N && (n <=? 70)%N then Some (n - 55)%N
  else None.

Definition hex4 (a b c d : ascii) : option N :=
  match hex_val a, hex_val b, hex_val c, hex_val d with
  | Some x, Some y, Some z, Some w => Some (((x * 16 + y) * 16 + z) * 16 + w)%N
  | _, _, _, _ => None
  end.

(** The UTF-8 bytes of a code point (of a lone surrogate, its 3-byte
    generalised form). *)
Definition byte (n : N) : ascii := ascii_of_N n.

Definition utf8 (cp : N) : string :=
  (if cp <? 128 then String (byte cp) ""
   else if cp <? 2048 then String (byte (192 + cp / 64)) (String (byte (128 + cp mod 64)) "")
   else if cp <? 65536 then
     String (byte (224 + cp / 4096)) (String (byte (128 + (cp / 64) mod 64))
       (String (byte (128 + cp mod 64)) ""))
   else String (byte (240 + cp / 262144)) (String (byte (128 + (cp / 4096) mod 64))
       (String (byte (128 + (cp / 64) mod 64)) (String (byte (128 + cp mod 64)) ""))))%N.

Definition is_high_surrogate (u : N) : bool := (55296 <=? u)%N && (u <=? 56319)%N.
Definition is_low_surrogate (u : N) : bool := (56320 <=? u)%N && (u <=? 57343)%N.

(** The body of a string literal after its opening quote: the decoded
    bytes and the input after the closing quote.  Unescaped control
    characters are a syntax error. *)
(** [Some (t, rest)] with [p] put in front of [t]. *)
Definition cons_str (p : string) (o : option (string * string)) : option (string * string) :=
  match o with Some (t, rest) => Some (p +:+ t, rest) | None => None end.

(** The one-character escapes: quote, backslash, slash, [b], [f], [n], [r], [t]. *)
Definition simple_escape (e : ascii) : option ascii :=
  if Ascii.eqb e dq then Some dq else if Ascii.eqb e bs then Some bs
  else if Ascii.eqb e "/" then Some "/"%char
  else if Ascii.eqb e "b" then Some (chr 8)
  else if Ascii.eqb e "f" then Some (chr 12)
  else if Ascii.eqb e "n" then Some (chr 10)
  else if Ascii.eqb e "r" then Some (chr 13)
  else if Ascii.eqb e "t" then Some (chr 9) else None.

(** A [\uXXXX] escape of a low surrogate. *)
Definition low_escape (b u l1 l2 l3 l4 : ascii) : option N :=
  if Ascii.eqb b bs && Ascii.eqb u "u" then
    match hex4 l1 l2 l3 l4 with
    | Some lo => if is_low_surrogate lo then Some lo else None
    | None => None
    end
  else None.

(** The body of a string literal after its opening quote: the decoded
    bytes and the input after the closing quote.  Unescaped control
    characters are a syntax error. *)
Fixpoint parse_str (s : string) : option (string * string) :=
  match s with
  | "" => None
  | String c r =>
      if Ascii.eqb c dq then Some ("", r)
      else if Ascii.eqb c bs then
        match r with
        | String e r1 =>
            if Ascii.eqb e "u" then
              match r1 with
              | String h1 (String h2 (String h3 (String h4 r'))) =>
                  match hex4 h1 h2 h3 h4 with
                  | None => None
                  | Some u =>
                      match r' with
                      | String b (String u2 (String l1 (String l2 (String l3 (String l4 r''))))) =>
                          match (if is_high_surrogate u then low_escape b u2 l1 l2 l3 l4 else None) with
                          | Some lo => cons_str (utf8 (65536 + (u - 55296) * 1024 + (lo - 56320))%N)
                                                (parse_str r'')
                          | None => cons_str (utf8 u) (parse_str r')
                          end
                      | _ => cons_str (utf8 u) (parse_str r')
                      end
                  end
              | _ => None
              end
            else match simple_escape e with
                 | Some x => cons_str (String x "") (parse_str r1)
                 | None => None
                 end
        | "" => None
        end
      else if (nat_of_ascii c <? 32)%nat then None
      else cons_str (String c "") (parse_str r)
  end.

(** The result of a parser run on fuel: a value, a syntax error, or out
    of fuel ([POut], which [json_parse]'s fuel never reaches). *)
Inductive presult (A : Type) := PDone (a : A) | PErr | POut.
Arguments PDone {A} a.
Arguments PErr {A}.
Arguments POut {A}.

(** [obj[k] = v] on an object under construction: a present key keeps
    its position and takes the new value. *)
Fixpoint obj_set (kvs : list (string * json)) (k : string) (v : json) : list (string * json) :=
  match kvs with
  | [] => [(k, v)]
  | (k', v') :: kvs' => if String.eqb k' k then (k, v) :: kvs' else (k', v') :: obj_set kvs' k v
  end.

Fixpoint parse_value (fuel : nat) (s0 : string) : presult (json * string) :=
  match fuel with
  | O => POut
  | S f =>
    let s := skip_ws s0 in
    match strip_prefix "null" s, strip_prefix "true" s, strip_prefix "false" s with
    | Some r, _, _ => PDone (JNull, r)
    | _, Some r, _ => PDone (JBool true, r)
    | _, _, Some r => PDone (JBool false, r)
    | None, None, None =>
      match s with
      | String c r =>
          if Ascii.eqb c dq then
            match parse_str r with Some (t, r') => PDone (JStr t, r') | None => PErr end
          else if Ascii.eqb c "[" then
            match skip_ws r with
            | String c' r' => if Ascii.eqb c' "]" then PDone (JArr [], r') else parse_elems f r []
            | "" => PErr
            end
          else if Ascii.eqb c "{" then
            match skip_ws r with
            | String c' r' => if Ascii.eqb c' "}" then PDone (JObj [], r') else parse_members f r []
            | "" => PErr
            end
          else match parse_number s with Some (v, r') => PDone (v, r') | None => PErr end
      | "" => PErr
      end
    end
  end
with parse_elems (fuel : nat) (s : string) (acc : list json) : presult (json * string) :=
  match fuel with
  | O => POut
  | S f =>
    match parse_value f s with
    | PDone (v, r) =>
        match skip_ws r with
        | String c r' =>
            if Ascii.eqb c "," then parse_elems f r' (acc ++ [v])
            else if Ascii.eqb c "]" then PDone (JArr (acc ++ [v]), r')
            else PErr
        | "" => PErr
        end
    | PErr => PErr
    | POut => POut
    end
  end
with parse_members (fuel : nat) (s : string) (acc : list (string * json))
    : presult (json * string) :=
  match fuel with
  | O => POut
  | S f =>
    match skip_ws s with
    | String c r =>
        if negb (Ascii.eqb c dq) then PErr else
        match parse_str r with
        | None => PErr
        | Some (k, r1) =>
            match skip_ws r1 with
            | String c1 r2 =>
                if negb (Ascii.eqb c1 ":") then PErr else
                match parse_value f r2 with
                | PDone (v, r3) =>
                    match skip_ws r3 with
                    | String c3 r4 =>
                        if Ascii.eqb c3 "," then parse_members f r4 (obj_set acc k v)
                        else if Ascii.eqb c3 "}" then PDone (JObj (obj_set acc k v), r4)
                        else PErr
                    | "" => PErr
                    end
                | PErr => PErr
                | POut => POut
                end
            | "" => PErr
            end
        end
    | "" => PErr
    end
  end.

(** [JSON.parse(text)]: one value, then only whitespace; [None] is the
    [SyntaxError]. *)
Definition json_parse (text : string) : option json :=
  match parse_value (S (2 * String.length text)) text with
  | PDone (v, r) => if String.eqb (skip_ws r) "" then Some v else None
  | _ => None
  end.

(** ** Termination: [json_parse] never runs out of fuel

    Every parser consumes input: each returns a rest shorter than its
    input.  A value needs fuel above twice its input length (one unit
    for the value, one for the element or member loop around it). *)

Definition shorter (s : string) (r : presult (json * string)) : Prop :=
  match r with
  | PDone (_, rest) => (String.length rest < String.length s)%nat
  | PErr => True
  | POut => False
  end.

Lemma skip_ws_length s : (String.length (skip_ws s) <= String.length s)%nat.
Proof. induction s as [|c s IH]; simpl; [done|]. destruct (is_ws c); simpl; lia. Qed.

Lemma strip_prefix_length p s r :
  strip_prefix p s = Some r -> (String.length r + String.length p = String.length s)%nat.
Proof.
  revert s. induction p as [|a p IH]; intros s H; simpl in *.
  - injection H as <-. lia.
  - destruct s as [|b s]; [done|]. destruct (Ascii.eqb a b); [|done]. apply IH in H. simpl. lia.
Qed.

Lemma span_digits_length s ds r :
  span_digits s = (ds, r) -> (String.length ds + String.length r = String.length s)%nat.
Proof.
  revert ds r. induction s as [|c s IH]; intros ds r H; simpl in H.
  - by injection H as <- <-.
  - destruct (is_digit c).
    + destruct (span_digits s) as [ds' r'] eqn:E. injection H as <- <-.
      specialize (IH ds' r' eq_refl). simpl. lia.
    + injection H as <- <-. done.
Qed.

Lemma parse_fraction_length s fd r :
  parse_fraction s = Some (fd, r) -> (String.length r <= String.length s)%nat.
Proof.
  destruct s as [|c s]; simpl; [intros [= _ <-]; done|].
  destruct (Ascii.eqb c "."); [|intros [= _ <-]; done].
  destruct (span_digits s) as [d r'] eqn:E. destruct (String.eqb d ""); [done|].
  intros [= _ <-]. apply span_digits_length in E. simpl. lia.
Qed.

Lemma parse_exponent_length s x r :
  parse_exponent s = Some (x, r) -> (String.length r <= String.length s)%nat.
Proof.
  destruct s as [|c s]; simpl; [intros [= _ <-]; done|].
  destruct (Ascii.eqb c "e" || Ascii.eqb c "E"); [|intros [= _ <-]; done].
  destruct (match s with String c' r' => _ | "" => _ end) as [sg r1] eqn:E1.
  assert (String.length r1 <= String.length s)%nat.
  { destruct s as [|c' s']; [by injection E1 as _ <-|].
    destruct (Ascii.eqb c' "+"); [injection E1 as _ <-; simpl; lia|].
    destruct (Ascii.eqb c' "-"); injection E1 as _ <-; simpl; lia. }
  destruct (span_digits r1) as [ed r2] eqn:E2. destruct (String.eqb ed ""); [done|].
  intros [= _ <-]. apply span_digits_length in E2. simpl. lia.
Qed.

Lemma parse_number_length s v r :
  parse_number s = Some (v, r) -> (String.length r < String.length s)%nat.
Proof.
  unfold parse_number.
  destruct (match s with String c r => _ | "" => _ end) as [neg s1] eqn:E1.
  assert (L1 : (String.length s1 <= String.length s)%nat).
  { destruct s as [|c s']; [by injection E1 as _ <-|].
    destruct (Ascii.eqb c "-"); injection E1 as _ <-; simpl; lia. }
  destruct (match s1 with String c r => _ | "" => _ end) as [intd s2] eqn:E2.
  assert (L2 : (String.length s2 + String.length intd = String.length s1)%nat).
  { destruct s1 as [|c s1']; [by injection E2 as <- <-|].
    destruct (Ascii.eqb c "0"); [injection E2 as <- <-; simpl; lia|].
    apply span_digits_length in E2. lia. }
  destruct (String.eqb intd "") eqn:Ei; [done|].
  assert (String.length intd <> 0)%nat by (destruct intd; done).
  destruct (parse_fraction s2) as [[fd s3]|] eqn:E3; [|done].
  destruct (parse_exponent s3) as [[x s4]|] eqn:E4; [|done].
  intros [= _ <-]. apply parse_fraction_length in E3. apply parse_exponent_length in E4. lia.
Qed.

Lemma cons_str_Some p o t r :
  cons_str p o = Some (t, r) -> exists t', o = Some (t', r).
Proof. destruct o as [[t' r']|]; simpl; [intros [= _ <-]; eauto|done]. Qed.

Lemma parse_str_length s t r :
  parse_str s = Some (t, r) -> (String.length r < String.length s)%nat.
Proof.
  revert t r. induction s as [s IH] using (induction_ltof1 _ String.length).
  unfold ltof in IH. destruct s as [|c s]; [done|]. intros t r. simpl.
  destruct (Ascii.eqb c dq); [intros [= _ <-]; lia|].
  assert (Hrec : forall x t r, parse_str x = Some (t, r) ->
                 (String.length x < S (String.length s))%nat ->
                 (String.length r < S (String.length s))%nat).
  { intros x t' r' Hx Hl. apply IH in Hx; [lia|exact Hl]. }
  clear IH.
  assert (Hc : forall p x, (String.length x < S (String.length s))%nat ->
                 cons_str p (parse_str x) = Some (t, r) ->
                 (String.length r < S (String.length s))%nat).
  { intros p x Hl (t' & Ht)%cons_str_Some. exact (Hrec _ _ _ Ht Hl). }
  destruct (Ascii.eqb c bs).
  - destruct s as [|e r1]; [done|]. destruct (Ascii.eqb e "u").
    + destruct r1 as [|h1 [|h2 [|h3 [|h4 r']]]]; try done.
      destruct (hex4 h1 h2 h3 h4) as [u|]; [|done].
      destruct r' as [|b [|u2 [|l1 [|l2 [|l3 [|l4 r'']]]]]];
        try (apply Hc; simpl; lia).
      destruct (if is_high_surrogate u then _ else None); apply Hc; simpl; lia.
    + destruct (simple_escape e); [|done]. apply Hc. simpl. lia.
  - destruct (nat_of_ascii c <? 32)%nat; [done|]. apply Hc. simpl. lia.
Qed.

Lemma shorter_mono s s' r :
  (String.length s <= String.length s')%nat -> shorter s r -> shorter s' r.
Proof. destruct r as [[v rest]| |]; simpl; lia || done. Qed.

Definition PV (f : nat) : Prop :=
  forall s, (2 * String.length s < f)%nat -> shorter s (parse_value f s).
Definition PE (f : nat) : Prop :=
  forall s acc, (2 * String.length s + 1 < f)%nat -> shorter s (parse_elems f s acc).
Definition PM (f : nat) : Prop :=
  forall s acc, (2 * String.length s + 1 < f)%nat -> shorter s (parse_members f s acc).

Lemma PV_step f : PE f -> PM f -> PV (S f).
Proof.
  intros HE HM s0 Hs0.
  cbn -[parse_elems parse_members parse_str parse_number skip_ws strip_prefix].
  pose proof (skip_ws_length s0) as Hws. set (s := skip_ws s0) in *.
  destruct (strip_prefix "null" s) as [r|] eqn:E1;
    [apply strip_prefix_length in E1; simpl in *; lia|].
  destruct (strip_prefix "true" s) as [r|] eqn:E2;
    [apply strip_prefix_length in E2; simpl in *; lia|].
  destruct (strip_prefix "false" s) as [r|] eqn:E3;
    [apply strip_prefix_length in E3; simpl in *; lia|].
  destruct s as [|c r] eqn:Es; [done|].
  destruct (Ascii.eqb c dq).
  { destruct (parse_str r) as [[t r']|] eqn:E; [|done].
    apply parse_str_length in E. simpl in *. lia. }
  destruct (Ascii.eqb c "[").
  { pose proof (skip_ws_length r). destruct (skip_ws r) as [|c' r'] eqn:Er; [done|].
    destruct (Ascii.eqb c' "]"); [simpl in *; lia|].
    eapply shorter_mono; [|apply HE]; simpl in *; lia. }
  destruct (Ascii.eqb c "{").
  { pose proof (skip_ws_length r). destruct (skip_ws r) as [|c' r'] eqn:Er; [done|].
    destruct (Ascii.eqb c' "}"); [simpl in *; lia|].
    eapply shorter_mono; [|apply HM]; simpl in *; lia. }
  destruct (parse_number (String c r)) as [[v r']|] eqn:E; [|done].
  apply parse_number_length in E. simpl in *. lia.
Qed.

Lemma PE_step f : PV f -> PE f -> PE (S f).
Proof.
  intros HV HE s acc Hs.
  cbn [parse_elems].
  pose proof (HV s ltac:(lia)) as Hv.
  destruct (parse_value f s) as [[v r]| |]; simpl in Hv; [|simpl; done|done].
  pose proof (skip_ws_length r). destruct (skip_ws r) as [|c r'] eqn:Er; [done|].
  destruct (Ascii.eqb c ","); [|destruct (Ascii.eqb c "]"); simpl in *; lia || done].
  eapply shorter_mono; [|apply HE]; simpl in *; lia.
Qed.

Lemma PM_step f : PV f -> PM f -> PM (S f).
Proof.
  intros HV HM s acc Hs.
  cbn [parse_members].
  pose proof (skip_ws_length s). destruct (skip_ws s) as [|c r] eqn:E0; [done|].
  destruct (negb (Ascii.eqb c dq)); [done|].
  destruct (parse_str r) as [[k r1]|] eqn:E1; [|done]. apply parse_str_length in E1.
  pose proof (skip_ws_length r1). destruct (skip_ws r1) as [|c1 r2] eqn:E2; [done|].
  destruct (negb (Ascii.eqb c1 ":")); [done|].
  pose proof (HV r2 ltac:(simpl in *; lia)) as Hv.
  destruct (parse_value f r2) as [[v r3]| |]; simpl in Hv; [|simpl; done|done].
  pose proof (skip_ws_length r3). destruct (skip_ws r3) as [|c3 r4] eqn:E3; [done|].
  destruct (Ascii.eqb c3 ","); [|destruct (Ascii.eqb c3 "}"); simpl in *; lia || done].
  eapply shorter_mono; [|apply HM]; simpl in *; lia.
Qed.

Lemma parse_fuel_enough f : PV f /\ PE f /\ PM f.
Proof.
  induction f as [|f (HV & HE & HM)].
  - split; [|split]; intros s; [|intros acc..]; lia.
  - split; [by apply PV_step|split; [by apply PE_step|by apply PM_step]].
Qed.

(** [json_parse] decides every input: its fuel, twice the input length
    plus one, never runs out, and a parsed value leaves a shorter rest. *)
Theorem json_parse_terminates text :
  shorter text (parse_value (S (2 * String.length text)) text).
Proof. apply (proj1 (parse_fuel_enough _)). lia. Qed.

(** ** JavaScript values read from parsed JSON

    A value the code reads is [option json]: [None] is [undefined].
    These are the operations the program applies to such values: the
    truthiness of [if] and [&&], [ToString] (template literals and
    [+=]), property reads ([x.k] throws on [null] and [undefined],
    [x?.k] does not), and the strict comparisons with literals. *)

Definition js_truthy (v : option json) : bool :=
  match v with
  | None | Some JNull => false
  | Some (JBool b) => b
  | Some (JNum m _) => negb (Z.eqb m 0)
  | Some (JStr s) => negb (String.eqb s "")
  | Some (JArr _) | Some (JObj _) => true
  end.

(** [ToString]; an array is joined with [","], its [null] elements
    printed as the empty string. *)
Fixpoint js_str (v : json) : string :=
  match v with
  | JNull => "null"
  | JBool true => "true"
  | JBool false => "false"
  | JNum m e => num_to_string m e
  | JStr s => s
  | JArr xs => join "," (map (fun x => match x with JNull => "" | _ => js_str x end) xs)
  | JObj _ => "[object Object]"
  end.

Definition js_to_string (v : option json) : string :=
  match v with None => "undefined" | Some x => js_str x end.

Fixpoint assoc_get (kvs : list (string * json)) (k : string) : option json :=
  match kvs with
  | [] => None
  | (k', v) :: kvs' => if String.eqb k' k then Some v else assoc_get kvs' k
  end.

(** The property [k] of a value that is neither [null] nor [undefined]:
    an object's own property (no name the program reads is one of
    [Object.prototype]'s), or the [length] of an array or string. *)
Definition js_get (v : json) (k : string) : option json :=
  match v with
  | JObj kvs => assoc_get kvs k
  | JArr xs => if String.eqb k "length" then Some (JInt (Z.of_nat (length xs))) else None
  | JStr s => if String.eqb k "length" then Some (JInt (Z.of_nat (String.length s))) else None
  | _ => None
  end.

(** [v.k]: a [TypeError] on [null] and [undefined]. *)
Definition js_member (v : option json) (k : string) : result (option json) :=
  match v with
  | None => Fail (ErrThrown ("Cannot read properties of undefined (reading '" +:+ k +:+ "')"))
  | Some JNull => Fail (ErrThrown ("Cannot read properties of null (reading '" +:+ k +:+ "')"))
  | Some x => Ok (js_get x k)
  end.

(** [v?.k]. *)
Definition js_opt_member (v : option json) (k : string) : option json :=
  match v with None | Some JNull => None | Some x => js_get x k end.

(** [v === "lit"] and [typeof v === "string"]. *)
Definition js_is_str (v : option json) (s : string) : bool :=
  match v with Some (JStr t) => String.eqb t s | _ => false end.

Definition js_string_of (v : option json) : option string :=
  match v with Some (JStr t) => Some t | _ => None end.

(** [k in v]: a [TypeError] when [v] is not an object. *)
Definition js_in (k : string) (v : json) : result bool :=
  match v with
  | JObj kvs => Ok (bool_decide (is_Some (assoc_get kvs k)))
  | JArr _ => Ok false
  | _ => Fail (ErrThrown ("Cannot use 'in' operator to search for '" +:+ k +:+ "'"))
  end.

(** [for (const x of v)]: arrays yield their elements, strings their
    characters (bytes here); anything else is not iterable. *)
Fixpoint js_chars (s : string) : list json :=
  match s with "" => [] | String c r => JStr (String c "") :: js_chars r end.

Definition js_iter (v : option json) : result (list json) :=
  match v with
  | Some (JArr xs) => Ok xs
  | Some (JStr s) => Ok (js_chars s)
  | _ => Fail (ErrThrown "object is not iterable")
  end.

(** [v.map(f).join(sep)] with [f] a template literal over the element:
    arrays only. *)
Definition js_map_join (f : json -> string) (sep : string) (v : option json) : result string :=
  match v with
  | Some (JArr xs) => Ok (join sep (map f xs))
  | _ => Fail (ErrThrown "map is not a function")
  end.

(** [v.join(sep)]: arrays only; [null] elements print as empty. *)
Definition js_join (sep : string) (v : option json) : result string :=
  match v with
  | Some (JArr xs) => Ok (join sep (map (fun x => match x with JNull => "" | _ => js_str x end) xs))
  | _ => Fail (ErrThrown "join is not a function")
  end.

(** [ToNumber] as far as a comparison needs it: a finite decimal, an
    infinity or [NaN].  A string is trimmed and read as a decimal
    literal in the JSON number syntax with an optional sign, or as
    [Infinity]; the other literals JavaScript also accepts ([.5], [5.],
    [05], [0x1f]) read as [NaN] here. *)
Inductive js_number := NFin (m e : Z) | NPosInf | NNegInf | NNaN.

Definition is_trim_ws (c : ascii) : bool := is_ws c || Ascii.eqb c (chr 11) || Ascii.eqb c (chr 12).

Fixpoint trim_left (s : string) : string :=
  match s with String c r => if is_trim_ws c then trim_left r else s | "" => "" end.

Fixpoint trim_right (s : string) : string :=
  match s with
  | String c r =>
      let r' := trim_right r in
      if String.eqb r' "" && is_trim_ws c then "" else String c r'
  | "" => ""
  end.

Definition trim (s : string) : string := trim_right (trim_left s).

Definition string_to_number (s : string) : js_number :=
  let t := trim s in
  if String.eqb t "" then NFin 0 0
  else if String.eqb t "Infinity" || String.eqb t "+Infinity" then NPosInf
  else if String.eqb t "-Infinity" then NNegInf
  else
    let t' := match t with String c r => if Ascii.eqb c "+" then r else t | "" => t end in
    match parse_number t' with
    | Some (JNum m e, "") => NFin m e
    | _ => NNaN
    end.

Definition js_to_number (v : option json) : js_number :=
  match v with
  | None => NNaN
  | Some JNull => NFin 0 0
  | Some (JBool b) => NFin (if b then 1 else 0) 0
  | Some (JNum m e) => NFin m e
  | Some (JStr s) => string_to_number s
  | Some x => string_to_number (js_str x)
  end.

(** [v > n] for an integer [n]. *)
Definition js_gt (v : option json) (n : Z) : bool :=
  match js_to_number v with
  | NFin m e => if (0 <=? e)%Z then (n <? m * 10 ^ e)%Z else (n * 10 ^ (- e) <? m)%Z
  | NPosInf => true
  | _ => false
  end.

(** ** The text of a number parses to a number

    [String(n)] of a non-zero number starts with a digit or a minus sign,
    so [JSON.parse] reads it, if at all, as a number. *)

Definition num_head (c : ascii) : bool := Ascii.eqb c "-" || is_digit c.

Lemma pretty_N_char_digit x : is_digit (pretty_N_char x) = true.
Proof. unfold pretty_N_char. by repeat case_match. Qed.

Lemma pretty_N_go_head x s :
  (exists d r, s = String d r /\ is_digit d = true) \/ (s = "" /\ (0 < x)%N) ->
  exists d r, pretty_N_go x s = String d r /\ is_digit d = true.
Proof.
  revert s. induction (N.lt_wf_0 x) as [x _ IH]; intros s Hs.
  destruct (decide (x = 0%N)) as [->|Hx].
  - rewrite pretty_N_go_0. destruct Hs as [Hs|[_ ?]]; [done|lia].
  - rewrite pretty_N_go_step by lia. apply IH; [apply N.div_lt; lia|].
    left. eexists _, _. split; [reflexivity|apply pretty_N_char_digit].
Qed.

Lemma pretty_N_head (n : N) : exists d r, pretty n = String d r /\ is_digit d = true.
Proof.
  unfold pretty, pretty_N. case_decide; [by eexists _, _|].
  apply pretty_N_go_head. right. split; [done|lia].
Qed.

Lemma num_to_string_head m e :
  m <> 0%Z -> exists c r, num_to_string m e = String c r /\ num_head c = true.
Proof.
  intros Hm. unfold num_to_string. rewrite (proj2 (Z.eqb_neq _ _) Hm).
  destruct (pretty_N_head (Z.to_N (Z.abs m))) as (d & r & Hs & Hd).
  cbv zeta. rewrite Hs.
  assert (Hb : forall body, (exists r', body = String d r') \/ (exists r', body = String "0"%char r') ->
            exists c r', (if (m <? 0)%Z then "-" +:+ body else body) = String c r' /\ num_head c = true).
  { intros body [[r' ->]|[r' ->]]; destruct (m <? 0)%Z; eexists _, _; split; try reflexivity;
      unfold num_head; rewrite ?Hd, ?orb_true_r; reflexivity. }
  apply Hb. clear Hb.
  set (k := Z.of_nat (String.length (String d r))). set (n := (e + k)%Z).
  destruct ((k <=? n) && (n <=? 21))%Z%bool; [left; by eexists|].
  destruct ((0 <? n) && (n <=? 21))%Z%bool eqn:E.
  - left. apply andb_prop in E as [E _]. apply Z.ltb_lt in E.
    destruct (Z.to_nat n) as [|j] eqn:Ej; [lia|]. by eexists.
  - destruct ((-6 <? n) && (n <=? 0))%Z%bool; [right; by eexists|].
    left. destruct r; by eexists.
Qed.

Lemma num_head_not_special c :
  num_head c = true ->
  is_ws c = false /\ Ascii.eqb "n" c = false /\ Ascii.eqb "t" c = false /\
  Ascii.eqb "f" c = false /\ Ascii.eqb c dq = false /\ Ascii.eqb c "[" = false /\
  Ascii.eqb c "{" = false.
Proof.
  unfold num_head, is_digit, is_ws. intros H.
  assert (Hn : (nat_of_ascii c = 45 \/ 48 <= nat_of_ascii c <= 57)%nat).
  { apply orb_true_iff in H as [H|H].
    - apply Ascii.eqb_eq in H as ->. by left.
    - apply andb_prop in H as [H1 H2]. apply Nat.leb_le in H1, H2. lia. }
  clear H. split_and!;
    repeat match goal with
    | |- (_ || _)%bool = false => apply orb_false_iff; split
    | |- Ascii.eqb _ _ = false =>
        destruct (Ascii.eqb _ _) eqn:Ea; [apply Ascii.eqb_eq in Ea; subst; vm_compute in Hn; lia|done]
    end.
Qed.

Lemma parse_number_num s v r : parse_number s = Some (v, r) -> exists m e, v = JNum m e.
Proof.
  unfold parse_number.
  destruct (match s with String c r => _ | "" => _ end) as [neg s1].
  destruct (match s1 with String c r => _ | "" => _ end) as [intd s2].
  destruct (String.eqb intd ""); [discriminate|].
  destruct (parse_fraction s2) as [[fracd s3]|]; [|discriminate].
  destruct (parse_exponent s3) as [[ex s4]|]; [|discriminate].
  intros [= <- _]. unfold mk_num. destruct (strip_zeros _ _ _). by eexists _, _.
Qed.

(** [JSON.parse(String(n))], for a non-zero number [n], is a number or
    a syntax error. *)
Lemma json_parse_num_to_string m e j :
  m <> 0%Z -> json_parse (num_to_string m e) = Some j -> exists m' e', j = JNum m' e'.
Proof.
  intros Hm. destruct (num_to_string_head m e Hm) as (c & r & Hs & Hc). rewrite Hs.
  destruct (num_head_not_special c Hc) as (Hws & Hn & Ht & Hf & Hq & Hb & Hbr).
  unfold json_parse. cbn [parse_value]. cbn [skip_ws]. rewrite Hws.
  cbn [strip_prefix]. rewrite Hn, Ht, Hf, Hq, Hb, Hbr.
  destruct (parse_number (String c r)) as [[v r']|] eqn:E; [|discriminate].
  destruct (String.eqb (skip_ws r') ""); [|discriminate].
  intros [= <-]. exact (parse_number_num _ _ _ E).
Qed.
