(* ===== verification/Invoker.v ===== *)
(** * The one-shot Codex invoker ([src/src/mcp/identity.ts], fourth
    file: [router/invoker.ts])

    [invokeCodexExec] builds the prompt and the argument array of
    [codex exec --json --full-auto --skip-git-repo-check
    [--output-schema <path>] <prompt>], records an invocation row
    ([pending], then [running]), awaits the child, finalises the row and
    extracts an answer from the child's line-delimited JSON events:
    a structured completion rendered as Markdown, else the last agent
    message, else a summary of the latest reasoning and commands, else
    the raw output cut at 50 000 bytes.

    The child process is the function [execa] of the section: what the
    run resolves to (exit code, the two outputs, the time it took) or
    that it rejected.  The schema directory, computed from the module's
    URL, is the section variable [schemas_dir]. *)

From S2P Require Import Prelude Schema Clients Messages Invocations Json.

Definition ln (s : string) : string := s +:+ nl.

(** ** [buildCodexPrompt] *)

Definition buildCodexPrompt (message : Message) (conversationContext : option string) : string :=
  let head :=
    match conversationContext with
    | Some ctx =>
        if String.eqb ctx "" then ""
        else ln (ln "You are participating in a conversation with Claude Code CLI.") +:+
             ln (ln ("Previous context:" +:+ nl +:+ ctx))
    | None => ""
    end in
  let tail :=
    match msg_type message with
    | mt_research_request =>
        ln "This is a research request. Please investigate this topic and provide your findings." +:+
        ln "IMPORTANT: After your research, you MUST write a final summary as your last action." +:+
        ln "Do not end with just commands or exploration - conclude with a written response."
    | mt_review_request =>
        ln "This is a code review request. Please review the provided code and give detailed feedback." +:+
        ln "IMPORTANT: After your review, you MUST write a final summary with your recommendations."
    | _ =>
        ln "Please respond with your analysis, insights, or answer." +:+
        ln "IMPORTANT: You MUST conclude with a written response summarizing your findings."
    end in
  head +:+ ln (ln "You have received a message from Claude:") +:+
  ln (ln ("---" +:+ nl +:+ msg_content message +:+ nl +:+ "---")) +:+ tail +:+
  nl +:+ "Be efficient - limit exploration to what's necessary, then provide your conclusion.".

(** ** [formatStructuredResponse]

    The parsed output is any JSON value: every property read, iteration
    and method call is JavaScript's, so a value that does not follow the
    schema may throw, which the caller catches. *)

(** [`- ${s}`]. *)
Definition bullet (x : json) : string := "- " +:+ js_str x.

(** [v.toUpperCase()]. *)
Definition js_to_upper (v : option json) : result string :=
  match v with
  | Some (JStr s) => Ok (to_upper s)
  | None => Fail (ErrThrown "Cannot read properties of undefined (reading 'toUpperCase')")
  | Some JNull => Fail (ErrThrown "Cannot read properties of null (reading 'toUpperCase')")
  | Some _ => Fail (ErrThrown "toUpperCase is not a function")
  end.

(** The loop [for (const x of xs) output += f(x)]. *)
Fixpoint concat_map_res (f : json -> result string) (xs : list json) : result string :=
  match xs with
  | [] => Ok ""
  | x :: xs' => let! a := f x in let! b := concat_map_res f xs' in Ok (a +:+ b)
  end.

(** [if (r.k?.length) output += pre + r.k.map(bullet).join(sep) + post]. *)
Definition bullet_section (r : json) (k pre sep post : string) : result string :=
  if js_truthy (js_opt_member (js_get r k) "length") then
    let! b := js_map_join bullet sep (js_get r k) in Ok (pre +:+ b +:+ post)
  else Ok "".

Definition review_issue (issue : json) : result string :=
  let! sev := js_member (Some issue) "severity" in
  Ok ("- **[" +:+ js_to_string sev +:+ "]** " +:+ js_to_string (js_get issue "description") +:+
      (if js_truthy (js_get issue "file") then
         " (" +:+ js_to_string (js_get issue "file") +:+
         (if js_truthy (js_get issue "line") then ":" +:+ js_to_string (js_get issue "line") else "")
         +:+ ")"
       else "") +:+
      (if js_truthy (js_get issue "suggestion") then
         nl +:+ "  - Suggestion: " +:+ js_to_string (js_get issue "suggestion")
       else "") +:+ nl).

Definition format_review (r : json) : result string :=
  let! verdict := js_member (Some r) "verdict" in
  let! up := js_to_upper verdict in
  let out := "## Review: " +:+ up +:+ nl +:+ nl +:+ js_to_string (js_get r "summary") +:+ nl in
  let! strengths := bullet_section r "strengths" (nl +:+ ln "### Strengths") nl nl in
  let! issues :=
    if js_truthy (js_opt_member (js_get r "issues") "length") then
      let! xs := js_iter (js_get r "issues") in
      let! body := concat_map_res review_issue xs in Ok (nl +:+ ln "### Issues" +:+ body)
    else Ok "" in
  let! recs := bullet_section r "recommendations" (nl +:+ ln "### Recommendations") nl nl in
  Ok (out +:+ strengths +:+ issues +:+ recs).

Definition research_finding (finding : json) : result string :=
  let! title := js_member (Some finding) "title" in
  let! refs :=
    if js_truthy (js_opt_member (js_get finding "code_references") "length") then
      let! j := js_join ", " (js_get finding "code_references") in
      Ok (nl +:+ "References: " +:+ j +:+ nl)
    else Ok "" in
  Ok ("### " +:+ js_to_string title +:+ nl +:+ js_to_string (js_get finding "description") +:+ nl +:+
      refs +:+ nl).

Definition research_snippet (snippet : json) : result string :=
  let! file := js_member (Some snippet) "file" in
  let lang := if js_truthy (js_get snippet "language") then js_get snippet "language"
              else Some (JStr "") in
  Ok ((if js_truthy file then "**" +:+ js_to_string file +:+ "**" +:+ nl else "") +:+
      "```" +:+ js_to_string lang +:+ nl +:+ js_to_string (js_get snippet "code") +:+ nl +:+
      "```" +:+ nl +:+
      (if js_truthy (js_get snippet "explanation") then
         js_to_string (js_get snippet "explanation") +:+ nl else "") +:+ nl).

Definition format_research (r : json) : result string :=
  let out := "## Summary" +:+ nl +:+ js_to_string (js_get r "summary") +:+ nl +:+ nl +:+
             "## Findings" +:+ nl in
  let! fs := js_iter (js_get r "findings") in
  let! findings := concat_map_res research_finding fs in
  let! concerns := bullet_section r "concerns" (ln "## Concerns") nl (nl +:+ nl) in
  let! recs := bullet_section r "recommendations" (ln "## Recommendations") nl (nl +:+ nl) in
  let! snippets :=
    if js_truthy (js_opt_member (js_get r "code_snippets") "length") then
      let! xs := js_iter (js_get r "code_snippets") in
      let! body := concat_map_res research_snippet xs in Ok (ln "## Code Examples" +:+ body)
    else Ok "" in
  Ok (out +:+ findings +:+ concerns +:+ recs +:+ snippets).

(** The general branch returns [r.response] itself, whatever it is,
    unless a summary or references rewrite it as a string. *)
Definition format_general (r : json) : result (option json) :=
  let response := js_get r "response" in
  let! long :=
    if js_truthy (js_get r "summary") then
      let! len := js_member response "length" in Ok (js_gt len 500)
    else Ok false in
  let output :=
    if long then
      Some (JStr ("## Summary" +:+ nl +:+ js_to_string (js_get r "summary") +:+ nl +:+ nl +:+
                  "## Details" +:+ nl +:+ js_to_string response))
    else response in
  if js_truthy (js_opt_member (js_get r "references") "length") then
    let! refs := js_map_join bullet nl (js_get r "references") in
    Ok (Some (JStr (js_to_string output +:+ nl +:+ nl +:+ "## References" +:+ nl +:+ refs)))
  else Ok output.

Definition formatStructuredResponse (data : json) : result (option json) :=
  let! is_review := js_in "verdict" data in
  if is_review then let! s := format_review data in Ok (Some (JStr s))
  else
    let! is_research := js_in "findings" data in
    if is_research then let! s := format_research data in Ok (Some (JStr s))
    else format_general data.

(** ** [extractCodexResponse] *)

(** [s.split("\n")]. *)
Fixpoint split_lines (s : string) : list string :=
  match s with
  | "" => [""]
  | String c r =>
      match split_lines r with
      | l :: ls => if Ascii.eqb c (chr 10) then "" :: l :: ls else String c l :: ls
      | [] => [String c ""]
      end
  end.

(** [lines.filter(Boolean)], then [JSON.parse] on each, the lines that
    do not parse skipped. *)
Definition parse_events (stdout : string) : list json :=
  omap json_parse (List.filter (fun l => negb (String.eqb l "")) (split_lines stdout)).

(** [JSON.parse(text)] then [formatStructuredResponse], the raw value
    when either throws. *)
Definition structured_or_raw (text : option json) : option json :=
  match json_parse (js_to_string text) with
  | Some structured =>
      match formatStructuredResponse structured with Ok r => r | Fail _ => text end
  | None => text
  end.

(** Priority 1, over the events newest first: a [response.completed]
    with [response.output_text] or a [turn.completed] with
    [output_text].  [Some r] is a [return r] ([r] may be [undefined]). *)
Fixpoint find_structured (evs : list json) : result (option (option json)) :=
  match evs with
  | [] => Ok None
  | ev :: evs' =>
      let! ty := js_member (Some ev) "type" in
      if js_is_str ty "response.completed" &&
         js_truthy (js_opt_member (js_get ev "response") "output_text")
      then Ok (Some (structured_or_raw (js_opt_member (js_get ev "response") "output_text")))
      else if js_is_str ty "turn.completed" && js_truthy (js_get ev "output_text")
      then Ok (Some (structured_or_raw (js_get ev "output_text")))
      else find_structured evs'
  end.

(** Priority 2, newest first: a completed [agent_message] item with a
    string [text], or a legacy assistant [message] with a string
    [content]. *)
Fixpoint find_agent_message (evs : list json) : result (option string) :=
  match evs with
  | [] => Ok None
  | ev :: evs' =>
      let! ty := js_member (Some ev) "type" in
      match (if js_is_str ty "item.completed" &&
                js_is_str (js_opt_member (js_get ev "item") "type") "agent_message"
             then js_string_of (js_opt_member (js_get ev "item") "text") else None) with
      | Some t => Ok (Some t)
      | None =>
          match (if js_is_str ty "message" && js_is_str (js_get ev "role") "assistant"
                 then js_string_of (js_get ev "content") else None) with
          | Some t => Ok (Some t)
          | None => find_agent_message evs'
          end
      end
  end.

(** [arr.push(x); if (arr.length > n) arr.shift()]. *)
Definition push_keep {A} (n : nat) (l : list A) (x : A) : list A :=
  let l' := l ++ [x] in if (n <? length l')%nat then tail l' else l'.

(** [command.replace(/^\/usr\/bin\/bash -lc /, "")]. *)
Definition js_strip_bash (v : option json) : result string :=
  match v with
  | Some (JStr s) => Ok (default s (strip_prefix "/usr/bin/bash -lc " s))
  | _ => Fail (ErrThrown "event.item.command.replace is not a function")
  end.

(** [output.slice(0, 500)]. *)
Definition js_slice500 (v : json) : result json :=
  match v with
  | JStr s => Ok (JStr (String.substring 0 500 s))
  | JArr xs => Ok (JArr (take 500 xs))
  | _ => Fail (ErrThrown "output.slice is not a function")
  end.

(** [v === 0]. *)
Definition js_is_zero (v : option json) : bool :=
  match v with Some (JNum 0 _) => true | _ => false end.

(** One command of the summary:
    [$ <cmd>\n<first 500 of the output>[...][ (exit: N)]]. *)
Definition command_line (item : option json) : result string :=
  let! cmd := js_strip_bash (js_opt_member item "command") in
  let output := if js_truthy (js_opt_member item "aggregated_output")
                then default (JStr "") (js_opt_member item "aggregated_output") else JStr "" in
  let! sl := js_slice500 output in
  let exitCode := js_opt_member item "exit_code" in
  Ok ("$ " +:+ cmd +:+ nl +:+ js_str sl +:+
      (if js_gt (js_get output "length") 500 then "..." else "") +:+
      (if js_is_zero exitCode then ""
       else " (exit: " +:+ js_to_string exitCode +:+ ")")).

(** Priority 3, oldest first: the last two reasoning texts and the last
    three commands. *)
Fixpoint collect_exploration (evs : list json) (reasoning : list json) (commands : list string)
    : result (list json * list string) :=
  match evs with
  | [] => Ok (reasoning, commands)
  | ev :: evs' =>
      let! ty := js_member (Some ev) "type" in
      let item := js_get ev "item" in
      if js_is_str ty "item.completed" && js_truthy item then
        let reasoning' :=
          if js_is_str (js_opt_member item "type") "reasoning" &&
             js_truthy (js_opt_member item "text")
          then push_keep 2 reasoning (default JNull (js_opt_member item "text")) else reasoning in
        let! commands' :=
          if js_is_str (js_opt_member item "type") "command_execution" &&
             js_truthy (js_opt_member item "command")
          then let! c := command_line item in Ok (push_keep 3 commands c) else Ok commands in
        collect_exploration evs' reasoning' commands'
      else collect_exploration evs' reasoning commands
  end.

Definition exploration_summary (reasoning : list json) (commands : list string) : string :=
  "[Codex exploration - no final answer]" +:+ nl +:+ nl +:+
  (if bool_decide (reasoning = []) then ""
   else "## Latest Reasoning" +:+ nl +:+ join (nl +:+ nl) (map js_str reasoning) +:+ nl +:+ nl) +:+
  (if bool_decide (commands = []) then ""
   else "## Recent Commands" +:+ nl +:+ join (nl +:+ nl) commands).

(** The returned value is the JavaScript value of the [return]
    ([None] is [undefined]); an exception propagates to the caller. *)
Definition extractCodexResponse (stdout : string) : result (option json) :=
  let events := parse_events stdout in
  let! s1 := find_structured (rev events) in
  match s1 with
  | Some r => Ok r
  | None =>
      let! s2 := find_agent_message (rev events) in
      match s2 with
      | Some t => Ok (Some (JStr t))
      | None =>
          let! rc := collect_exploration events [] [] in
          if bool_decide (rc.1 = []) && bool_decide (rc.2 = []) then Ok None
          else Ok (Some (JStr (exploration_summary rc.1 rc.2)))
      end
  end.

(** ** [invokeCodexExec] *)

Definition MAX_RESPONSE_SIZE : N := 50000%N.

(** What [await execa("codex", args, { timeout, reject: false })]
    gives: the resolved result (exit code [undefined] when the child was
    killed), or a rejection; and the milliseconds the await took. *)
Inductive ExecOutcome :=
| ExecResolved (exitCode : option Z) (stdout stderr : string) (timedOut : bool) (elapsed : Z)
| ExecRejected (timedOut : bool) (message : string) (elapsed : Z).

(** [interface InvocationResult]; [response] is the JavaScript value
    the extraction returned ([undefined] as [None]). *)
Record ExecInvocationResult := mkExecInvocationResult {
  eir_id : Uuid;
  eir_success : bool;
  eir_stdout : string;
  eir_stderr : string;
  eir_exitCode : option Z;
  eir_response : option json;
}.

(** The [timeoutMs] and [useOutputSchema] options, defaults 300000 and
    true. *)
Record InvokeCodexOptions := mkInvokeCodexOptions {
  ico_timeoutMs : option Z;
  ico_useOutputSchema : option bool;
}.

Section Invoke.
Variable schemas_dir : string.
Variable execa : list string -> Z -> ExecOutcome.

(** [getSchemaPath]: [join(SCHEMAS_DIR, file)]. *)
Definition getSchemaPath (messageType : MessageType) : string :=
  schemas_dir +:+ "/" +:+
  match messageType with
  | mt_research_request => "research-response.json"
  | mt_review_request => "review-response.json"
  | _ => "general-response.json"
  end.

Definition exec_args (useOutputSchema : bool) (schemaPath prompt : string) : list string :=
  ["exec"; "--json"; "--full-auto"; "--skip-git-repo-check"] ++
  (if useOutputSchema then ["--output-schema"; schemaPath] else []) ++ [prompt].

(** The logged command: everything but the prompt, its length and its
    first 100 bytes. *)
Definition command_info (useOutputSchema : bool) (schemaPath prompt : string) : string :=
  stringify (JObj (
    [("executable", JStr "codex");
     ("args", JArr (map JStr (removelast (exec_args useOutputSchema schemaPath prompt))))] ++
    (if useOutputSchema then [("schemaPath", JStr schemaPath)] else []) ++
    [("promptLength", JInt (Z.of_nat (String.length prompt)));
     ("promptPreview", JStr (String.substring 0 100 prompt +:+
                             if (100 <? String.length prompt)%nat then "..." else ""))])).

Definition set_status (st : InvocationStatus) : InvocationUpdates :=
  mkInvocationUpdates (Some st) None None None None None None.

(** [if (!response && result.stdout)]: the raw output, cut. *)
Definition raw_fallback (response : option json) (stdout : string) : option json :=
  if negb (js_truthy response) && negb (String.eqb stdout "") then
    Some (JStr (if (MAX_RESPONSE_SIZE <? N.of_nat (String.length stdout))%N
                then String.substring 0 (N.to_nat MAX_RESPONSE_SIZE) stdout +:+ nl +:+ nl +:+
                     "[Response truncated - exceeded 50KB]"
                else stdout))
  else response.

(** The [catch] branch: status [timeout] or [failed], the message as
    [stderr]. *)
Definition exec_catch (id : Uuid) (timedOut : bool) (msg : string) : ST Db ExecInvocationResult :=
  do t <- now;
  do _ <- st_modify (fun d => (updateInvocation id
            (mkInvocationUpdates (Some (if timedOut then inv_timeout else inv_failed)) None None
               (Some (Some msg)) None None (Some (Some t))) d).2);
  st_ret (mkExecInvocationResult id false "" msg None None).

(** The [try] block after the await. *)
Definition exec_finish (id : Uuid) (exitCode : option Z) (stdout stderr : string)
    : ST Db ExecInvocationResult :=
  let success := bool_decide (exitCode = Some 0%Z) in
  do t <- now;
  do _ <- st_modify (fun d => (updateInvocation id
            (mkInvocationUpdates (Some (if success then inv_completed else inv_failed)) None
               (Some (Some stdout)) (Some (Some stderr)) (Some exitCode) None (Some (Some t))) d).2);
  match extractCodexResponse stdout with
  | Ok response =>
      st_ret (mkExecInvocationResult id success stdout stderr exitCode (raw_fallback response stdout))
  | Fail (ErrThrown msg) | Fail (ErrSql msg) => exec_catch id false msg
  end.

Definition invokeCodexExec (message : Message) (conversationContext : option string)
    (options : InvokeCodexOptions) : ST Db ExecInvocationResult :=
  let timeoutMs := default 300000%Z (ico_timeoutMs options) in
  let useOutputSchema := default true (ico_useOutputSchema options) in
  let prompt := buildCodexPrompt message conversationContext in
  let schemaPath := getSchemaPath (msg_type message) in
  let args := exec_args useOutputSchema schemaPath prompt in
  do inv <- createInvocation (mkCreateInvocationInput codex (msg_id message) it_codex_exec
                               (Some (command_info useOutputSchema schemaPath prompt)));
  match inv with
  | None => st_fail (ErrThrown "Cannot read properties of null (reading 'id')")
  | Some inv =>
      let id := inv_id inv in
      do t <- now;
      do _ <- st_modify (fun d => (updateInvocation id
                (mkInvocationUpdates (Some inv_running) None None None None (Some (Some t)) None) d).2);
      match execa args timeoutMs with
      | ExecResolved exitCode stdout stderr _ elapsed =>
          do _ <- st_modify (fun d => set_clock (db_clock d + elapsed) d);
          exec_finish id exitCode stdout stderr
      | ExecRejected timedOut msg elapsed =>
          do _ <- st_modify (fun d => set_clock (db_clock d + elapsed) d);
          exec_catch id timedOut msg
      end
  end.
End Invoke.

(** ** The bounded buffers of the exploration summary

    The loop keeps at most two reasoning texts and three commands by
    [push] then [shift].  It computes the last two and the last three of
    the full lists that a loop without the bound would collect. *)

Fixpoint exploration_ref (evs : list json) : result (list json * list string) :=
  match evs with
  | [] => Ok ([], [])
  | ev :: evs' =>
      let! ty := js_member (Some ev) "type" in
      let item := js_get ev "item" in
      if js_is_str ty "item.completed" && js_truthy item then
        let rs :=
          if js_is_str (js_opt_member item "type") "reasoning" &&
             js_truthy (js_opt_member item "text")
          then [default JNull (js_opt_member item "text")] else [] in
        let! cs :=
          if js_is_str (js_opt_member item "type") "command_execution" &&
             js_truthy (js_opt_member item "command")
          then let! c := command_line item in Ok [c] else Ok [] in
        let! rest := exploration_ref evs' in Ok (rs ++ rest.1, cs ++ rest.2)
      else exploration_ref evs'
  end.

Lemma push_keep_lastn {A} n (l : list A) x :
  (length l <= n)%nat -> push_keep n l x = lastn n (l ++ [x]).
Proof.
  intros Hl. unfold push_keep, lastn. rewrite length_app. simpl.
  destruct (Nat.ltb_spec n (length l + 1)) as [Hlt|Hge].
  - replace (length l + 1 - n)%nat with 1%nat by lia.
    by destruct (l ++ [x]).
  - by replace (length l + 1 - n)%nat with 0%nat by lia.
Qed.

Lemma push_keep_length {A} n (l : list A) x :
  (length l <= n)%nat -> (length (push_keep n l x) <= n)%nat.
Proof. intros Hl. rewrite push_keep_lastn by done. apply lastn_length. Qed.

Lemma lastn_push {A} n (l : list A) x m :
  (length l <= n)%nat -> lastn n (push_keep n l x ++ m) = lastn n (l ++ x :: m).
Proof.
  intros Hl. rewrite push_keep_lastn, lastn_app_lastn by done.
  by rewrite <- app_assoc.
Qed.

Lemma collect_exploration_ref evs r c :
  (length r <= 2)%nat -> (length c <= 3)%nat ->
  collect_exploration evs r c =
  (let! rc := exploration_ref evs in Ok (lastn 2 (r ++ rc.1), lastn 3 (c ++ rc.2))).
Proof.
  revert r c. induction evs as [|ev evs IH]; intros r c Hr Hc;
    cbn [collect_exploration exploration_ref].
  { cbn [res_bind fst snd]. by rewrite !app_nil_r, !lastn_small by done. }
  destruct (js_member (Some ev) "type") as [ty|e]; cbn [res_bind]; [|done].
  destruct (js_is_str ty "item.completed" && js_truthy (js_get ev "item")); [|by apply IH].
  set (item := js_get ev "item").
  destruct (js_is_str (js_opt_member item "type") "reasoning" && js_truthy (js_opt_member item "text"));
  destruct (js_is_str (js_opt_member item "type") "command_execution" &&
            js_truthy (js_opt_member item "command")); cbn [res_bind];
  try (destruct (command_line item) as [cl|e]; cbn [res_bind]; [|done]);
  rewrite IH by (try apply push_keep_length; done);
  destruct (exploration_ref evs) as [[R C]|e]; cbn [res_bind fst snd app]; try done;
  rewrite ?lastn_push by done; done.
Qed.

(** C17: Equivalence of the bounded buffers with the reference: the
    exploration loop, with its [push]/[shift] buffers, returns exactly
    the last two reasoning texts and the last three command lines of the
    full lists, and throws exactly when the reference does. *)
Theorem collect_exploration_equiv evs :
  collect_exploration evs [] [] =
  (let! rc := exploration_ref evs in Ok (lastn 2 rc.1, lastn 3 rc.2)).
Proof. rewrite collect_exploration_ref by (simpl; lia). reflexivity. Qed.

(** ** The invoker keeps the frame of [CodexTiers.exec_invoke]

    The dispatcher's interface [CodexTiers] asks of the exec tier that
    it leave the clients, conversations, messages, queue and shared
    context alone and not move the UUID supply back.  [exec_frame_rel]
    is that law, with the two invariants kept; it is a preorder and
    every step of [invokeCodexExec] satisfies it. *)

Definition exec_frame_rel (d d' : Db) : Prop :=
  db_clients d' = db_clients d /\ db_conversations d' = db_conversations d /\
  db_messages d' = db_messages d /\ db_queue d' = db_queue d /\
  db_context d' = db_context d /\ (db_uuid d <= db_uuid d')%N /\
  (inv_wf d -> inv_wf d') /\ (db_wf d -> db_wf d').

Lemma exec_frame_refl d : exec_frame_rel d d.
Proof. unfold exec_frame_rel. split_and!; auto; lia. Qed.

Lemma exec_frame_trans d1 d2 d3 :
  exec_frame_rel d1 d2 -> exec_frame_rel d2 d3 -> exec_frame_rel d1 d3.
Proof.
  intros (A1 & B1 & C1 & D1 & E1 & F1 & G1 & H1) (A2 & B2 & C2 & D2 & E2 & F2 & G2 & H2).
  split_and!; try congruence; auto. lia.
Qed.

Lemma exec_frame_update id u d : exec_frame_rel d (updateInvocation id u d).2.
Proof.
  destruct (updateInvocation_tables id u d) as (E1 & E2 & E3 & E4 & E5 & _ & E7).
  split_and!; try done; [rewrite E7; lia|apply updateInvocation_inv_wf|apply updateInvocation_db_wf].
Qed.

Lemma exec_frame_of d d' :
  db_clients d' = db_clients d -> db_conversations d' = db_conversations d ->
  db_messages d' = db_messages d -> db_queue d' = db_queue d -> db_context d' = db_context d ->
  db_invocations d' = db_invocations d -> db_uuid d' = db_uuid d -> exec_frame_rel d d'.
Proof.
  intros E1 E2 E3 E4 E5 E6 E7. unfold exec_frame_rel.
  split_and!; try done; [rewrite E7; lia| |].
  - apply inv_wf_frame; [done| |rewrite E7; lia]. intros id. unfold getMessage. by rewrite E3.
  - intros Hw. eapply db_wf_frame; [exact Hw|..]; try done. rewrite E7. lia.
Qed.

Lemma exec_frame_clock t d : exec_frame_rel d (set_clock t d).
Proof. by apply exec_frame_of. Qed.

Lemma exec_frame_create input : st_rel exec_frame_rel (createInvocation input).
Proof.
  intros d a d' H. unfold createInvocation, st_bind, randomUUID, now in H.
  cbn -[invocation_fks_ok getInvocation] in H.
  destruct (bool_decide _) eqn:Eu in H; [done|].
  destruct (negb (invocation_fks_ok _ input)) eqn:Ef; [done|].
  injection H as _ <-. apply negb_false_iff in Ef.
  split_and!; simpl; try done; [lia| |].
  - intros Hw. apply (inv_wf_create d input Hw). exact Ef.
  - intros Hw. eapply db_wf_frame; [exact Hw|..]; simpl; try done. lia.
Qed.

Lemma exec_frame_now : st_rel exec_frame_rel now.
Proof. intros d a d' H. injection H as _ <-. apply exec_frame_refl. Qed.

(** One step of a frame proof: split a bind, close a return, a read of
    the clock, a store update or an invocation write. *)
Ltac frame_step :=
  first [ apply (st_rel_bind exec_frame_rel exec_frame_trans); [|intros ?]
        | apply (st_rel_ret exec_frame_rel exec_frame_refl)
        | apply (st_rel_fail exec_frame_rel)
        | apply exec_frame_now
        | apply exec_frame_create
        | apply (st_rel_modify exec_frame_rel); intros ?;
          first [apply exec_frame_update | apply exec_frame_clock] ].

Lemma exec_frame_catch id timedOut msg : st_rel exec_frame_rel (exec_catch id timedOut msg).
Proof. unfold exec_catch. repeat frame_step. Qed.

Lemma exec_frame_finish id exitCode stdout stderr :
  st_rel exec_frame_rel (exec_finish id exitCode stdout stderr).
Proof.
  unfold exec_finish. cbv zeta. repeat frame_step.
  destruct (extractCodexResponse stdout) as [r|[msg|msg]]; repeat frame_step; apply exec_frame_catch.
Qed.

Lemma invokeCodexExec_rel sd ex message ctx opts :
  st_rel exec_frame_rel (invokeCodexExec sd ex message ctx opts).
Proof.
  unfold invokeCodexExec. cbv zeta. frame_step; [apply exec_frame_create|].
  destruct a as [inv|]; [|frame_step].
  repeat frame_step.
  destruct (ex _ _); apply (st_rel_bind exec_frame_rel exec_frame_trans);
    try (apply (st_rel_modify exec_frame_rel); intros ?; apply exec_frame_clock);
    intros _; repeat case_match; first [apply exec_frame_finish|apply exec_frame_catch].
Qed.

(** C18: Refinement of the exec tier's interface: whatever the child
    process does, a successful [invokeCodexExec] leaves the clients,
    conversations, messages, queue and shared context as they were, does
    not move the UUID supply back, and keeps the store and invocation
    invariants: the law [exec_frame] that the dispatcher's [CodexTiers]
    interface assumes of its exec tier. *)
Theorem invokeCodexExec_frame sd ex message ctx opts d res d' :
  invokeCodexExec sd ex message ctx opts d = Ok (res, d') ->
  db_clients d' = db_clients d /\ db_conversations d' = db_conversations d /\
  db_messages d' = db_messages d /\ db_queue d' = db_queue d /\
  db_context d' = db_context d /\ (db_uuid d <= db_uuid d')%N /\
  (inv_wf d -> inv_wf d') /\ (db_wf d -> db_wf d').
Proof. apply invokeCodexExec_rel. Qed.

(** ** How the invocation row ends *)

Lemma getInvocation_set_clock d t id : getInvocation (set_clock t d) id = getInvocation d id.
Proof. done. Qed.

#[local] Opaque updateInvocation.

Lemma exec_catch_row id timedOut msg d res d' i :
  getInvocation d id = Some i -> exec_catch id timedOut msg d = Ok (res, d') ->
  eir_id res = id /\ eir_success res = false /\
  exists i', getInvocation d' id = Some i' /\
             inv_status i' = (if timedOut then inv_timeout else inv_failed).
Proof.
  intros Hi H. unfold exec_catch, st_bind, now, st_modify, st_ret in H.
  injection H as <- <-. split; [done|split; [done|]].
  rewrite updateInvocation_self, Hi. by eexists.
Qed.

Lemma exec_finish_row id exitCode stdout stderr d res d' i :
  getInvocation d id = Some i -> exec_finish id exitCode stdout stderr d = Ok (res, d') ->
  eir_id res = id /\ (eir_success res = true -> exitCode = Some 0%Z) /\
  exists i', getInvocation d' id = Some i' /\
             inv_status i' = (if eir_success res then inv_completed else inv_failed).
Proof.
  intros Hi H. unfold exec_finish in H. cbv zeta in H.
  unfold st_bind at 1, now in H. unfold st_bind at 1, st_modify in H.
  set (d2 := (updateInvocation id _ d).2) in H.
  assert (Hi2 : exists i2, getInvocation d2 id = Some i2 /\
                inv_status i2 = (if bool_decide (exitCode = Some 0%Z) then inv_completed
                                 else inv_failed)).
  { unfold d2. rewrite updateInvocation_self, Hi. by eexists. }
  destruct (extractCodexResponse stdout) as [r|[msg|msg]].
  - injection H as <- <-. simpl. split; [done|split; [by intros ?%bool_decide_eq_true|exact Hi2]].
  - destruct Hi2 as (i2 & Hi2 & _). destruct (exec_catch_row _ _ _ _ _ _ _ Hi2 H) as (-> & -> & Hr).
    split; [done|split; [done|exact Hr]].
  - destruct Hi2 as (i2 & Hi2 & _). destruct (exec_catch_row _ _ _ _ _ _ _ Hi2 H) as (-> & -> & Hr).
    split; [done|split; [done|exact Hr]].
Qed.

Lemma createInvocation_Some input d a d' :
  inv_wf d -> createInvocation input d = Ok (a, d') ->
  exists i, a = Some i /\ getInvocation d' (inv_id i) = Some i.
Proof.
  intros Hw H. rewrite createInvocation_unfold in H by done.
  destruct (negb (invocation_fks_ok d input)); [done|]. injection H as <- <-.
  eexists. split; [apply getInvocation_created; exact Hw|]. by apply getInvocation_created.
Qed.

(** C19: Divergence on timeouts: [execa] is called with
    [reject: false], so every run resolves, a killed run included; then
    the row always ends [completed] (when the call succeeded, which
    needs exit code 0) or [failed], and never [timeout] although the
    spec says a run past its deadline is marked [timeout]. *)
Theorem invokeCodexExec_never_timeout sd ex message ctx opts d res d' :
  (forall args t, exists code out err timedOut elapsed,
     ex args t = ExecResolved code out err timedOut elapsed) ->
  inv_wf d -> invokeCodexExec sd ex message ctx opts d = Ok (res, d') ->
  (eir_success res = true -> eir_exitCode res = Some 0%Z) /\
  exists i, getInvocation d' (eir_id res) = Some i /\
            inv_status i = (if eir_success res then inv_completed else inv_failed).
Proof.
  intros Hres Hw H. unfold invokeCodexExec in H. cbv zeta in H.
  destruct (st_bind_inv _ _ _ _ _ H) as (a & d1 & Hc & Hk). clear H.
  destruct (createInvocation_Some _ _ _ _ Hw Hc) as (i0 & -> & Hi0).
  unfold st_bind at 1, now in Hk. unfold st_bind at 1, st_modify in Hk.
  set (d2 := (updateInvocation (inv_id i0) _ d1).2) in Hk.
  assert (Hi2 : is_Some (getInvocation d2 (inv_id i0))).
  { unfold d2. rewrite updateInvocation_self, Hi0. by eexists. }
  destruct Hi2 as [i2 Hi2].
  destruct (Hres (exec_args (default true (ico_useOutputSchema opts))
                    (getSchemaPath sd (msg_type message)) (buildCodexPrompt message ctx))
                 (default 300000%Z (ico_timeoutMs opts))) as (code & out & err & to & el & Eex).
  rewrite Eex in Hk. unfold st_bind at 1, st_modify in Hk.
  rewrite <- (getInvocation_set_clock d2 (db_clock d2 + el)) in Hi2.
  destruct (exec_finish_row _ _ _ _ _ _ _ _ Hi2 Hk) as (Hid & Hsucc & Hrow).
  rewrite Hid. split; [|exact Hrow].
  intros Hs. specialize (Hsucc Hs). unfold exec_finish in Hk. cbv zeta in Hk.
  unfold st_bind, now, st_modify in Hk.
  destruct (extractCodexResponse out) as [r|[msg|msg]];
    [injection Hk as <- _; done|
     unfold exec_catch, st_bind, now, st_modify, st_ret in Hk; injection Hk as <- _; done..].
Qed.

(** ** A resolved child, and extraction over classes of event streams *)

Definition row_status (d : Db) (id : Uuid) : option (InvocationStatus * option Z) :=
  (fun i => (inv_status i, inv_exit_code i)) <$> getInvocation d id.

(** With a resolving child, the call's result is the extraction's
    outcome (the caught exception as [stderr] when it throws), and the
    row records the exit code, [completed] or [failed]. *)
Lemma invokeCodexExec_resolved sd ex message ctx opts d code out err to el :
  db_wf d -> inv_wf d -> is_Some (getMessage d (msg_id message)) ->
  (forall args t, ex args t = ExecResolved code out err to el) ->
  exists d', invokeCodexExec sd ex message ctx opts d =
    Ok (match extractCodexResponse out with
        | Ok r => mkExecInvocationResult (db_uuid d) (bool_decide (code = Some 0%Z)) out err code
                    (raw_fallback r out)
        | Fail (ErrThrown msg) | Fail (ErrSql msg) =>
            mkExecInvocationResult (db_uuid d) false "" msg None None
        end, d') /\
    row_status d' (db_uuid d) =
      Some (match extractCodexResponse out with
            | Ok _ => if bool_decide (code = Some 0%Z) then inv_completed else inv_failed
            | Fail _ => inv_failed
            end, code).
Proof.
  intros Hw Hiw Hm Hex.
  assert (Hfk : forall cmd, invocation_fks_ok d
                  (mkCreateInvocationInput codex (msg_id message) it_codex_exec cmd) = true).
  { intros cmd. destruct (clients_ok_getClient d codex (wf_clients _ Hw)) as (c & Hc & _).
    unfold invocation_fks_ok. simpl. rewrite Hc. by rewrite !bool_decide_true. }
  unfold invokeCodexExec. cbv zeta. unfold st_bind at 1.
  rewrite createInvocation_unfold, Hfk by done. cbn [negb].
  rewrite getInvocation_created by done.
  unfold st_bind, now, st_modify. cbn [inv_id new_invocation_row]. rewrite Hex.
  unfold exec_finish, exec_catch, st_bind, now, st_modify, st_ret, row_status.
  destruct (extractCodexResponse out) as [r|[msg|msg]]; eexists; (split; [reflexivity|]);
    rewrite ?updateInvocation_self, ?getInvocation_set_clock, ?updateInvocation_self,
      ?getInvocation_created by done; reflexivity.
Qed.

(** C32: For any resolving child and a message of the store,
    [invokeCodexExec] succeeds with the fresh invocation id: its result
    is the extraction's answer (through the raw-output fallback) with
    [success] exactly when the exit code is 0, or, when the extraction
    throws, no response and the exception as [stderr]; the row records
    the exit code and ends [completed] or [failed] accordingly. *)
Theorem invokeCodexExec_resolved_spec sd ex message ctx opts d code out err to el :
  db_wf d -> inv_wf d -> is_Some (getMessage d (msg_id message)) ->
  (forall args t, ex args t = ExecResolved code out err to el) ->
  exists d', invokeCodexExec sd ex message ctx opts d =
    Ok (match extractCodexResponse out with
        | Ok r => mkExecInvocationResult (db_uuid d) (bool_decide (code = Some 0%Z)) out err code
                    (raw_fallback r out)
        | Fail (ErrThrown msg) | Fail (ErrSql msg) =>
            mkExecInvocationResult (db_uuid d) false "" msg None None
        end, d') /\
    row_status d' (db_uuid d) =
      Some (match extractCodexResponse out with
            | Ok _ => if bool_decide (code = Some 0%Z) then inv_completed else inv_failed
            | Fail _ => inv_failed
            end, code).
Proof. exact (invokeCodexExec_resolved sd ex message ctx opts d code out err to el). Qed.

(** An event the newest-first scans step over: not [null] (its [type]
    can be read) and not a structured completion. *)
Definition no_completion (ev : json) : Prop :=
  ev <> JNull /\ js_get ev "type" <> Some (JStr "response.completed") /\
  js_get ev "type" <> Some (JStr "turn.completed").

Lemma js_is_str_true v s : js_is_str v s = true -> v = Some (JStr s).
Proof.
  destruct v as [j|]; [destruct j|]; simpl; try discriminate.
  intros H. apply String.eqb_eq in H. by subst.
Qed.

Lemma js_member_some ev k : ev <> JNull -> js_member (Some ev) k = Ok (js_get ev k).
Proof. destruct ev; done. Qed.

Lemma find_structured_app l1 l2 :
  Forall no_completion l1 -> find_structured (l1 ++ l2) = find_structured l2.
Proof.
  induction 1 as [|ev l1 (Hn & H1 & H2) _ IH]; [done|]. cbn [app find_structured].
  rewrite js_member_some by done. cbn [res_bind].
  destruct (js_is_str (js_get ev "type") "response.completed") eqn:E1;
    [by apply js_is_str_true in E1|].
  destruct (js_is_str (js_get ev "type") "turn.completed") eqn:E2;
    [by apply js_is_str_true in E2|].
  exact IH.
Qed.

Lemma find_structured_skip l : Forall no_completion l -> find_structured l = Ok None.
Proof. intros H. rewrite <- (app_nil_r l), find_structured_app by done. done. Qed.

Lemma parse_events_nonempty out : parse_events out <> [] -> out <> "".
Proof. by intros H ->. Qed.

(** C20: A line of the child's output that parses to [null], with no
    structured completion after it, makes the newest-first scan of
    [extractCodexResponse] read [null.type]: whatever else the output
    holds, an answer included, and whatever the exit code, the call
    returns no response, [success] false and the [TypeError] as
    [stderr], and the row ends [failed] with the child's exit code. *)
Theorem null_event_line_loses_answer sd ex message ctx opts d code out err to el pre post :
  db_wf d -> inv_wf d -> is_Some (getMessage d (msg_id message)) ->
  (forall args t, ex args t = ExecResolved code out err to el) ->
  parse_events out = pre ++ JNull :: post -> Forall no_completion post ->
  exists d', invokeCodexExec sd ex message ctx opts d =
      Ok (mkExecInvocationResult (db_uuid d) false ""
            "Cannot read properties of null (reading 'type')" None None, d') /\
    row_status d' (db_uuid d) = Some (inv_failed, code).
Proof.
  intros Hw Hiw Hm Hex Hev Hpost.
  assert (Hx : extractCodexResponse out =
               Fail (ErrThrown "Cannot read properties of null (reading 'type')")).
  { unfold extractCodexResponse. rewrite Hev, rev_app_distr. cbn [rev].
    rewrite <- app_assoc, find_structured_app by by apply Forall_rev. reflexivity. }
  destruct (invokeCodexExec_resolved sd ex message ctx opts d code out err to el Hw Hiw Hm Hex)
    as (d' & E & Hr).
  rewrite Hx in E, Hr. by exists d'.
Qed.

(** The completed [agent_message] item with text [t]. *)
Definition agent_message_json (t : string) : json :=
  JObj [("type", JStr "item.completed");
        ("item", JObj [("type", JStr "agent_message"); ("text", JStr t)])].

(** C21: When the newest event is a completed agent message and no
    older one is [null] or a structured completion, its text, whatever
    it is, is the extraction's answer; the call returns it, except that
    an empty text, which the spec rejects for the exploration summary,
    fails the caller's [!response] test and the raw event stream is
    returned instead. *)
Theorem newest_agent_message_is_answer sd ex message ctx opts d code out err to el pre t :
  db_wf d -> inv_wf d -> is_Some (getMessage d (msg_id message)) ->
  (forall args t, ex args t = ExecResolved code out err to el) ->
  parse_events out = pre ++ [agent_message_json t] -> Forall no_completion pre ->
  (N.of_nat (String.length out) <= MAX_RESPONSE_SIZE)%N ->
  extractCodexResponse out = Ok (Some (JStr t)) /\
  exists d', invokeCodexExec sd ex message ctx opts d =
    Ok (mkExecInvocationResult (db_uuid d) (bool_decide (code = Some 0%Z)) out err code
          (Some (JStr (if String.eqb t "" then out else t))), d').
Proof.
  intros Hw Hiw Hm Hex Hev Hpre Hlen.
  assert (Hx : extractCodexResponse out = Ok (Some (JStr t))).
  { unfold extractCodexResponse. rewrite Hev, rev_app_distr. cbn [rev app].
    change (agent_message_json t :: rev pre) with ([agent_message_json t] ++ rev pre).
    rewrite (find_structured_app [agent_message_json t]).
    2:{ repeat constructor; discriminate. }
    rewrite find_structured_skip by by apply Forall_rev. reflexivity. }
  split; [done|].
  destruct (invokeCodexExec_resolved sd ex message ctx opts d code out err to el Hw Hiw Hm Hex)
    as (d' & E & _).
  rewrite Hx in E. exists d'. rewrite E. do 3 f_equal. unfold raw_fallback.
  assert (Hne : out <> "") by (apply parse_events_nonempty; rewrite Hev; by destruct pre).
  destruct (String.eqb_spec t "") as [->|Ht]; simpl.
  - rewrite (proj2 (String.eqb_neq _ _) Hne). simpl.
    replace (MAX_RESPONSE_SIZE <? N.of_nat (String.length out))%N with false; [done|].
    symmetry. by apply N.ltb_ge.
  - by rewrite (proj2 (String.eqb_neq _ _) Ht).
Qed.

(** The structured completion with [output_text] [v]. *)
Definition completion_json (v : json) : json :=
  JObj [("type", JStr "response.completed"); ("response", JObj [("output_text", v)])].

Lemma find_structured_completion v l :
  js_truthy (Some v) = true ->
  find_structured (completion_json v :: l) = Ok (Some (structured_or_raw (Some v))).
Proof. intros H. unfold completion_json. cbn -[js_truthy structured_or_raw]. by rewrite H. Qed.

(** C22: [InvocationResult.response] is typed [string], but when the
    newest event is a structured completion whose [output_text] is a
    non-zero number, the number's text parses to a number,
    [formatStructuredResponse] throws on it, and the catch returns the
    number itself: the call returns a number as its response. *)
Theorem non_string_output_text_is_returned sd ex message ctx opts d code out err to el pre m e :
  db_wf d -> inv_wf d -> is_Some (getMessage d (msg_id message)) ->
  (forall args t, ex args t = ExecResolved code out err to el) ->
  parse_events out = pre ++ [completion_json (JNum m e)] -> m <> 0%Z ->
  extractCodexResponse out = Ok (Some (JNum m e)) /\
  exists d', invokeCodexExec sd ex message ctx opts d =
    Ok (mkExecInvocationResult (db_uuid d) (bool_decide (code = Some 0%Z)) out err code
          (Some (JNum m e)), d').
Proof.
  intros Hw Hiw Hm Hex Hev Hm0.
  assert (Hx : extractCodexResponse out = Ok (Some (JNum m e))).
  { unfold extractCodexResponse. rewrite Hev, rev_app_distr. cbn [rev app].
    rewrite find_structured_completion by (unfold js_truthy; by rewrite (proj2 (Z.eqb_neq _ _) Hm0)).
    cbn [res_bind].
    unfold structured_or_raw. cbn [js_to_string js_str].
    destruct (json_parse (num_to_string m e)) as [j|] eqn:Ej; [|done].
    destruct (json_parse_num_to_string m e j Hm0 Ej) as (m' & e' & ->). done. }
  split; [done|].
  destruct (invokeCodexExec_resolved sd ex message ctx opts d code out err to el Hw Hiw Hm Hex)
    as (d' & E & _).
  rewrite Hx in E. exists d'. rewrite E. unfold raw_fallback, js_truthy.
  by rewrite (proj2 (Z.eqb_neq _ _) Hm0).
Qed.

(** ** Concrete runs *)

Definition demo_opts : InvokeCodexOptions := mkInvokeCodexOptions None None.

(** A child that resolves with exit code [code] and output [out] after
    one second. *)
Definition child (code : option Z) (out : string) : list string -> Z -> ExecOutcome :=
  fun _ _ => ExecResolved code out "" false 1000.

Definition agent_event (text : string) : string := stringify (agent_message_json text).

Definition reasoning_json (text : string) : json :=
  JObj [("type", JStr "item.completed");
        ("item", JObj [("type", JStr "reasoning"); ("text", JStr text)])].

Lemma invokeCodexExec_resolved_spec_witness :
  exists d', invokeCodexExec "/schemas" (child (Some 0%Z) (agent_event "Fixed.")) msg_demo2 None
               demo_opts demo_db =
    Ok (match extractCodexResponse (agent_event "Fixed.") with
        | Ok r => mkExecInvocationResult (db_uuid demo_db) (bool_decide (Some 0%Z = Some 0%Z))
                    (agent_event "Fixed.") "" (Some 0%Z) (raw_fallback r (agent_event "Fixed."))
        | Fail (ErrThrown msg) | Fail (ErrSql msg) =>
            mkExecInvocationResult (db_uuid demo_db) false "" msg None None
        end, d') /\
    row_status d' (db_uuid demo_db) =
      Some (match extractCodexResponse (agent_event "Fixed.") with
            | Ok _ => if bool_decide (Some 0%Z = Some 0%Z) then inv_completed else inv_failed
            | Fail _ => inv_failed
            end, Some 0%Z).
Proof.
  apply (invokeCodexExec_resolved_spec "/schemas" (child (Some 0%Z) (agent_event "Fixed."))
           msg_demo2 None demo_opts demo_db (Some 0%Z) (agent_event "Fixed.") "" false 1000).
  - apply demo_db_wf.
  - apply demo_db_inv_wf.
  - vm_compute. by eexists.
  - reflexivity.
Defined.

(** A [null] line, then the answer. *)
Definition null_then_answer : string := "null" +:+ nl +:+ agent_event "Fixed.".

Lemma null_event_line_loses_answer_witness :
  exists d', invokeCodexExec "/schemas" (child (Some 0%Z) null_then_answer) msg_demo2 None
               demo_opts demo_db =
      Ok (mkExecInvocationResult (db_uuid demo_db) false ""
            "Cannot read properties of null (reading 'type')" None None, d') /\
    row_status d' (db_uuid demo_db) = Some (inv_failed, Some 0%Z).
Proof.
  apply (null_event_line_loses_answer "/schemas" (child (Some 0%Z) null_then_answer) msg_demo2
           None demo_opts demo_db (Some 0%Z) null_then_answer "" false 1000 []
           [agent_message_json "Fixed."]).
  - apply demo_db_wf.
  - apply demo_db_inv_wf.
  - vm_compute. by eexists.
  - reflexivity.
  - vm_compute. reflexivity.
  - repeat constructor; discriminate.
Defined.

(** Reasoning, then an empty agent message. *)
Definition empty_answer_stream : string :=
  stringify (reasoning_json "Looked at parse.ts") +:+ nl +:+ agent_event "".

Lemma newest_agent_message_is_answer_witness :
  extractCodexResponse empty_answer_stream = Ok (Some (JStr "")) /\
  exists d', invokeCodexExec "/schemas" (child (Some 0%Z) empty_answer_stream) msg_demo2 None
               demo_opts demo_db =
    Ok (mkExecInvocationResult (db_uuid demo_db) (bool_decide (Some 0%Z = Some 0%Z))
          empty_answer_stream "" (Some 0%Z)
          (Some (JStr (if String.eqb "" "" then empty_answer_stream else ""))), d').
Proof.
  apply (newest_agent_message_is_answer "/schemas" (child (Some 0%Z) empty_answer_stream)
           msg_demo2 None demo_opts demo_db (Some 0%Z) empty_answer_stream "" false 1000
           [reasoning_json "Looked at parse.ts"] "").
  - apply demo_db_wf.
  - apply demo_db_inv_wf.
  - vm_compute. by eexists.
  - reflexivity.
  - vm_compute. reflexivity.
  - repeat constructor; discriminate.
  - vm_compute. discriminate.
Defined.

(** A structured completion whose [output_text] is the number 5. *)
Definition number_completion : string := stringify (completion_json (JNum 5 0)).

Lemma non_string_output_text_is_returned_witness :
  extractCodexResponse number_completion = Ok (Some (JNum 5 0)) /\
  exists d', invokeCodexExec "/schemas" (child (Some 0%Z) number_completion) msg_demo2 None
               demo_opts demo_db =
    Ok (mkExecInvocationResult (db_uuid demo_db) (bool_decide (Some 0%Z = Some 0%Z))
          number_completion "" (Some 0%Z) (Some (JNum 5 0)), d').
Proof.
  apply (non_string_output_text_is_returned "/schemas" (child (Some 0%Z) number_completion)
           msg_demo2 None demo_opts demo_db (Some 0%Z) number_completion "" false 1000 [] 5 0).
  - apply demo_db_wf.
  - apply demo_db_inv_wf.
  - vm_compute. by eexists.
  - reflexivity.
  - vm_compute. reflexivity.
  - discriminate.
Defined.

(** A child killed at its deadline: no exit code, [timedOut] set. *)
Definition killed_child : list string -> Z -> ExecOutcome :=
  fun _ t => ExecResolved None "" "Command timed out" true t.

Lemma invokeCodexExec_frame_witness :
  exists res d', invokeCodexExec "/schemas" (child (Some 0%Z) (agent_event "Fixed."))
                   msg_demo2 None demo_opts demo_db = Ok (res, d') /\
    db_clients d' = db_clients demo_db /\ db_conversations d' = db_conversations demo_db /\
    db_messages d' = db_messages demo_db /\ db_queue d' = db_queue demo_db /\
    db_context d' = db_context demo_db /\ (db_uuid demo_db <= db_uuid d')%N /\
    (inv_wf demo_db -> inv_wf d') /\ (db_wf demo_db -> db_wf d').
Proof.
  destruct (invokeCodexExec "/schemas" (child (Some 0%Z) (agent_event "Fixed."))
              msg_demo2 None demo_opts demo_db) as [[res d']|e] eqn:E;
    [|vm_compute in E; discriminate].
  exists res, d'. split; [reflexivity|]. exact (invokeCodexExec_frame _ _ _ _ _ _ _ _ E).
Defined.

Lemma invokeCodexExec_never_timeout_witness :
  exists res d', invokeCodexExec "/schemas" killed_child msg_demo2 None demo_opts demo_db =
                 Ok (res, d') /\
    (eir_success res = true -> eir_exitCode res = Some 0%Z) /\
    exists i, getInvocation d' (eir_id res) = Some i /\
              inv_status i = (if eir_success res then inv_completed else inv_failed).
Proof.
  destruct (invokeCodexExec "/schemas" killed_child msg_demo2 None demo_opts demo_db)
    as [[res d']|e] eqn:E; [|vm_compute in E; discriminate].
  exists res, d'. split; [reflexivity|].
  apply (invokeCodexExec_never_timeout _ _ _ _ _ _ _ _ (fun args t => ex_intro _ None
           (ex_intro _ "" (ex_intro _ "Command timed out" (ex_intro _ true (ex_intro _ t eq_refl)))))
           demo_db_inv_wf E).
Defined.
