(* ===== verification/MessageQueue.v ===== *)
(** * The delivery queue ([src/src/db/message_queue.ts])

    Rows of [message_queue] wait for an offline target.  [enqueueMessage]
    inserts one (the UNIQUE [message_id] and the foreign keys of the
    schema apply; the INTEGER PRIMARY KEY takes the largest rowid plus
    one, as SQLite assigns it); [dequeueMessages] reads the ready rows of
    a target by priority then due time; [incrementAttempts] counts a
    failed attempt and pushes the due time by the backoff delay;
    [removeFromQueue] and [clearExhaustedMessages] delete rows. *)

From S2P Require Import Prelude Schema Clients Messages.

(** The largest rowid of the table (0 when it is empty). *)
Definition max_rowid (q : list QueuedMessage) : N :=
  foldr (fun r acc => N.max (q_id r) acc) 0%N q.

(** [enqueueMessage]: [INSERT INTO message_queue (message_id, target,
    priority, max_attempts)] with the defaults [priority ?? 0] and
    [max_attempts ?? 3]; [attempts] 0 and both timestamps [now]. *)
Definition enqueueMessage (message_id : Uuid) (target : ClientId)
    (priority max_attempts : option Z) : ST Db QueuedMessage :=
  do t <- now;
  fun d =>
    if bool_decide (message_id ∈ q_message_id <$> db_queue d)
    then Fail (ErrSql "UNIQUE constraint failed: message_queue.message_id")
    else if negb (bool_decide (is_Some (getMessage d message_id)) &&
                  bool_decide (is_Some (getClient d target)))
    then Fail (ErrSql "FOREIGN KEY constraint failed")
    else
      let row := mkQueuedMessage (max_rowid (db_queue d) + 1) message_id target
                   (match priority with Some p => p | None => 0 end) 0
                   (match max_attempts with Some m => m | None => 3 end) t t in
      Ok (row, set_queue (db_queue d ++ [row]) d).

(** [getQueuedMessage]. *)
Definition getQueuedMessage (d : Db) (messageId : Uuid) : option QueuedMessage :=
  find_first (fun q => N.eqb (q_message_id q) messageId) (db_queue d).

(** The WHERE clause of [dequeueMessages]. *)
Definition q_ready (now : Timestamp) (target : ClientId) (q : QueuedMessage) : bool :=
  bool_decide (q_target q = target) && Z.leb (q_next_attempt q) now &&
  Z.ltb (q_attempts q) (q_max_attempts q).

(** [ORDER BY priority DESC, next_attempt ASC]. *)
Definition q_before (a b : QueuedMessage) : bool :=
  Z.ltb (q_priority b) (q_priority a) ||
  (Z.eqb (q_priority a) (q_priority b) && Z.leb (q_next_attempt a) (q_next_attempt b)).

(** [dequeueMessages]: the ready rows, ordered, at most [limit]. *)
Definition dequeueMessages (d : Db) (target : ClientId) (limit : nat) : list QueuedMessage :=
  take limit (isort q_before (List.filter (q_ready (db_clock d) target) (db_queue d))).

(** [incrementAttempts]: [attempts + 1], [next_attempt = now + delay s]. *)
Definition bump_attempt (t : Timestamp) (delaySeconds : Z) (q : QueuedMessage) : QueuedMessage :=
  mkQueuedMessage (q_id q) (q_message_id q) (q_target q) (q_priority q) (q_attempts q + 1)
    (q_max_attempts q) (t + delaySeconds * 1000) (q_created_at q).

Definition incrementAttempts (id : N) (delaySeconds : Z) (d : Db) : Db :=
  set_queue (map (fun q => if N.eqb (q_id q) id then bump_attempt (db_clock d) delaySeconds q
                           else q) (db_queue d)) d.

(** [removeFromQueue]: delete the row of the message; [changes > 0]. *)
Definition removeFromQueue (messageId : Uuid) (d : Db) : bool * Db :=
  let q' := List.filter (fun q => negb (N.eqb (q_message_id q) messageId)) (db_queue d) in
  (bool_decide (length q' < length (db_queue d))%nat, set_queue q' d).

(** [q_exhausted]: [attempts >= max_attempts]. *)
Definition q_exhausted (q : QueuedMessage) : bool := Z.leb (q_max_attempts q) (q_attempts q).

(** [clearExhaustedMessages]: delete the exhausted rows; [changes]. *)
Definition clearExhaustedMessages (d : Db) : nat * Db :=
  let q' := List.filter (fun q => negb (q_exhausted q)) (db_queue d) in
  (length (db_queue d) - length q', set_queue q' d).

(** [getQueueLength]: rows of one target, or all rows. *)
Definition getQueueLength (d : Db) (target : option ClientId) : nat :=
  match target with
  | Some t => length (List.filter (fun q => bool_decide (q_target q = t)) (db_queue d))
  | None => length (db_queue d)
  end.

(** ** The queue's part of the invariant *)

Lemma db_wf_set_queue d q' :
  db_wf d ->
  Forall (fun q => is_Some (find_message (q_message_id q) (db_messages d))) q' ->
  NoDup (q_message_id <$> q') ->
  db_wf (set_queue q' d).
Proof. intros [Hc Hmi Hci Hmc Hmr Hq Hqu Hmf Hcf] H1 H2. by split. Qed.

Lemma db_wf_filter_queue d (f : QueuedMessage -> bool) :
  db_wf d -> db_wf (set_queue (List.filter f (db_queue d)) d).
Proof.
  intros Hwf. apply db_wf_set_queue; [done| |].
  - apply Forall_filter_bool, wf_queue_msg, Hwf.
  - apply NoDup_fmap_filter, wf_queue_unique, Hwf.
Qed.

Lemma incrementAttempts_wf id delay d : db_wf d -> db_wf (incrementAttempts id delay d).
Proof.
  intros Hwf. apply db_wf_set_queue; [done| |].
  - apply Forall_map. eapply Forall_impl; [apply (wf_queue_msg _ Hwf)|].
    intros q Hq. by destruct (q_id q =? id)%N.
  - rewrite fmap_map_ext; [apply (wf_queue_unique _ Hwf)|].
    intros q. by destruct (q_id q =? id)%N.
Qed.

Lemma removeFromQueue_wf m d : db_wf d -> db_wf (removeFromQueue m d).2.
Proof. apply db_wf_filter_queue. Qed.

Lemma clearExhaustedMessages_wf d : db_wf d -> db_wf (clearExhaustedMessages d).2.
Proof. apply db_wf_filter_queue. Qed.

#[export] Hint Resolve incrementAttempts_wf removeFromQueue_wf clearExhaustedMessages_wf : bridge.

(** The queue rows survive message-side writes that keep message ids. *)
Lemma updateMessageStatus_queue id st d : db_queue (updateMessageStatus id st d) = db_queue d.
Proof. reflexivity. Qed.

(** ** [enqueueMessage] *)

Section Enqueue.
Context (d : Db) (mid : Uuid) (target : ClientId) (prio maxa : option Z).

Definition enqueued_row : QueuedMessage :=
  mkQueuedMessage (max_rowid (db_queue d) + 1) mid target
    (match prio with Some p => p | None => 0 end) 0
    (match maxa with Some m => m | None => 3 end) (db_clock d) (db_clock d).

(** A second row for the same message is refused. *)
Lemma enqueueMessage_duplicate :
  mid ∈ q_message_id <$> db_queue d ->
  enqueueMessage mid target prio maxa d =
    Fail (ErrSql "UNIQUE constraint failed: message_queue.message_id").
Proof.
  intros H. unfold enqueueMessage, st_bind, now. simpl. by rewrite bool_decide_true.
Qed.

(** A row for a message that does not exist is refused. *)
Lemma enqueueMessage_missing :
  mid ∉ q_message_id <$> db_queue d -> getMessage d mid = None ->
  enqueueMessage mid target prio maxa d = Fail (ErrSql "FOREIGN KEY constraint failed").
Proof.
  intros H1 H2. unfold enqueueMessage, st_bind, now. simpl.
  rewrite bool_decide_false by done. rewrite H2. done.
Qed.

(** Otherwise the row is appended with attempts 0, due now. *)
Lemma enqueueMessage_ok :
  db_wf d -> mid ∉ q_message_id <$> db_queue d -> is_Some (getMessage d mid) ->
  enqueueMessage mid target prio maxa d =
    Ok (enqueued_row, set_queue (db_queue d ++ [enqueued_row]) d).
Proof.
  intros Hwf H1 H2. destruct (clients_ok_getClient d target (wf_clients _ Hwf)) as (c & Hc & _).
  unfold enqueueMessage, st_bind, now. simpl.
  rewrite bool_decide_false by done. rewrite (bool_decide_true _ H2), Hc. done.
Qed.
End Enqueue.

Lemma enqueueMessage_wf mid target prio maxa :
  st_preserves db_wf (enqueueMessage mid target prio maxa).
Proof.
  intros d r d' Hwf H.
  destruct (decide (mid ∈ q_message_id <$> db_queue d)) as [Hdup|Hdup];
    [by rewrite enqueueMessage_duplicate in H|].
  destruct (getMessage d mid) as [m|] eqn:Hm; [|by rewrite enqueueMessage_missing in H].
  rewrite enqueueMessage_ok in H by (eauto || done). injection H as <- <-.
  apply db_wf_set_queue; [done| |].
  - apply Forall_app. split; [apply (wf_queue_msg _ Hwf)|]. repeat constructor.
    unfold getMessage in Hm. simpl. by rewrite Hm.
  - rewrite fmap_app. apply NoDup_app. split; [apply (wf_queue_unique _ Hwf)|].
    split; [|apply NoDup_singleton].
    intros x Hx Hin. apply list_elem_of_singleton in Hin as ->. by apply Hdup.
Qed.

#[export] Hint Resolve enqueueMessage_wf : bridge.

(** ** [dequeueMessages] *)

Lemma q_before_total x y : q_before x y = true \/ q_before y x = true.
Proof.
  unfold q_before. rewrite !orb_true_iff, !andb_true_iff, !Z.ltb_lt, !Z.eqb_eq, !Z.leb_le. lia.
Qed.

Lemma q_before_trans x y z :
  q_before x y = true -> q_before y z = true -> q_before x z = true.
Proof.
  unfold q_before. rewrite !orb_true_iff, !andb_true_iff, !Z.ltb_lt, !Z.eqb_eq, !Z.leb_le. lia.
Qed.

(** The WHERE clause and the ORDER BY of [dequeueMessages], column by column. *)
Lemma q_ready_spec t target q :
  q_ready t target q = true <->
  q_target q = target /\ (q_next_attempt q <= t)%Z /\ (q_attempts q < q_max_attempts q)%Z.
Proof.
  unfold q_ready. rewrite !andb_true_iff, bool_decide_eq_true, Z.leb_le, Z.ltb_lt. tauto.
Qed.

Lemma q_before_spec a b :
  q_before a b = true <->
  (q_priority b < q_priority a)%Z \/
  (q_priority a = q_priority b /\ (q_next_attempt a <= q_next_attempt b)%Z).
Proof. unfold q_before. by rewrite orb_true_iff, andb_true_iff, Z.ltb_lt, Z.eqb_eq, Z.leb_le. Qed.

Section Dequeue.
Context (d : Db) (target : ClientId) (limit : nat).

Local Notation ready := (isort q_before (List.filter (q_ready (db_clock d) target) (db_queue d))).

Lemma elem_of_ready q : q ∈ ready <-> q ∈ db_queue d /\ q_ready (db_clock d) target q = true.
Proof. by rewrite elem_of_isort, elem_of_list_filter_bool. Qed.

(** Every dequeued row is a row of the table, of [target], due, and not
    exhausted; there are at most [limit] of them. *)
Lemma dequeue_sound q :
  q ∈ dequeueMessages d target limit ->
  q ∈ db_queue d /\ q_target q = target /\ (q_next_attempt q <= db_clock d)%Z /\
  (q_attempts q < q_max_attempts q)%Z.
Proof.
  unfold dequeueMessages. intros Hq. apply elem_of_take in Hq as (i & Hi & _).
  apply list_elem_of_lookup_2 in Hi. apply elem_of_ready in Hi as [Hin Hr].
  apply q_ready_spec in Hr. done.
Qed.

(** C28: Every row [dequeueMessages] returns belongs to the target, is due and is not exhausted. *)
Theorem dequeueMessages_sound q :
  q ∈ dequeueMessages d target limit ->
  q ∈ db_queue d /\ q_target q = target /\ (q_next_attempt q <= db_clock d)%Z /\
  (q_attempts q < q_max_attempts q)%Z.
Proof. exact (dequeue_sound q). Qed.

Lemma dequeueMessages_length : (length (dequeueMessages d target limit) <= limit)%nat.
Proof. unfold dequeueMessages. rewrite length_take. lia. Qed.

Lemma dequeueMessages_sorted : StronglySorted (le_rel q_before) (dequeueMessages d target limit).
Proof.
  apply StronglySorted_take, isort_sorted; [apply q_before_total|apply q_before_trans].
Qed.

(** No ready row is passed over: a ready row left out means the batch
    is full and every row taken comes before it in the order. *)
Lemma dequeue_complete q :
  q ∈ db_queue d -> q_ready (db_clock d) target q = true ->
  q ∉ dequeueMessages d target limit ->
  length (dequeueMessages d target limit) = limit /\
  forall q', q' ∈ dequeueMessages d target limit -> q_before q' q = true.
Proof.
  intros Hin Hr Hout. unfold dequeueMessages in *.
  assert (Hq : q ∈ ready) by (by apply elem_of_ready).
  rewrite <- (take_drop limit ready) in Hq. apply elem_of_app in Hq as [Hq|Hq]; [done|].
  split.
  - rewrite length_take. destruct (decide (limit <= length ready)%nat); [lia|].
    rewrite drop_ge in Hq by lia. by apply elem_of_nil in Hq.
  - intros q' Hq'. eapply (StronglySorted_app_rel (le_rel q_before)); [|exact Hq'|exact Hq].
    rewrite take_drop. apply isort_sorted; [apply q_before_total|apply q_before_trans].
Qed.

(** C29: No ready row is passed over: a row of the target that is due
    and not exhausted, left out of the batch, means the batch holds
    [limit] rows and each has a higher priority, or the same priority
    and a due time no later ([ORDER BY priority DESC, next_attempt ASC]). *)
Theorem dequeueMessages_complete q :
  q ∈ db_queue d -> q_target q = target -> (q_next_attempt q <= db_clock d)%Z ->
  (q_attempts q < q_max_attempts q)%Z ->
  q ∉ dequeueMessages d target limit ->
  length (dequeueMessages d target limit) = limit /\
  forall q', q' ∈ dequeueMessages d target limit ->
    (q_priority q < q_priority q')%Z \/
    (q_priority q' = q_priority q /\ (q_next_attempt q' <= q_next_attempt q)%Z).
Proof.
  intros Hin Ht Hn Ha Hout.
  destruct (dequeue_complete q Hin (proj2 (q_ready_spec _ _ _) (conj Ht (conj Hn Ha))) Hout)
    as [Hl Hb].
  split; [done|]. intros q' Hq'. by apply q_before_spec, Hb.
Qed.
End Dequeue.

(** ** Removal and the exhausted sweep *)

(** After [removeFromQueue m] no row names [m], and every other row is kept. *)
Lemma removeFromQueue_spec m d q :
  q ∈ db_queue (removeFromQueue m d).2 <-> q ∈ db_queue d /\ q_message_id q <> m.
Proof.
  simpl. rewrite elem_of_list_filter_bool, negb_true_iff.
  destruct (N.eqb_spec (q_message_id q) m); naive_solver.
Qed.

(** [clearExhaustedMessages] keeps exactly the rows with
    [attempts < max_attempts] and reports how many it deleted. *)
Lemma clear_exhausted_spec d :
  (forall q, q ∈ db_queue (clearExhaustedMessages d).2 <->
             q ∈ db_queue d /\ (q_attempts q < q_max_attempts q)%Z) /\
  (clearExhaustedMessages d).1 = length (List.filter q_exhausted (db_queue d)).
Proof.
  split.
  - intros q. simpl. rewrite elem_of_list_filter_bool, negb_true_iff.
    unfold q_exhausted. rewrite Z.leb_gt. done.
  - simpl. pose proof (filter_split_length q_exhausted (db_queue d)). lia.
Qed.

(** [clearExhaustedMessages] keeps exactly the rows with [attempts < max_attempts] and returns how many it deleted. *)
Theorem clearExhaustedMessages_spec d :
  (forall q, q ∈ db_queue (clearExhaustedMessages d).2 <->
             q ∈ db_queue d /\ (q_attempts q < q_max_attempts q)%Z) /\
  (clearExhaustedMessages d).1 = length (List.filter q_exhausted (db_queue d)).
Proof. exact (clear_exhausted_spec d). Qed.

(** After the sweep, [dequeueMessages] and the sweep agree: no exhausted
    row remains to be dequeued or swept. *)
Lemma clearExhaustedMessages_idem d :
  (clearExhaustedMessages (clearExhaustedMessages d).2).1 = 0%nat.
Proof.
  simpl. induction (db_queue d) as [|q l IH]; simpl; [done|].
  destruct (q_exhausted q) eqn:E; simpl; [done|]. rewrite E. simpl. done.
Qed.

(** [incrementAttempts] on the row [id]: one more attempt, due after the
    delay; the other rows are unchanged. *)
Lemma incrementAttempts_row id delay d q :
  q ∈ db_queue d -> q_id q = id ->
  bump_attempt (db_clock d) delay q ∈ db_queue (incrementAttempts id delay d).
Proof.
  intros Hq <-. simpl. apply list_elem_of_In, in_map_iff. exists q.
  rewrite N.eqb_refl. split; [done|]. by apply list_elem_of_In.
Qed.

(** ** Witnesses on [demo_db] *)

Lemma dequeueMessages_sound_witness :
  q_demo1 ∈ dequeueMessages demo_db claude 10 /\
  (q_demo1 ∈ db_queue demo_db /\ q_target q_demo1 = claude /\
   (q_next_attempt q_demo1 <= db_clock demo_db)%Z /\ (q_attempts q_demo1 < q_max_attempts q_demo1)%Z).
Proof.
  assert (H : q_demo1 ∈ dequeueMessages demo_db claude 10)
    by (apply (bool_decide_unpack _); vm_compute; reflexivity).
  split; [exact H|]. exact (dequeueMessages_sound demo_db claude 10 q_demo1 H).
Defined.

(** The urgent row fills a batch of one and the high one waits. *)
Lemma dequeueMessages_complete_witness :
  length (dequeueMessages demo_db claude 1) = 1%nat /\
  forall q', q' ∈ dequeueMessages demo_db claude 1 ->
    (q_priority q_demo1 < q_priority q')%Z \/
    (q_priority q' = q_priority q_demo1 /\ (q_next_attempt q' <= q_next_attempt q_demo1)%Z).
Proof.
  apply (dequeueMessages_complete demo_db claude 1 q_demo1).
  - apply (bool_decide_unpack _). vm_compute. reflexivity.
  - reflexivity.
  - vm_compute. discriminate.
  - vm_compute. reflexivity.
  - apply (bool_decide_unpack _). vm_compute. reflexivity.
Defined.
