(* ===== verification/Registry.v ===== *)
(** * The client registry ([src/src/mcp/clientRegistry.ts])

    [ClientRegistry] wraps a JavaScript [Map<ClientId, string>] from an
    assistant to its live session id.  A [Map] keeps its keys in
    insertion order ([getOnlineClients] returns them in that order); a
    [set] of a present key changes its value in place, a [set] of a new
    key appends it, and [delete] removes it.  It is modelled as an
    association list with exactly that behaviour. *)

From S2P Require Import Prelude.

Record ClientRegistry := mkClientRegistry {
  activeSessions : list (ClientId * string);
}.

Definition emptyRegistry : ClientRegistry := mkClientRegistry [].

(** [Map.prototype.set]. *)
Fixpoint map_set (k : ClientId) (v : string) (m : list (ClientId * string))
    : list (ClientId * string) :=
  match m with
  | [] => [(k, v)]
  | (k', v') :: m' => if bool_decide (k = k') then (k, v) :: m' else (k', v') :: map_set k v m'
  end.

(** [Map.prototype.get]. *)
Fixpoint map_get (k : ClientId) (m : list (ClientId * string)) : option string :=
  match m with
  | [] => None
  | (k', v) :: m' => if bool_decide (k = k') then Some v else map_get k m'
  end.

(** [Map.prototype.delete]. *)
Definition map_delete (k : ClientId) (m : list (ClientId * string)) : list (ClientId * string) :=
  List.filter (fun kv => negb (bool_decide (kv.1 = k))) m.

Definition setOnline (clientId : ClientId) (sessionId : string) (r : ClientRegistry)
    : ClientRegistry := mkClientRegistry (map_set clientId sessionId (activeSessions r)).

Definition setOffline (clientId : ClientId) (r : ClientRegistry) : ClientRegistry :=
  mkClientRegistry (map_delete clientId (activeSessions r)).

Definition isOnline (r : ClientRegistry) (clientId : ClientId) : bool :=
  bool_decide (is_Some (map_get clientId (activeSessions r))).

Definition getSessionId (r : ClientRegistry) (clientId : ClientId) : option string :=
  map_get clientId (activeSessions r).

Definition getOnlineClients (r : ClientRegistry) : list ClientId := (activeSessions r).*1.

Definition clear (r : ClientRegistry) : ClientRegistry := emptyRegistry.

(** ** Laws *)

Lemma map_get_set_same k v m : map_get k (map_set k v m) = Some v.
Proof.
  induction m as [|[k' v'] m IH]; simpl; [by rewrite bool_decide_true|].
  case_bool_decide; simpl; [by rewrite bool_decide_true|]. by rewrite bool_decide_false.
Qed.

Lemma map_get_set_other k k' v m : k <> k' -> map_get k' (map_set k v m) = map_get k' m.
Proof.
  intros Hne. induction m as [|[k0 v0] m IH]; simpl.
  - by rewrite bool_decide_false.
  - case_bool_decide as E; simpl.
    + subst k0. rewrite !bool_decide_false by congruence. done.
    + by case_bool_decide.
Qed.

Lemma map_get_delete_same k m : map_get k (map_delete k m) = None.
Proof.
  induction m as [|[k' v'] m IH]; simpl; [done|].
  case_bool_decide as E; simpl; [exact IH|]. rewrite bool_decide_false by congruence. exact IH.
Qed.

Lemma map_get_delete_other k k' m : k <> k' -> map_get k' (map_delete k m) = map_get k' m.
Proof.
  intros Hne. induction m as [|[k0 v0] m IH]; simpl; [done|].
  case_bool_decide as E; simpl.
  - subst. by rewrite bool_decide_false.
  - by case_bool_decide.
Qed.

Lemma map_set_keys k v m :
  (map_set k v m).*1 = if bool_decide (k ∈ m.*1) then m.*1 else m.*1 ++ [k].
Proof.
  induction m as [|[k' v'] m IH].
  - simpl. destruct (decide (k ∈ [])) as [H|H]; [by apply elem_of_nil in H|]. rewrite ?bool_decide_false by done. done.
  - destruct (decide (k = k')) as [->|Hne].
    + cbn [map_set]. rewrite bool_decide_true by done.
      rewrite (bool_decide_true (k' ∈ _)) by (rewrite fmap_cons; by left). done.
    + cbn [map_set]. rewrite (bool_decide_false (k = k')) by done. rewrite !fmap_cons, IH.
      destruct (decide (k ∈ m.*1)) as [Hin|Hin].
      * rewrite (bool_decide_true (k ∈ m.*1)) by done. rewrite bool_decide_true; [done|]. by right.
      * rewrite (bool_decide_false (k ∈ m.*1)) by done.
        rewrite bool_decide_false; [done|]. by intros [?|?]%elem_of_cons.
Qed.

Lemma map_set_keys_NoDup k v m : NoDup m.*1 -> NoDup (map_set k v m).*1.
Proof.
  intros Hnd. rewrite map_set_keys. case_bool_decide as E; [done|].
  apply NoDup_app. split; [done|]. split; [|apply NoDup_singleton].
  intros x Hx ->%list_elem_of_singleton. done.
Qed.

Lemma map_delete_keys_NoDup k m : NoDup m.*1 -> NoDup (map_delete k m).*1.
Proof. apply NoDup_fmap_filter. Qed.

(** The registry never holds two sessions for one assistant. *)
Definition registry_wf (r : ClientRegistry) : Prop := NoDup (getOnlineClients r).

Lemma setOnline_wf c s r : registry_wf r -> registry_wf (setOnline c s r).
Proof. apply map_set_keys_NoDup. Qed.

Lemma setOffline_wf c r : registry_wf r -> registry_wf (setOffline c r).
Proof. apply map_delete_keys_NoDup. Qed.

#[export] Hint Resolve setOnline_wf setOffline_wf : bridge.

(** The registry answers [isOnline] from the last [setOnline] or
    [setOffline] of that assistant, and re-registering replaces the
    session id (open question 1 of the spec). *)
Theorem registry_laws c c' s r :
  isOnline (setOnline c s r) c = true /\
  getSessionId (setOnline c s r) c = Some s /\
  isOnline (setOffline c r) c = false /\
  (c <> c' -> isOnline (setOnline c s r) c' = isOnline r c' /\
              isOnline (setOffline c r) c' = isOnline r c') /\
  isOnline (clear r) c = false.
Proof.
  unfold isOnline, getSessionId, setOnline, setOffline. simpl.
  rewrite map_get_set_same, map_get_delete_same. split; [by apply bool_decide_eq_true|].
  split; [done|]. split; [first [done | apply bool_decide_eq_false; by intros []]|].
  split; [|first [done | apply bool_decide_eq_false; by intros []]].
  intros Hne. by rewrite map_get_set_other, map_get_delete_other.
Qed.
