(* ===== verification/Agents.v ===== *)
(** * Agent personas ([src/src/agents/registry.ts], [types.ts],
    [personas/oracle.ts], and [personas/architect.ts] as
    [src/unnamed/part_003])

    The two personas the dispatcher can hand to Codex, the name lookup
    [getAgent] with JavaScript's [in] operator (which also sees the
    properties every object inherits from [Object.prototype]), and the
    keyword selection [selectAgent] over the lower-cased content. *)

From S2P Require Import Prelude.

Inductive AgentCategory := cat_advisor | cat_exploration | cat_specialist.

#[export] Instance AgentCategory_eq_dec : EqDecision AgentCategory.
Proof. solve_decision. Defined.

(** [interface AgentPersona]. *)
Record AgentPersona := mkAgentPersona {
  persona_name : string;
  persona_description : string;
  persona_category : AgentCategory;
  persona_baseInstructions : string;
  persona_triggers : list string;
  persona_sandbox : option string;
}.

#[export] Instance AgentPersona_eq_dec : EqDecision AgentPersona.
Proof. solve_decision. Defined.

(** [type AgentName]. *)
Inductive AgentName := an_architect | an_oracle.

#[export] Instance AgentName_eq_dec : EqDecision AgentName.
Proof. solve_decision. Defined.

Definition agent_name_string (n : AgentName) : string :=
  match n with an_architect => "architect" | an_oracle => "oracle" end.

(** [ARCHITECT]. *)
Definition ARCHITECT : AgentPersona :=
  mkAgentPersona "architect" "Critical code reviewer and design advisor" cat_advisor
"You are the ARCHITECT - a critical technical partner working with Claude through tulayngmamamo.

YOUR ROLE: Senior Architect & Code Reviewer

CORE PRINCIPLES:
1. EXAMINE the codebase yourself - form your OWN opinion before responding
2. AGREE when Claude is right - but explain WHY (don't rubber-stamp)
3. DISAGREE when you see problems - provide specific alternatives
4. NEVER just go along to be agreeable - your value is independent analysis

WHEN REVIEWING CODE OR ARCHITECTURE:
- Look at the actual implementation, not just summaries
- Consider: Does this fit existing patterns? Edge cases?
- If a change is proposed: Is there a simpler approach?
- Check for: security issues, performance, maintainability

WHEN YOU DISAGREE:
- State your concern clearly and specifically
- Propose an alternative approach
- Explain trade-offs between approaches

WHEN YOU AGREE:
- Confirm you've looked at the code yourself
- Add considerations Claude may have missed
- Suggest improvements if appropriate

TONE: Collegial but direct. You're doing code review - be honest, specific, helpful.

Think critically. Don't waste time agreeing just to agree."
    ["architecture"; "design"; "review"; "should we"; "approach"; "refactor"] None.

(** [ORACLE]. *)
Definition ORACLE : AgentPersona :=
  mkAgentPersona "oracle" "Strategic reasoning for debugging and complex problems" cat_advisor
"You are the ORACLE - a strategic technical advisor working with Claude through tulayngmamamo.

YOUR ROLE: Deep Reasoning & Problem Diagnosis

You are invoked when Claude encounters problems requiring elevated analysis:
- Debugging complex issues
- Understanding unexpected behavior
- Root cause analysis
- Strategic technical decisions

DECISION FRAMEWORK:
1. BIAS TOWARD SIMPLICITY: The right solution is typically the least complex one
2. LEVERAGE EXISTING CODE: Prefer modifications over new components
3. PRIORITIZE DEVELOPER EXPERIENCE: Readability over theoretical perfection
4. SIGNAL INVESTMENT: Tag recommendations with effort (Quick/Short/Medium/Large)

RESPONSE STRUCTURE:

Essential (always include):
- Bottom line summary
- Numbered action steps
- Effort estimate

Expanded (when relevant):
- Reasoning and key tradeoffs
- Risk mitigation

DIAGNOSTIC APPROACH:
1. Gather facts before forming hypotheses
2. Consider multiple root causes
3. Trace data flow and state changes
4. Identify the FIRST point of failure, not symptoms
5. Distinguish correlation from causation

TONE: Precise and methodical. You're the expert they consult for hard problems.

Provide one clear recommendation. Mention alternatives only when tradeoffs differ substantially."
    ["why"; "debug"; "investigate"; "understand"; "root cause"; "explain"] None.

(** [AGENT_PERSONAS]: its own keys in insertion order, and their values. *)
Definition AGENT_PERSONAS (n : AgentName) : AgentPersona :=
  match n with an_architect => ARCHITECT | an_oracle => ORACLE end.

Definition agent_persona_keys : list (string * AgentName) :=
  [("architect", an_architect); ("oracle", an_oracle)].

Definition DEFAULT_AGENT : AgentName := an_architect.

(** The names [in] also finds on a plain object literal: the properties
    of [Object.prototype]. *)
Definition object_prototype_keys : list string :=
  ["constructor"; "__defineGetter__"; "__defineSetter__"; "hasOwnProperty";
   "__lookupGetter__"; "__lookupSetter__"; "isPrototypeOf"; "propertyIsEnumerable";
   "toString"; "valueOf"; "__proto__"; "toLocaleString"].

(** What [AGENT_PERSONAS[name]] evaluates to: a persona, or an inherited
    member of [Object.prototype] (a function, or the prototype itself). *)
Inductive AgentValue := av_persona (p : AgentPersona) | av_inherited (key : string).

#[export] Instance AgentValue_eq_dec : EqDecision AgentValue.
Proof. solve_decision. Defined.

(** [name in AGENT_PERSONAS] followed by the indexing. *)
Definition lookup_in (name : string) : option AgentValue :=
  match find_first (fun kv => bool_decide (kv.1 = name)) agent_persona_keys with
  | Some (_, n) => Some (av_persona (AGENT_PERSONAS n))
  | None => if bool_decide (name ∈ object_prototype_keys) then Some (av_inherited name) else None
  end.

(** [getAgent]: [name && name in AGENT_PERSONAS] (the empty string is
    falsy), else the default persona. *)
Definition getAgent (name : option string) : AgentValue :=
  match name with
  | Some n =>
      if bool_decide (n <> EmptyString) then
        match lookup_in n with Some v => v | None => av_persona (AGENT_PERSONAS DEFAULT_AGENT) end
      else av_persona (AGENT_PERSONAS DEFAULT_AGENT)
  | None => av_persona (AGENT_PERSONAS DEFAULT_AGENT)
  end.

(** The [oracleTriggers] literal of [selectAgent]. *)
Definition oracleTriggers : list string :=
  ["why"; "debug"; "investigate"; "root cause"; "understand"; "explain"; "failing";
   "broken"; "not working"; "error"; "bug"].

(** The [for (const trigger of oracleTriggers)] loop with its early return. *)
Fixpoint select_loop (lower : string) (ts : list string) : AgentPersona :=
  match ts with
  | [] => ARCHITECT
  | t :: ts' => if includes lower t then ORACLE else select_loop lower ts'
  end.

(** [selectAgent]. *)
Definition selectAgent (content : string) : AgentPersona :=
  select_loop (to_lower content) oracleTriggers.

(** [listAgentNames]: [Object.keys(AGENT_PERSONAS)]. *)
Definition listAgentNames : list AgentName := agent_persona_keys.*2.

(** ** Selection *)

Lemma select_loop_spec lower ts :
  select_loop lower ts = if existsb (includes lower) ts then ORACLE else ARCHITECT.
Proof. induction ts as [|t ts IH]; simpl; [done|]. by destruct (includes lower t). Qed.

(** C31: [selectAgent] picks [ORACLE] exactly when one of the eleven
    [oracleTriggers] occurs in the lower-cased content, and [ARCHITECT]
    otherwise; the [triggers] fields of the personas play no part. *)
Theorem selectAgent_spec content :
  (selectAgent content = ORACLE <->
     exists t, t ∈ oracleTriggers /\ includes (to_lower content) t = true) /\
  (selectAgent content = ARCHITECT <->
     forall t, t ∈ oracleTriggers -> includes (to_lower content) t = false).
Proof.
  unfold selectAgent. rewrite select_loop_spec.
  assert (Hb : existsb (includes (to_lower content)) oracleTriggers = true <->
               exists t, t ∈ oracleTriggers /\ includes (to_lower content) t = true).
  { rewrite existsb_exists. setoid_rewrite list_elem_of_In. done. }
  assert (Hne : ORACLE <> ARCHITECT) by done.
  destruct (existsb _ _) eqn:E.
  - split; split; [naive_solver..|]. intros Hall. exfalso.
    destruct (proj1 Hb eq_refl) as (t & Ht & Hi). by rewrite (Hall t Ht) in Hi.
  - split; split; [done|intros Hex; by apply Hb in Hex|intros _ t Ht|done].
    destruct (includes _ t) eqn:Ei; [|done]. exfalso.
    enough (false = true) by done. apply Hb. by exists t.
Qed.

(** ** Lookup by name *)

(** C33: [getAgent] returns the named persona for both agent names and the
    default ([ARCHITECT]) for a missing or empty name and for every name
    that is neither a key nor an inherited property; for an inherited
    property name it returns that property, not a persona, although its
    comment promises the default for every name not found. *)
Theorem getAgent_spec name :
  (forall n, getAgent (Some (agent_name_string n)) = av_persona (AGENT_PERSONAS n)) /\
  getAgent None = av_persona ARCHITECT /\
  getAgent (Some EmptyString) = av_persona ARCHITECT /\
  (name ∉ (agent_persona_keys.*1) -> name ∉ object_prototype_keys ->
   getAgent (Some name) = av_persona ARCHITECT) /\
  (name ∈ object_prototype_keys -> getAgent (Some name) = av_inherited name).
Proof.
  split; [by intros []|split; [done|split; [done|]]].
  assert (Hnk : name ∉ agent_persona_keys.*1 ->
                find_first (fun kv => bool_decide (kv.1 = name)) agent_persona_keys = None).
  { intros Hn. destruct (find_first _ _) as [kv|] eqn:E; [|done].
    apply find_first_Some in E as [Hkv Heq]. apply bool_decide_eq_true in Heq.
    exfalso. apply Hn, list_elem_of_fmap. by exists kv. }
  assert (Hne : name ∈ object_prototype_keys -> name ∉ agent_persona_keys.*1 /\ name <> EmptyString).
  { intros Hp. split; [|intros ->; vm_compute in Hp; set_solver].
    intros Hk. vm_compute in Hk. apply elem_of_cons in Hk as [->|Hk]; [vm_compute in Hp; set_solver|].
    apply list_elem_of_singleton in Hk as ->. vm_compute in Hp; set_solver. }
  split.
  - intros Hn Hp. unfold getAgent, lookup_in. rewrite Hnk by done.
    rewrite (bool_decide_false (name ∈ _)) by done. by case_bool_decide.
  - intros Hp. destruct (Hne Hp) as [Hn Hemp]. unfold getAgent, lookup_in.
    rewrite bool_decide_true by done. rewrite Hnk by done. by rewrite bool_decide_true.
Qed.
