(* ===== verification/EventStore.v ===== *)
(** * The per-session event log ([src/unnamed/part_000]: [InMemoryEventStore])

    Each stream keeps [nextSeq], its buffer [events] (oldest first) and
    [indexById], a map from event id to buffer position.  [storeEvent]
    prunes the stream, then appends an event with id ["streamId:seq"];
    [replayEventsAfter] prunes, looks the anchor up in the index and
    sends every later event of the buffer.  [pruneStream] first drops the
    expired head (older than [ttlMs]), deleting each from the index, and
    rebuilds the index only when its size differs from the buffer length;
    then it trims the head to [maxEventsPerStream] and rebuilds.

    [Date.now()] is the argument [now]; a [JSONRPCMessage] is kept as its
    serialised text.  [replayEventsAfter] returns the events it sends, in
    order, with the stream id it returns. *)

From S2P Require Import Prelude.
From stdpp Require Import pretty.

Abbreviation JSONRPCMessage := string.

Record EventRecord := mkEventRecord {
  ev_id : string;
  ev_ts : Z;
  ev_message : JSONRPCMessage;
}.

Record StreamState := mkStreamState {
  nextSeq : nat;
  events : list EventRecord;
  indexById : gmap string nat;
}.

Record InMemoryEventStore := mkEventStore {
  streams : gmap string StreamState;
  ttlMs : Z;
  maxEventsPerStream : nat;
}.

(** The constructor's defaults: 15 minutes and 5000 events. *)
Definition newEventStore (ttl : option Z) (maxEvents : option nat) : InMemoryEventStore :=
  mkEventStore ∅ (match ttl with Some t => t | None => 15 * 60 * 1000 end)
    (match maxEvents with Some m => m | None => 5000%nat end).

(** The character [':'] (code 58). *)
Definition colon : Ascii.ascii := Ascii.ascii_of_nat 58.

(** [makeEventId]: [`${streamId}:${seq}`]. *)
Definition makeEventId (streamId : string) (seq : nat) : string :=
  streamId +:+ String colon (pretty seq).

(** The prefix before the first [':'], if there is one. *)
Fixpoint before_colon (s : string) : option string :=
  match s with
  | EmptyString => None
  | String a rest =>
      if Ascii.ascii_dec a colon then Some EmptyString
      else String a <$> before_colon rest
  end.

(** [parseStreamId]: [eventId.slice(0, eventId.indexOf(":"))], or [""]
    when there is no [':']. *)
Definition parseStreamId (eventId : string) : string :=
  match before_colon eventId with Some p => p | None => "" end.

(** [indexById.clear(); events.forEach((ev, idx) => indexById.set(ev.id, idx))] *)
Fixpoint index_from (i : nat) (evs : list EventRecord) (m : gmap string nat) : gmap string nat :=
  match evs with
  | [] => m
  | ev :: rest => index_from (S i) rest (<[ev_id ev := i]> m)
  end.

Definition rebuild_index (evs : list EventRecord) : gmap string nat := index_from 0 evs ∅.

(** [while (events.length && events[0].ts < cutoff) { shift; delete }] *)
Fixpoint drop_expired (cutoff : Z) (evs : list EventRecord) (idx : gmap string nat)
    : list EventRecord * gmap string nat :=
  match evs with
  | ev :: rest =>
      if Z.ltb (ev_ts ev) cutoff then drop_expired cutoff rest (delete (ev_id ev) idx)
      else (evs, idx)
  | [] => ([], idx)
  end.

(** [for (i < overflow) { shift; delete }] *)
Fixpoint shift_n (n : nat) (evs : list EventRecord) (idx : gmap string nat)
    : list EventRecord * gmap string nat :=
  match n, evs with
  | S n', ev :: rest => shift_n n' rest (delete (ev_id ev) idx)
  | _, _ => (evs, idx)
  end.

(** The body of [pruneStream] on one stream state. *)
Definition prune_state (ttl : Z) (maxEvents : nat) (now : Z) (s : StreamState) : StreamState :=
  let cutoff := (now - ttl)%Z in
  let '(evs1, idx1) := drop_expired cutoff (events s) (indexById s) in
  let idx2 := if bool_decide (size idx1 = length evs1) then idx1 else rebuild_index evs1 in
  if bool_decide (maxEvents < length evs1)%nat then
    let '(evs3, _) := shift_n (length evs1 - maxEvents) evs1 idx2 in
    mkStreamState (nextSeq s) evs3 (rebuild_index evs3)
  else mkStreamState (nextSeq s) evs1 idx2.

(** [pruneStream]: a missing stream is left alone. *)
Definition pruneStream (streamId : string) (now : Z) (st : InMemoryEventStore)
    : InMemoryEventStore :=
  match streams st !! streamId with
  | None => st
  | Some s => mkEventStore (<[streamId := prune_state (ttlMs st) (maxEventsPerStream st) now s]>
                              (streams st)) (ttlMs st) (maxEventsPerStream st)
  end.

(** Append to a stream state: the id from [nextSeq++], the position
    [events.length], then the push. *)
Definition append_event (streamId : string) (now : Z) (message : JSONRPCMessage)
    (s : StreamState) : string * StreamState :=
  let id := makeEventId streamId (nextSeq s) in
  (id, mkStreamState (S (nextSeq s)) (events s ++ [mkEventRecord id now message])
                     (<[id := length (events s)]> (indexById s))).

Definition empty_stream : StreamState := mkStreamState 1 [] ∅.

(** [storeEvent]: create the stream if needed, prune, append. *)
Definition storeEvent (streamId : string) (message : JSONRPCMessage) (now : Z)
    (st : InMemoryEventStore) : string * InMemoryEventStore :=
  let st1 := match streams st !! streamId with
             | Some _ => st
             | None => mkEventStore (<[streamId := empty_stream]> (streams st))
                                    (ttlMs st) (maxEventsPerStream st)
             end in
  let st2 := pruneStream streamId now st1 in
  let s := match streams st2 !! streamId with Some s => s | None => empty_stream end in
  let '(id, s') := append_event streamId now message s in
  (id, mkEventStore (<[streamId := s']> (streams st2)) (ttlMs st2) (maxEventsPerStream st2)).

(** [replayEventsAfter]: the returned stream id, the [(eventId, message)]
    pairs passed to [send] in order, and the store after the prune. *)
Definition replayEventsAfter (lastEventId : string) (now : Z) (st : InMemoryEventStore)
    : string * list (string * JSONRPCMessage) * InMemoryEventStore :=
  if bool_decide (lastEventId = "") then ("", [], st) else
  let streamId := parseStreamId lastEventId in
  if bool_decide (streamId = "") then ("", [], st) else
  match streams st !! streamId with
  | None => ("", [], st)
  | Some _ =>
      let st' := pruneStream streamId now st in
      let s := match streams st' !! streamId with Some s => s | None => empty_stream end in
      match indexById s !! lastEventId with
      | None => ("", [], st')
      | Some startIdx =>
          (streamId, (fun ev => (ev_id ev, ev_message ev)) <$> drop (S startIdx) (events s), st')
      end
  end.

(** ** Event identifiers *)

Lemma before_colon_make (s t : string) :
  before_colon s = None -> before_colon (s +:+ String colon t) = Some s.
Proof.
  induction s as [|a s IH]; simpl; intros H.
  - by destruct (Ascii.ascii_dec colon colon).
  - destruct (Ascii.ascii_dec a colon); [done|].
    destruct (before_colon s); [done|]. by rewrite IH.
Qed.

(** C6: [parseStreamId] recovers the stream of an id built by [makeEventId],
    for a stream id without [':'] (a session UUID has none). *)
Theorem parseStreamId_makeEventId streamId seq :
  before_colon streamId = None -> parseStreamId (makeEventId streamId seq) = streamId.
Proof. intros H. unfold parseStreamId, makeEventId. by rewrite before_colon_make. Qed.

Lemma string_app_cancel_l (p s t : string) : p +:+ s = p +:+ t -> s = t.
Proof. induction p as [|a p IH]; [done|]. rewrite !string_app_cons. intros [=]. auto. Qed.

Lemma makeEventId_inj sid n m : makeEventId sid n = makeEventId sid m -> n = m.
Proof.
  unfold makeEventId. intros H%string_app_cancel_l. injection H as H.
  by apply (inj pretty).
Qed.

(** ** The buffer after pruning is a suffix of the buffer before *)

Lemma drop_expired_suffix c evs idx : exists k, (drop_expired c evs idx).1 = drop k evs.
Proof.
  revert idx. induction evs as [|ev evs IH]; intros idx; simpl; [by exists 0%nat|].
  destruct (ev_ts ev <? c)%Z.
  - destruct (IH (delete (ev_id ev) idx)) as [k Hk]. by exists (S k).
  - by exists 0%nat.
Qed.

Lemma shift_n_drop n evs idx : (shift_n n evs idx).1 = drop n evs.
Proof.
  revert evs idx. induction n as [|n IH]; intros [|ev evs] idx; simpl; auto.
Qed.

Lemma prune_state_shape ttl mx now s :
  nextSeq (prune_state ttl mx now s) = nextSeq s /\
  exists k, events (prune_state ttl mx now s) = drop k (events s).
Proof.
  unfold prune_state. destruct (drop_expired_suffix (now - ttl) (events s) (indexById s)) as [k Hk].
  destruct (drop_expired _ _ _) as [evs1 idx1]. simpl in Hk. subst evs1.
  case_bool_decide.
  - destruct (shift_n _ _ _) as [evs3 idx3] eqn:E. split; [done|].
    exists (length (drop k (events s)) - mx + k)%nat. simpl.
    pose proof (f_equal fst E) as Hd. rewrite shift_n_drop in Hd. simpl in Hd.
    by rewrite <- Hd, drop_drop, Nat.add_comm.
  - split; [done|]. by exists k.
Qed.

(** After a prune the buffer holds at most [maxEventsPerStream] events. *)
Lemma prune_state_length ttl mx now s : (length (events (prune_state ttl mx now s)) <= mx)%nat.
Proof.
  unfold prune_state. destruct (drop_expired _ _ _) as [evs1 idx1].
  case_bool_decide as H.
  - destruct (shift_n _ _ _) as [evs3 idx3] eqn:E. simpl.
    pose proof (f_equal fst E) as Hd. rewrite shift_n_drop in Hd. simpl in Hd.
    subst evs3. rewrite length_drop. lia.
  - simpl. lia.
Qed.

(** ** The stream invariant

    The buffer carries the ids [sid:n] of strictly increasing sequence
    numbers, all below [nextSeq]. *)
Definition stream_ok (sid : string) (s : StreamState) : Prop :=
  exists seqs, ev_id <$> events s = makeEventId sid <$> seqs /\
    StronglySorted lt seqs /\ Forall (fun n => n < nextSeq s)%nat seqs.

#[export] Instance makeEventId_inj' sid : Inj eq eq (makeEventId sid).
Proof. intros n m. apply makeEventId_inj. Qed.

Lemma stream_ok_NoDup sid s : stream_ok sid s -> NoDup (ev_id <$> events s).
Proof.
  intros (seqs & -> & Hs & _). apply NoDup_fmap_2; [apply _|].
  by apply StronglySorted_lt_NoDup.
Qed.

Lemma stream_ok_drop sid s s' k :
  stream_ok sid s -> events s' = drop k (events s) -> nextSeq s' = nextSeq s ->
  stream_ok sid s'.
Proof.
  intros (seqs & Hids & Hs & Hlt) He Hn. exists (drop k seqs).
  rewrite He, Hn, !fmap_drop, Hids. split; [done|]. split.
  - by apply StronglySorted_drop.
  - by apply Forall_drop.
Qed.

Lemma prune_state_stream_ok sid ttl mx now s :
  stream_ok sid s -> stream_ok sid (prune_state ttl mx now s).
Proof.
  intros Hok. destruct (prune_state_shape ttl mx now s) as [Hn [k Hk]].
  by eapply stream_ok_drop.
Qed.

Lemma append_event_stream_ok sid now msg s :
  stream_ok sid s -> stream_ok sid (append_event sid now msg s).2.
Proof.
  intros (seqs & Hids & Hs & Hlt). exists (seqs ++ [nextSeq s]). simpl.
  rewrite !fmap_app, Hids. split; [done|]. split.
  - clear Hids. induction Hs as [|x l Hs IH Hall]; simpl.
    + repeat constructor.
    + apply Forall_cons in Hlt as [Hx Hlt]. constructor; [by apply IH|].
      apply Forall_app. split; [done|]. constructor; [lia|constructor].
  - apply Forall_app. split.
    + eapply Forall_impl; [exact Hlt|]. simpl. lia.
    + constructor; [simpl; lia|constructor].
Qed.

(** The id [append_event] draws is not yet in the buffer. *)
Lemma append_event_fresh sid s :
  stream_ok sid s -> makeEventId sid (nextSeq s) ∉ ev_id <$> events s.
Proof.
  intros (seqs & Hids & Hs & Hlt). rewrite Hids.
  intros (n & Heq & Hn)%list_elem_of_fmap. apply makeEventId_inj in Heq as <-.
  eapply Forall_forall in Hlt; [|exact Hn]. lia.
Qed.

(** ** The position index *)

(** The index maps exactly the ids of the buffer to their positions. *)
Definition index_ok (s : StreamState) : Prop :=
  forall id i, indexById s !! id = Some i <->
               exists ev, events s !! i = Some ev /\ ev_id ev = id.

Lemma index_from_lookup i evs m id :
  NoDup (ev_id <$> evs) ->
  index_from i evs m !! id =
  match list_find (fun ev => ev_id ev = id) evs with
  | Some (j, _) => Some (i + j)%nat
  | None => m !! id
  end.
Proof.
  revert i m. induction evs as [|ev evs IH]; intros i m Hnd; simpl; [done|].
  rewrite fmap_cons in Hnd. apply NoDup_cons in Hnd as [Hnin Hnd].
  rewrite IH by done. destruct (decide (ev_id ev = id)) as [<-|Hne].
  - assert (list_find (fun e => ev_id e = ev_id ev) evs = None) as ->.
    { apply list_find_None, Forall_forall. intros e He Heq. apply Hnin.
      apply list_elem_of_fmap. by exists e. }
    rewrite lookup_insert_eq. f_equal. lia.
  - destruct (list_find _ evs) as [[j y]|]; simpl.
    + f_equal. lia.
    + by rewrite lookup_insert_ne.
Qed.

(** A rebuilt index is consistent. *)
Lemma rebuild_index_ok n evs :
  NoDup (ev_id <$> evs) -> index_ok (mkStreamState n evs (rebuild_index evs)).
Proof.
  intros Hnd id i. simpl. unfold rebuild_index. rewrite index_from_lookup by done. simpl.
  destruct (list_find (fun ev => ev_id ev = id) evs) as [[j y]|] eqn:E.
  - apply list_find_Some in E as (Hj & Hy & _). split.
    + intros [= <-]. by exists y.
    + intros (ev & Hi & Hev). f_equal.
      eapply (NoDup_lookup (ev_id <$> evs)); [exact Hnd| |].
      * by rewrite list_lookup_fmap, Hj.
      * rewrite list_lookup_fmap, Hi. simpl. congruence.
  - apply list_find_None in E. split; [by rewrite lookup_empty|].
    intros (ev & Hi & Hev). eapply Forall_forall in E; [by destruct (E Hev)|].
    by eapply list_elem_of_lookup_2.
Qed.

(** Appending a fresh id keeps the index consistent. *)
Lemma append_event_index_ok sid now msg s :
  index_ok s -> makeEventId sid (nextSeq s) ∉ ev_id <$> events s ->
  index_ok (append_event sid now msg s).2.
Proof.
  intros Hok Hfresh id i. unfold append_event. cbn [snd indexById events].
  destruct (decide (makeEventId sid (nextSeq s) = id)) as [<-|Hne].
  - rewrite lookup_insert_eq. split.
    + intros [= <-]. exists (mkEventRecord (makeEventId sid (nextSeq s)) now msg). split; [|done].
      rewrite lookup_app_r, Nat.sub_diag by lia. done.
    + intros (ev & Hi & Hev). f_equal.
      destruct (decide (i < length (events s))%nat) as [Hlt|Hge].
      * rewrite lookup_app_l in Hi by done. exfalso. apply Hfresh.
        apply list_elem_of_fmap. exists ev. split; [done|]. by eapply list_elem_of_lookup_2.
      * apply lookup_lt_Some in Hi as Hlt. rewrite length_app in Hlt. simpl in Hlt. lia.
  - rewrite lookup_insert_ne by done. rewrite (Hok id i). split.
    + intros (ev & Hi & Hev). exists ev. split; [|done].
      apply lookup_app_l_Some, Hi.
    + intros (ev & Hi & Hev). exists ev. split; [|done].
      apply lookup_app_Some in Hi as [Hi|[Hge Hi]]; [done|].
      apply list_lookup_singleton_Some in Hi as [_ <-]. simpl in Hev. congruence.
Qed.

(** The first phase of the prune changes nothing when the oldest event
    is still within the TTL. *)
Definition head_expired (cutoff : Z) (s : StreamState) : bool :=
  match events s with ev :: _ => Z.ltb (ev_ts ev) cutoff | [] => false end.

Lemma drop_expired_none cutoff s :
  head_expired cutoff s = false ->
  drop_expired cutoff (events s) (indexById s) = (events s, indexById s).
Proof. unfold head_expired. destruct (events s) as [|ev evs]; simpl; [done|]. by intros ->. Qed.

(** Without an expired event, the prune keeps a consistent index
    consistent: it is kept, or rebuilt from the buffer. *)
Lemma prune_state_index_ok sid ttl mx now s :
  stream_ok sid s -> index_ok s -> head_expired (now - ttl) s = false ->
  index_ok (prune_state ttl mx now s).
Proof.
  intros Hso Hok Hh. pose proof (prune_state_stream_ok sid ttl mx now s Hso) as Hso'.
  revert Hso'. unfold prune_state. rewrite drop_expired_none by done.
  case_bool_decide as Hmx.
  - destruct (shift_n _ _ _) as [evs3 idx3]. intros Hso'.
    apply rebuild_index_ok. exact (stream_ok_NoDup sid _ Hso').
  - case_bool_decide; intros Hso'.
    + by destruct s.
    + apply rebuild_index_ok. exact (stream_ok_NoDup sid _ Hso').
Qed.

(** ** The store: [storeEvent] and [replayEventsAfter] *)

Lemma storeEvent_spec sid msg now st :
  storeEvent sid msg now st =
  let s1 := prune_state (ttlMs st) (maxEventsPerStream st) now
              (match streams st !! sid with Some s => s | None => empty_stream end) in
  (makeEventId sid (nextSeq s1),
   mkEventStore (<[sid := (append_event sid now msg s1).2]> (streams st))
                (ttlMs st) (maxEventsPerStream st)).
Proof.
  unfold storeEvent, pruneStream. destruct (streams st !! sid) as [s|] eqn:E; simpl.
  - rewrite E. simpl. rewrite lookup_insert_eq. simpl. by rewrite insert_insert_eq.
  - rewrite lookup_insert_eq. simpl. rewrite lookup_insert_eq. simpl.
    by rewrite !insert_insert_eq.
Qed.

(** Every stream satisfies [stream_ok], and holds at most one event more
    than the cap (the one appended after the last prune). *)
Definition store_ok (st : InMemoryEventStore) : Prop :=
  forall sid s, streams st !! sid = Some s ->
    stream_ok sid s /\ (length (events s) <= S (maxEventsPerStream st))%nat.

Lemma empty_stream_ok sid : stream_ok sid empty_stream.
Proof. exists []. repeat constructor. Qed.

Lemma newEventStore_ok ttl mx : store_ok (newEventStore ttl mx).
Proof. intros sid s. simpl. by rewrite lookup_empty. Qed.

Lemma store_ok_lookup st sid :
  store_ok st -> stream_ok sid (match streams st !! sid with Some s => s | None => empty_stream end).
Proof.
  intros Hok. destruct (streams st !! sid) as [s|] eqn:E; [|apply empty_stream_ok].
  by apply (Hok sid s E).
Qed.

(** [storeEvent] keeps every stream's ids increasing and its buffer within
    [maxEventsPerStream + 1]. *)
Theorem storeEvent_store_ok sid msg now st :
  store_ok st -> store_ok (storeEvent sid msg now st).2.
Proof.
  intros Hok. rewrite storeEvent_spec. intros sid' s'. simpl.
  destruct (decide (sid = sid')) as [<-|Hne].
  - rewrite lookup_insert_eq. intros [= <-]. split.
    + apply append_event_stream_ok, prune_state_stream_ok, store_ok_lookup, Hok.
    + simpl. rewrite length_app. simpl.
      pose proof (prune_state_length (ttlMs st) (maxEventsPerStream st) now
                    (match streams st !! sid with Some s => s | None => empty_stream end)). lia.
  - rewrite lookup_insert_ne by done. apply Hok.
Qed.

Lemma pruneStream_store_ok sid now st : store_ok st -> store_ok (pruneStream sid now st).
Proof.
  intros Hok. unfold pruneStream. destruct (streams st !! sid) as [s|] eqn:E; [|done].
  intros sid' s'. simpl. destruct (decide (sid = sid')) as [<-|Hne].
  - rewrite lookup_insert_eq. intros [= <-]. split.
    + apply prune_state_stream_ok. by apply (Hok sid s E).
    + pose proof (prune_state_length (ttlMs st) (maxEventsPerStream st) now s). lia.
  - rewrite lookup_insert_ne by done. apply Hok.
Qed.

Lemma replayEventsAfter_store_ok last now st : store_ok st -> store_ok (replayEventsAfter last now st).2.
Proof.
  intros Hok. unfold replayEventsAfter.
  case_bool_decide; [done|]. case_bool_decide; [done|].
  destruct (streams st !! _); [|done].
  destruct (indexById _ !! last); by apply pruneStream_store_ok.
Qed.

#[export] Hint Resolve storeEvent_store_ok replayEventsAfter_store_ok : bridge.

(** The stream [replayEventsAfter] reads after its prune. *)
Lemma pruneStream_lookup sid now st s :
  streams st !! sid = Some s ->
  streams (pruneStream sid now st) !! sid =
    Some (prune_state (ttlMs st) (maxEventsPerStream st) now s).
Proof. intros E. unfold pruneStream. rewrite E. simpl. apply lookup_insert_eq. Qed.

(** C4: Replay sends events of one stream in strictly increasing sequence
    order, whatever the state of the index. *)
Theorem replayEventsAfter_increasing last now st r sent st' :
  store_ok st -> replayEventsAfter last now st = (r, sent, st') ->
  exists seqs, sent.*1 = makeEventId r <$> seqs /\ StronglySorted lt seqs.
Proof.
  intros Hok. unfold replayEventsAfter.
  case_bool_decide; [intros [= <- <- _]; exists []; split; [done|constructor]|].
  case_bool_decide; [intros [= <- <- _]; exists []; split; [done|constructor]|].
  destruct (streams st !! parseStreamId last) as [s|] eqn:E; [|intros [= <- <- _]; exists []; split; [done|constructor]].
  rewrite (pruneStream_lookup _ _ _ _ E).
  pose proof (prune_state_stream_ok _ (ttlMs st) (maxEventsPerStream st) now s
                (proj1 (Hok _ s E))) as (seqs & Hids & Hs & _).
  destruct (indexById _ !! last) as [i|]; [|intros [= <- <- _]; exists []; split; [done|constructor]].
  intros [= <- <- _]. eexists. split.
  - rewrite <- list_fmap_compose.
    change ((fst ∘ _) <$> ?l) with (ev_id <$> l).
    by rewrite fmap_drop, Hids, <- fmap_drop.
  - by apply StronglySorted_drop.
Qed.

(** C3: While the index of the pruned stream is consistent, replay after an
    event of the buffer sends exactly the events that follow it. *)
Theorem replayEventsAfter_exact last now st sid s pre anchor post :
  parseStreamId last = sid -> sid <> "" -> streams st !! sid = Some s ->
  index_ok (prune_state (ttlMs st) (maxEventsPerStream st) now s) ->
  events (prune_state (ttlMs st) (maxEventsPerStream st) now s) = pre ++ anchor :: post ->
  ev_id anchor = last ->
  replayEventsAfter last now st =
    (sid, (fun ev => (ev_id ev, ev_message ev)) <$> post, pruneStream sid now st).
Proof.
  intros Hp Hsid E Hidx Hev Ha. unfold replayEventsAfter.
  rewrite bool_decide_false by (intros ->; by apply Hsid; rewrite <- Hp).
  rewrite Hp, bool_decide_false by done. rewrite E, (pruneStream_lookup _ _ _ _ E).
  assert (Hi : indexById (prune_state (ttlMs st) (maxEventsPerStream st) now s) !! last
               = Some (length pre)).
  { apply Hidx. exists anchor. split; [|done]. rewrite Hev, lookup_app_r, Nat.sub_diag; done. }
  rewrite Hi, Hev. f_equal. f_equal. rewrite drop_app_ge by (simpl; lia).
  by replace (S (length pre) - length pre)%nat with 1%nat by lia.
Qed.

(** C5: [storeEvent] keeps a stream's index consistent when the stream's
    oldest event has not expired. *)
Theorem storeEvent_index_ok sid msg now st s :
  store_ok st -> streams st !! sid = Some s -> index_ok s ->
  head_expired (now - ttlMs st) s = false ->
  exists s', streams (storeEvent sid msg now st).2 !! sid = Some s' /\ index_ok s'.
Proof.
  intros Hok E Hidx Hh. rewrite storeEvent_spec, E. simpl. rewrite lookup_insert_eq.
  eexists. split; [done|].
  pose proof (proj1 (Hok sid s E)) as Hso.
  apply append_event_index_ok.
  - by apply (prune_state_index_ok sid).
  - by apply append_event_fresh, prune_state_stream_ok.
Qed.

(** ** The defect of the TTL phase

    When only the TTL loop drops events, it deletes their ids from the
    index, which then has exactly as many entries as the buffer: the
    size test finds nothing to rebuild, and every kept id still maps to
    its position before the shift. *)

Definition delete_ids (evs : list EventRecord) (idx : gmap string nat) : gmap string nat :=
  foldl (fun m ev => delete (ev_id ev) m) idx evs.

Lemma delete_ids_lookup evs idx id :
  delete_ids evs idx !! id = if decide (id ∈ ev_id <$> evs) then None else idx !! id.
Proof.
  revert idx. induction evs as [|ev evs IH]; intros idx; [done|].
  unfold delete_ids in *. simpl. rewrite IH. clear IH.
  destruct (decide (id = ev_id ev)) as [->|Hne];
    [rewrite lookup_delete_eq|rewrite lookup_delete_ne by done];
    repeat case_decide; try done; exfalso; rewrite ?elem_of_cons in *; naive_solver.
Qed.

(** The TTL loop over an expired prefix stops at the first live event. *)
Lemma drop_expired_app c old ev live idx :
  Forall (fun e => ev_ts e < c)%Z old -> (c <= ev_ts ev)%Z ->
  drop_expired c (old ++ ev :: live) idx = (ev :: live, delete_ids old idx).
Proof.
  revert idx. induction old as [|e old IH]; intros idx Hold Hev; simpl.
  - by rewrite (proj2 (Z.ltb_ge _ _) Hev).
  - apply Forall_cons in Hold as [He Hold]. rewrite (proj2 (Z.ltb_lt _ _) He). by apply IH.
Qed.

Lemma index_ok_is_Some s id :
  index_ok s -> is_Some (indexById s !! id) <-> id ∈ ev_id <$> events s.
Proof.
  intros Hok. split.
  - intros [i (ev & Hi & <-)%Hok]. apply list_elem_of_fmap. exists ev.
    split; [done|]. by eapply list_elem_of_lookup_2.
  - intros (ev & -> & (i & Hi)%list_elem_of_lookup)%list_elem_of_fmap.
    exists i. apply Hok. by exists ev.
Qed.

(** The index after the TTL loop has one entry per kept event. *)
Lemma delete_ids_size s old live :
  index_ok s -> NoDup (ev_id <$> events s) -> events s = old ++ live ->
  size (delete_ids old (indexById s)) = length live.
Proof.
  intros Hok Hnd Hev.
  assert (Hd : dom (delete_ids old (indexById s)) = list_to_set (ev_id <$> live)).
  { apply set_eq. intros id. rewrite elem_of_dom, elem_of_list_to_set, delete_ids_lookup.
    rewrite Hev, fmap_app in Hnd. apply NoDup_app in Hnd as (_ & Hdis & _).
    destruct (decide (id ∈ ev_id <$> old)) as [Hin|Hnin].
    - split; [by intros []|]. intros Hl. exfalso. exact (Hdis id Hin Hl).
    - rewrite index_ok_is_Some, Hev, fmap_app, elem_of_app by done. tauto. }
  rewrite <- size_dom, Hd, size_list_to_set, length_fmap; [done|].
  rewrite Hev, fmap_app in Hnd. by apply NoDup_app in Hnd as (_ & _ & ?).
Qed.

(** A prune in which only the TTL loop drops events keeps the shifted
    index as it is. *)
Lemma prune_state_ttl_only ttl mx now s old ev live :
  index_ok s -> NoDup (ev_id <$> events s) -> events s = old ++ ev :: live ->
  Forall (fun e => ev_ts e < now - ttl)%Z old -> (now - ttl <= ev_ts ev)%Z ->
  (length (ev :: live) <= mx)%nat ->
  prune_state ttl mx now s = mkStreamState (nextSeq s) (ev :: live) (delete_ids old (indexById s)).
Proof.
  intros Hok Hnd Hev Hold Hnow Hmx. unfold prune_state. rewrite Hev, drop_expired_app by done.
  rewrite (bool_decide_true (size (delete_ids old (indexById s)) = length (ev :: live)))
    by (by eapply delete_ids_size).
  by rewrite (bool_decide_false (mx < length (ev :: live))%nat) by lia.
Qed.

Lemma stream_ok_parse sid s ev :
  before_colon sid = None -> stream_ok sid s -> ev ∈ events s -> parseStreamId (ev_id ev) = sid.
Proof.
  intros Hc (seqs & Hids & _) Hin.
  assert (Hid : ev_id ev ∈ makeEventId sid <$> seqs) by (rewrite <- Hids; by apply list_elem_of_fmap_2).
  apply list_elem_of_fmap in Hid as (n & -> & _).
  unfold parseStreamId, makeEventId. by rewrite before_colon_make.
Qed.

(** C1: The TTL phase of the prune leaves a stale index: when the oldest
    events [old] of a consistent stream have expired and the rest fits
    the cap, a replay after a kept event reports the stream as resumed
    but skips the first [length old] events that follow it, because the
    index still maps the anchor to its position before the shift. *)
Theorem replay_skips_after_ttl_prune st sid s old pre anchor post now :
  before_colon sid = None -> sid <> "" ->
  streams st !! sid = Some s -> stream_ok sid s -> index_ok s ->
  events s = old ++ pre ++ anchor :: post ->
  Forall (fun ev => ev_ts ev < now - ttlMs st)%Z old ->
  (now - ttlMs st <= ev_ts (hd anchor pre))%Z ->
  (length (pre ++ anchor :: post) <= maxEventsPerStream st)%nat ->
  (replayEventsAfter (ev_id anchor) now st).1 =
    (sid, (fun ev => (ev_id ev, ev_message ev)) <$> drop (length old) post).
Proof.
  intros Hc Hsid E Hso Hok Hev Hold Hnow Hmx.
  assert (Hnd := stream_ok_NoDup sid s Hso).
  assert (Hp : parseStreamId (ev_id anchor) = sid).
  { apply (stream_ok_parse sid s); [done|done|]. rewrite Hev. apply elem_of_app; right.
    apply elem_of_app; right. by left. }
  assert (Hlive : exists e l, pre ++ anchor :: post = e :: l /\ ev_ts e = ev_ts (hd anchor pre)).
  { destruct pre as [|e l]; simpl; by eexists _, _. }
  destruct Hlive as (e & l & Hel & Hts).
  assert (Hps : prune_state (ttlMs st) (maxEventsPerStream st) now s =
                mkStreamState (nextSeq s) (pre ++ anchor :: post) (delete_ids old (indexById s))).
  { rewrite Hel. apply (prune_state_ttl_only _ _ _ _ old); [done|done|by rewrite Hev, Hel|done|lia|
      by rewrite <- Hel]. }
  unfold replayEventsAfter.
  rewrite bool_decide_false by (intros Hz; apply Hsid; rewrite <- Hp, Hz; done).
  rewrite Hp, bool_decide_false by done. rewrite E, (pruneStream_lookup _ _ _ _ E), Hps. simpl.
  rewrite delete_ids_lookup, decide_False.
  2:{ rewrite Hev, !fmap_app in Hnd. apply NoDup_app in Hnd as (_ & Hdis & _).
      intros Hin. apply (Hdis _ Hin). apply elem_of_app; right. by left. }
  assert (Hi : indexById s !! ev_id anchor = Some (length old + length pre)%nat).
  { apply Hok. exists anchor. split; [|done].
    rewrite Hev, lookup_app_r, lookup_app_r by lia.
    by replace (length old + length pre - length old - length pre)%nat with 0%nat by lia. }
  rewrite Hi. f_equal. f_equal.
  rewrite drop_app_ge by lia. simpl length.
  replace (S (length old + length pre) - length pre)%nat with (S (length old)) by lia. done.
Qed.

(** A run that reaches the defect: three events on stream ["S"] at times
    0, 200000 and 200000 (default TTL of 15 minutes); a replay at time
    1000000 finds ["S:1"] expired. *)
Definition ttl_prune_run : InMemoryEventStore :=
  (storeEvent "S" "m3" 200000
     (storeEvent "S" "m2" 200000
        (storeEvent "S" "m1" 0 (newEventStore None None)).2).2).2.

Definition stream_of (sid : string) (st : InMemoryEventStore) : StreamState :=
  match streams st !! sid with Some s => s | None => empty_stream end.

(** ** The store as a state machine

    The store changes only through [storeEvent], [replayEventsAfter] and
    the prune they share; [es_reachable] is every store a run of them
    builds from [newEventStore]. *)
Inductive es_step : InMemoryEventStore -> InMemoryEventStore -> Prop :=
| step_store sid msg now st : es_step st (storeEvent sid msg now st).2
| step_replay last now st : es_step st (replayEventsAfter last now st).2
| step_prune sid now st : es_step st (pruneStream sid now st).

Definition es_reachable (ttl : option Z) (mx : option nat) (st : InMemoryEventStore) : Prop :=
  rtc es_step (newEventStore ttl mx) st.

Lemma es_step_store_ok st st' : es_step st st' -> store_ok st -> store_ok st'.
Proof.
  destruct 1; [apply storeEvent_store_ok|apply replayEventsAfter_store_ok|apply pruneStream_store_ok].
Qed.

Lemma rtc_es_step_store_ok st st' : rtc es_step st st' -> store_ok st -> store_ok st'.
Proof. induction 1; eauto using es_step_store_ok. Qed.

(** C2: Every reachable store keeps, in each stream, event ids of that
    stream with strictly increasing sequence numbers below [nextSeq], and
    at most [maxEventsPerStream + 1] buffered events. *)
Theorem es_reachable_store_ok ttl mx st : es_reachable ttl mx st -> store_ok st.
Proof. intros Hr. eapply rtc_es_step_store_ok; [exact Hr|apply newEventStore_ok]. Qed.

(** The run [ttl_prune_run] is reachable. *)
Lemma ttl_prune_run_reachable : es_reachable None None ttl_prune_run.
Proof.
  unfold es_reachable, ttl_prune_run.
  eapply rtc_r; [eapply rtc_r; [eapply rtc_r; [apply rtc_refl|]|]|]; apply step_store.
Qed.

(** ** Witnesses on the run [ttl_prune_run] *)

Definition ev_S1 : EventRecord := mkEventRecord "S:1" 0 "m1".
Definition ev_S2 : EventRecord := mkEventRecord "S:2" 200000 "m2".
Definition ev_S3 : EventRecord := mkEventRecord "S:3" 200000 "m3".

Lemma ttl_prune_run_store_ok : store_ok ttl_prune_run.
Proof. eapply rtc_es_step_store_ok; [apply ttl_prune_run_reachable|apply newEventStore_ok]. Qed.

Lemma ttl_prune_run_stream :
  stream_of "S" ttl_prune_run = mkStreamState 4 [ev_S1; ev_S2; ev_S3]
                                   (rebuild_index [ev_S1; ev_S2; ev_S3]).
Proof. vm_compute. reflexivity. Qed.

Lemma ttl_prune_run_stream_index_ok : index_ok (stream_of "S" ttl_prune_run).
Proof.
  rewrite ttl_prune_run_stream. apply rebuild_index_ok.
  apply (bool_decide_unpack _). vm_compute. reflexivity.
Qed.

(** The replay after ["S:2"] at time 1000000 reports ["S"] as resumed
    and sends nothing, although ["S:3"] follows ["S:2"]. *)
Lemma replay_skips_after_ttl_prune_witness :
  (replayEventsAfter (ev_id ev_S2) 1000000 ttl_prune_run).1 =
    ("S", (fun ev => (ev_id ev, ev_message ev)) <$> drop (length [ev_S1]) [ev_S3]) /\
  drop (length [ev_S1]) [ev_S3] = [].
Proof.
  split; [|reflexivity].
  apply (replay_skips_after_ttl_prune ttl_prune_run "S" (stream_of "S" ttl_prune_run)
           [ev_S1] [] ev_S2 [ev_S3] 1000000).
  - reflexivity.
  - done.
  - vm_compute. reflexivity.
  - rewrite ttl_prune_run_stream. exists [1; 2; 3]%nat. split; [reflexivity|].
    split; repeat constructor; lia.
  - apply ttl_prune_run_stream_index_ok.
  - vm_compute. reflexivity.
  - apply Forall_singleton. vm_compute. reflexivity.
  - vm_compute. discriminate.
  - vm_compute. lia.
Defined.

Lemma es_reachable_store_ok_witness :
  es_reachable None None ttl_prune_run /\ store_ok ttl_prune_run.
Proof.
  split; [apply ttl_prune_run_reachable|].
  apply (es_reachable_store_ok None None). apply ttl_prune_run_reachable.
Defined.

Lemma replayEventsAfter_exact_witness :
  replayEventsAfter "S:2" 300000 ttl_prune_run =
    ("S", [("S:3", "m3")], pruneStream "S" 300000 ttl_prune_run).
Proof.
  apply (replayEventsAfter_exact "S:2" 300000 ttl_prune_run "S" (stream_of "S" ttl_prune_run)
           [ev_S1] ev_S2 [ev_S3]).
  - reflexivity.
  - done.
  - vm_compute. reflexivity.
  - replace (prune_state _ _ 300000 _) with (stream_of "S" ttl_prune_run)
      by (vm_compute; reflexivity).
    apply ttl_prune_run_stream_index_ok.
  - vm_compute. reflexivity.
  - reflexivity.
Defined.

Lemma replayEventsAfter_increasing_witness :
  exists seqs, (replayEventsAfter "S:1" 300000 ttl_prune_run).1.2.*1 =
    makeEventId (replayEventsAfter "S:1" 300000 ttl_prune_run).1.1 <$> seqs /\
    StronglySorted lt seqs.
Proof.
  apply (replayEventsAfter_increasing "S:1" 300000 ttl_prune_run _ _
           (replayEventsAfter "S:1" 300000 ttl_prune_run).2).
  - apply ttl_prune_run_store_ok.
  - vm_compute. reflexivity.
Defined.

Lemma storeEvent_index_ok_witness :
  exists s', streams (storeEvent "S" "m4" 300000 ttl_prune_run).2 !! "S" = Some s' /\
             index_ok s'.
Proof.
  apply (storeEvent_index_ok "S" "m4" 300000 ttl_prune_run (stream_of "S" ttl_prune_run)).
  - apply ttl_prune_run_store_ok.
  - vm_compute. reflexivity.
  - apply ttl_prune_run_stream_index_ok.
  - vm_compute. reflexivity.
Defined.

Lemma parseStreamId_makeEventId_witness :
  before_colon "abc" = None /\ parseStreamId (makeEventId "abc" 12) = "abc".
Proof. split; [reflexivity|]. apply parseStreamId_makeEventId. reflexivity. Defined.
