(* ===== verification/QueueProcessor.v ===== *)
(** * The queue processor ([src/unnamed/part_001], first file: [QueueProcessor])

    Every poll, for each assistant in [CLIENTS = [claude; codex]], the
    processor reads the target's status from the database mirror
    ([isClientOnline]: the [clients] table, not the in-memory registry),
    dequeues at most 10 ready rows and attempts each: a row whose message
    is gone is removed; if the target went offline the row is retried
    with backoff; otherwise the message is marked [delivered] and the row
    removed.  A second timer sweeps the exhausted rows.

    Every store call of [attemptDelivery] is infallible here (no
    constraint can fail on an UPDATE or a DELETE of these tables), so the
    [catch] branch of [processQueueForTarget] is not reachable in the
    model; it would call [scheduleRetry] as the [retry] branch does. *)

From S2P Require Import Prelude Schema Clients Messages MessageQueue.

Inductive DeliveryResult := dr_delivered | dr_retry | dr_removed.

#[export] Instance DeliveryResult_eq_dec : EqDecision DeliveryResult.
Proof. solve_decision. Defined.

(** [CLIENTS]. *)
Definition CLIENTS : list ClientId := [claude; codex].

(** The backoff of [scheduleRetry]:
    [Math.min(30 * Math.pow(2, attempts), 3600)] seconds. *)
Definition retryDelay (attempts : Z) : Z := Z.min (30 * 2 ^ attempts) 3600.

(** [scheduleRetry]. *)
Definition scheduleRetry (item : QueuedMessage) (d : Db) : Db :=
  incrementAttempts (q_id item) (retryDelay (q_attempts item)) d.

(** [attemptDelivery]. *)
Definition attemptDelivery (target : ClientId) (item : QueuedMessage) (d : Db)
    : DeliveryResult * Db :=
  match getMessage d (q_message_id item) with
  | None => (dr_removed, (removeFromQueue (q_message_id item) d).2)
  | Some message =>
      if negb (isClientOnline d target) then (dr_retry, scheduleRetry item d)
      else (dr_delivered,
            (removeFromQueue (q_message_id item)
               (updateMessageStatus (msg_id message) ms_delivered d)).2)
  end.

(** The [for (const item of queued)] loop: results in order and the store. *)
Fixpoint deliver_all (target : ClientId) (items : list QueuedMessage) (d : Db)
    : list DeliveryResult * Db :=
  match items with
  | [] => ([], d)
  | item :: rest =>
      let '(r, d1) := attemptDelivery target item d in
      let '(rs, d2) := deliver_all target rest d1 in
      (r :: rs, d2)
  end.

(** [processQueueForTarget]: nothing when the target is offline. *)
Definition processQueueForTarget (target : ClientId) (d : Db) : list DeliveryResult * Db :=
  if negb (isClientOnline d target) then ([], d)
  else deliver_all target (dequeueMessages d target 10) d.

(** [processQueue]: the targets in the order of [CLIENTS]. *)
Definition processQueue (d : Db) : Db :=
  fold_left (fun d t => (processQueueForTarget t d).2) CLIENTS d.

(** [onClientOnline]: an immediate drain for the new client. *)
Definition onClientOnline (clientId : ClientId) (d : Db) : Db :=
  (processQueueForTarget clientId d).2.

(** The cleanup timer. *)
Definition cleanupTick (d : Db) : Db := (clearExhaustedMessages d).2.

(** ** The backoff *)

(** C25: The delay is 30 s doubled per attempt and capped at one hour. *)
Theorem retryDelay_bounds a :
  (0 <= a)%Z -> (30 <= retryDelay a <= 3600)%Z /\
  (a <= 6 -> retryDelay a = 30 * 2 ^ a)%Z /\
  (7 <= a -> retryDelay a = 3600)%Z.
Proof.
  intros Ha. unfold retryDelay. pose proof (Z.pow_pos_nonneg 2 a ltac:(lia) Ha).
  split; [|split].
  - split; [|lia]. apply Z.min_glb; lia.
  - intros Hle. apply Z.min_l.
    assert (2 ^ a <= 2 ^ 6)%Z by (apply Z.pow_le_mono_r; lia). simpl in *. lia.
  - intros Hge. apply Z.min_r.
    assert (2 ^ 7 <= 2 ^ a)%Z by (apply Z.pow_le_mono_r; lia). simpl in *. lia.
Qed.

Example retryDelay_progression :
  map retryDelay [0; 1; 2; 3; 4; 5; 6; 7]%Z = [30; 60; 120; 240; 480; 960; 1920; 3600]%Z.
Proof. reflexivity. Qed.

(** ** One attempt *)

Lemma attemptDelivery_clients target item d :
  db_clients (attemptDelivery target item d).2 = db_clients d.
Proof.
  unfold attemptDelivery. destruct (getMessage d _); [|done].
  by destruct (isClientOnline d target).
Qed.

Lemma attemptDelivery_online target item d c :
  isClientOnline (attemptDelivery target item d).2 c = isClientOnline d c.
Proof.
  unfold isClientOnline, getClient. by rewrite attemptDelivery_clients.
Qed.

(** A message is delivered and has no queue row. *)
Definition delivered_and_dequeued (mid : Uuid) (d : Db) : Prop :=
  (exists m, getMessage d mid = Some m /\ msg_status m = ms_delivered) /\
  mid ∉ q_message_id <$> db_queue d.

Lemma removeFromQueue_ids mid d x :
  x ∈ q_message_id <$> db_queue (removeFromQueue mid d).2 ->
  x ∈ q_message_id <$> db_queue d /\ x <> mid.
Proof.
  intros (q & -> & Hq)%list_elem_of_fmap. apply removeFromQueue_spec in Hq as [Hq Hne].
  split; [|done]. apply list_elem_of_fmap. by exists q.
Qed.

(** An attempt on another message's row leaves the message and its
    (absent) row as they were, and never removes a message. *)
Lemma attemptDelivery_other target item d mid :
  q_message_id item <> mid ->
  getMessage (attemptDelivery target item d).2 mid = getMessage d mid /\
  (mid ∈ q_message_id <$> db_queue (attemptDelivery target item d).2 ->
   mid ∈ q_message_id <$> db_queue d).
Proof.
  intros Hne. unfold attemptDelivery.
  destruct (getMessage d (q_message_id item)) as [m|] eqn:Hm.
  - destruct (isClientOnline d target); simpl.
    + split.
      * unfold getMessage. simpl. change (getMessage (updateMessageStatus (msg_id m) ms_delivered d) mid
                                          = getMessage d mid).
        rewrite getMessage_updateMessageStatus.
        apply find_message_Some in Hm as [_ ->]. by destruct (N.eqb_spec mid (q_message_id item)).
      * intros Hin. by apply removeFromQueue_ids in Hin as [Hin _].
    + split; [done|]. unfold scheduleRetry, incrementAttempts. simpl.
      by rewrite fmap_map_ext by (intros q; by destruct (q_id q =? _)%N).
  - simpl. split; [done|]. intros Hin. by apply removeFromQueue_ids in Hin as [Hin _].
Qed.

Lemma attemptDelivery_keeps target item d mid :
  q_message_id item <> mid -> delivered_and_dequeued mid d ->
  delivered_and_dequeued mid (attemptDelivery target item d).2.
Proof.
  intros Hne [Hm Hq]. destruct (attemptDelivery_other target item d mid Hne) as [E1 E2].
  split; [by rewrite E1|]. intros Hin. by apply Hq, E2.
Qed.

(** An attempt on the message's own row, with the target online and the
    message present, delivers it and removes the row. *)
Lemma attemptDelivery_self target item d m :
  isClientOnline d target = true -> getMessage d (q_message_id item) = Some m ->
  attemptDelivery target item d =
    (dr_delivered, (removeFromQueue (q_message_id item)
                      (updateMessageStatus (msg_id m) ms_delivered d)).2) /\
  delivered_and_dequeued (q_message_id item) (attemptDelivery target item d).2.
Proof.
  intros Hon Hm. unfold attemptDelivery. rewrite Hm, Hon. simpl. split; [done|].
  pose proof Hm as Hid. apply find_message_Some in Hid as [_ Hid]. split.
  - exists (set_status_row (db_clock d) ms_delivered m). split; [|done].
    change (getMessage (updateMessageStatus (msg_id m) ms_delivered d) (q_message_id item)
            = Some (set_status_row (db_clock d) ms_delivered m)).
    by rewrite getMessage_updateMessageStatus, Hid, N.eqb_refl, Hm.
  - intros Hin.
    by apply (removeFromQueue_ids _ (updateMessageStatus (msg_id m) ms_delivered d)) in Hin
      as [_ Hne].
Qed.

(** ** The drain *)

Lemma deliver_all_keeps target items d mid :
  Forall (fun it => q_message_id it <> mid) items -> delivered_and_dequeued mid d ->
  delivered_and_dequeued mid (deliver_all target items d).2.
Proof.
  revert d. induction items as [|it rest IH]; intros d Hall Hd; simpl; [done|].
  apply Forall_cons in Hall as [Hit Hall].
  destruct (attemptDelivery target it d) as [r d1] eqn:E.
  destruct (deliver_all target rest d1) as [rs d2] eqn:E2. simpl.
  change d2 with (rs, d2).2. rewrite <- E2. apply IH; [done|].
  change d1 with (r, d1).2. rewrite <- E. by apply attemptDelivery_keeps.
Qed.

Lemma deliver_all_delivers target items d item m :
  NoDup (q_message_id <$> items) -> item ∈ items ->
  isClientOnline d target = true -> getMessage d (q_message_id item) = Some m ->
  delivered_and_dequeued (q_message_id item) (deliver_all target items d).2.
Proof.
  revert d. induction items as [|it rest IH]; intros d Hnd Hin Hon Hm;
    [by apply elem_of_nil in Hin|].
  rewrite fmap_cons in Hnd. apply NoDup_cons in Hnd as [Hnin Hnd]. simpl.
  destruct (attemptDelivery target it d) as [r d1] eqn:E.
  destruct (deliver_all target rest d1) as [rs d2] eqn:E2. simpl.
  change d2 with (rs, d2).2. rewrite <- E2.
  apply elem_of_cons in Hin as [->|Hin].
  - apply deliver_all_keeps.
    + apply Forall_forall. intros x Hx Heq. apply Hnin, list_elem_of_fmap. by exists x.
    + change d1 with (r, d1).2. rewrite <- E. eapply attemptDelivery_self; eauto.
  - assert (Hne : q_message_id it <> q_message_id item).
    { intros Heq. apply Hnin. rewrite Heq. apply list_elem_of_fmap. by exists item. }
    destruct (attemptDelivery_other target it d (q_message_id item) Hne) as [E1 _].
    apply IH; [done|done| |].
    + change d1 with (r, d1).2. rewrite <- E. by rewrite attemptDelivery_online.
    + change d1 with (r, d1).2. rewrite <- E, E1. exact Hm.
Qed.

Lemma dequeueMessages_NoDup d target limit :
  db_wf d -> NoDup (q_message_id <$> dequeueMessages d target limit).
Proof.
  intros Hwf. unfold dequeueMessages. rewrite fmap_take. apply NoDup_take.
  rewrite (isort_perm _ _). apply NoDup_fmap_filter, (wf_queue_unique _ Hwf).
Qed.

(** A drain with the target online delivers every dequeued row whose
    message exists: the message is [delivered] and its row is gone. *)
Lemma drain_delivers_dequeued target d q m :
  db_wf d -> isClientOnline d target = true ->
  q ∈ dequeueMessages d target 10 -> getMessage d (q_message_id q) = Some m ->
  delivered_and_dequeued (q_message_id q) (processQueueForTarget target d).2.
Proof.
  intros Hwf Hon Hq Hm. unfold processQueueForTarget. rewrite Hon. simpl.
  eapply deliver_all_delivers; [by apply dequeueMessages_NoDup|done|done|exact Hm].
Qed.

(** C23: A drain with the target online marks every dequeued row's message [delivered] and removes its row. *)
Theorem processQueueForTarget_delivers target d q m :
  db_wf d -> isClientOnline d target = true ->
  q ∈ dequeueMessages d target 10 -> getMessage d (q_message_id q) = Some m ->
  delivered_and_dequeued (q_message_id q) (processQueueForTarget target d).2.
Proof. exact (drain_delivers_dequeued target d q m). Qed.

(** With the target offline in the mirror, a drain changes nothing. *)
Lemma processQueueForTarget_offline target d :
  isClientOnline d target = false -> processQueueForTarget target d = ([], d).
Proof. intros H. unfold processQueueForTarget. by rewrite H. Qed.

(** ** Interleaving at the [await]s of the loop

    [await this.attemptDelivery(...)] yields between two rows, so another
    continuation may change the database there (a session closing marks
    its client offline, another drain removes rows).  [env] lists those
    changes, one per gap before each row; a missing entry is no change. *)
Fixpoint deliver_interleaved (target : ClientId) (items : list QueuedMessage)
    (env : list (Db -> Db)) (d : Db) : list DeliveryResult * Db :=
  match items with
  | [] => ([], d)
  | item :: rest =>
      let d0 := hd id env d in
      let '(r, d1) := attemptDelivery target item d0 in
      let '(rs, d2) := deliver_interleaved target rest (tl env) d1 in
      (r :: rs, d2)
  end.

(** With no interleaved change the loop is [deliver_all]. *)
Lemma deliver_interleaved_nil target items d :
  deliver_interleaved target items [] d = deliver_all target items d.
Proof.
  revert d. induction items as [|it rest IH]; intros d; simpl; [done|].
  destruct (attemptDelivery target it d) as [r d1]. by rewrite IH.
Qed.

(** A retry: one more attempt, due after the backoff delay. *)
Lemma attemptDelivery_retry target item d m :
  getMessage d (q_message_id item) = Some m -> isClientOnline d target = false ->
  attemptDelivery target item d = (dr_retry, scheduleRetry item d) /\
  (item ∈ db_queue d ->
   bump_attempt (db_clock d) (retryDelay (q_attempts item)) item
     ∈ db_queue (attemptDelivery target item d).2).
Proof.
  intros Hm Hoff. unfold attemptDelivery. rewrite Hm, Hoff. split; [done|].
  intros Hin. by apply incrementAttempts_row.
Qed.

(** C26: A target that disconnects in the gap before a row gets that row
    retried with backoff, not delivered, and its message stays queued. *)
Theorem disconnect_mid_drain_retries target item rest env d m :
  item ∈ db_queue d -> getMessage d (q_message_id item) = Some m ->
  (deliver_interleaved target (item :: rest) (setClientOffline target :: env) d).1
    = dr_retry :: (deliver_interleaved target rest env
                     (scheduleRetry item (setClientOffline target d))).1 /\
  bump_attempt (db_clock d) (retryDelay (q_attempts item)) item
    ∈ db_queue (scheduleRetry item (setClientOffline target d)).
Proof.
  intros Hin Hm. simpl.
  destruct (attemptDelivery_retry target item (setClientOffline target d) m)
    as [E Hrow]; [exact Hm|apply setClientOffline_offline|].
  rewrite E. split; [by destruct (deliver_interleaved _ _ _ _)|].
  rewrite E in Hrow. by apply Hrow.
Qed.

(** ** Exhaustion *)

(** C27: A row whose last allowed attempt is retried is never dequeued again
    and the next cleanup tick deletes it. *)
Theorem retry_exhausts target item d m :
  item ∈ db_queue d -> getMessage d (q_message_id item) = Some m ->
  isClientOnline d target = false ->
  (q_attempts item + 1 = q_max_attempts item)%Z ->
  let row := bump_attempt (db_clock d) (retryDelay (q_attempts item)) item in
  let d' := (attemptDelivery target item d).2 in
  row ∈ db_queue d' /\
  (forall t limit, row ∉ dequeueMessages d' t limit) /\
  row ∉ db_queue (cleanupTick d').
Proof.
  intros Hin Hm Hoff Hmax row d'.
  destruct (attemptDelivery_retry target item d m Hm Hoff) as [_ Hrow].
  assert (Hex : (q_max_attempts row <= q_attempts row)%Z) by (simpl; lia).
  split; [by apply Hrow|]. split.
  - intros t limit Hdq. apply dequeue_sound in Hdq. lia.
  - unfold cleanupTick. intros Hc. apply (proj1 (clear_exhausted_spec d')) in Hc. lia.
Qed.

(** A ready row of an online target is, after one drain, delivered and
    gone, unless the batch was already full with ten rows that come
    before it in the queue's order. *)
Lemma drain_or_full target d q m :
  db_wf d -> isClientOnline d target = true ->
  q ∈ db_queue d -> q_ready (db_clock d) target q = true ->
  getMessage d (q_message_id q) = Some m ->
  delivered_and_dequeued (q_message_id q) (processQueueForTarget target d).2 \/
  (length (dequeueMessages d target 10) = 10%nat /\
   forall q', q' ∈ dequeueMessages d target 10 -> q_before q' q = true).
Proof.
  intros Hwf Hon Hq Hr Hm.
  destruct (decide (q ∈ dequeueMessages d target 10)) as [Hin|Hout].
  - left. eapply drain_delivers_dequeued; eauto.
  - right. by apply dequeue_complete.
Qed.

(** C24: A ready row of an online target is delivered and removed by one drain, unless the batch is already full of ten rows ahead of it. *)
Theorem drain_delivers_or_batch_full target d q m :
  db_wf d -> isClientOnline d target = true ->
  q ∈ db_queue d -> q_ready (db_clock d) target q = true ->
  getMessage d (q_message_id q) = Some m ->
  delivered_and_dequeued (q_message_id q) (processQueueForTarget target d).2 \/
  (length (dequeueMessages d target 10) = 10%nat /\
   forall q', q' ∈ dequeueMessages d target 10 -> q_before q' q = true).
Proof. exact (drain_or_full target d q m). Qed.

(** ** Witnesses on [demo_db] *)

Lemma processQueueForTarget_delivers_witness :
  delivered_and_dequeued 2 (processQueueForTarget claude demo_db).2.
Proof.
  apply (processQueueForTarget_delivers claude demo_db q_demo1 msg_demo2).
  - apply demo_db_wf.
  - reflexivity.
  - apply (bool_decide_unpack _). vm_compute. reflexivity.
  - vm_compute. reflexivity.
Defined.

Lemma drain_delivers_or_batch_full_witness :
  delivered_and_dequeued 2 (processQueueForTarget claude demo_db).2 \/
  (length (dequeueMessages demo_db claude 10) = 10%nat /\
   forall q', q' ∈ dequeueMessages demo_db claude 10 -> q_before q' q_demo1 = true).
Proof.
  apply (drain_delivers_or_batch_full claude demo_db q_demo1 msg_demo2).
  - apply demo_db_wf.
  - reflexivity.
  - apply (bool_decide_unpack _). vm_compute. reflexivity.
  - vm_compute. reflexivity.
  - vm_compute. reflexivity.
Defined.

Lemma retryDelay_bounds_witness :
  (0 <= 3)%Z /\ ((30 <= retryDelay 3 <= 3600)%Z /\
  (3 <= 6 -> retryDelay 3 = 30 * 2 ^ 3)%Z /\ (7 <= 3 -> retryDelay 3 = 3600)%Z).
Proof. split; [lia|]. apply retryDelay_bounds. lia. Defined.

Lemma disconnect_mid_drain_retries_witness :
  (deliver_interleaved claude [q_demo1; q_demo2] [setClientOffline claude] demo_db).1
    = dr_retry :: (deliver_interleaved claude [q_demo2] []
                     (scheduleRetry q_demo1 (setClientOffline claude demo_db))).1 /\
  bump_attempt (db_clock demo_db) (retryDelay (q_attempts q_demo1)) q_demo1
    ∈ db_queue (scheduleRetry q_demo1 (setClientOffline claude demo_db)).
Proof.
  apply (disconnect_mid_drain_retries claude q_demo1 [q_demo2] [] demo_db msg_demo2).
  - apply (bool_decide_unpack _). vm_compute. reflexivity.
  - vm_compute. reflexivity.
Defined.

Lemma retry_exhausts_witness :
  let d := setClientOffline claude demo_db in
  let row := bump_attempt (db_clock d) (retryDelay (q_attempts q_demo2)) q_demo2 in
  let d' := (attemptDelivery claude q_demo2 d).2 in
  row ∈ db_queue d' /\ (forall t limit, row ∉ dequeueMessages d' t limit) /\
  row ∉ db_queue (cleanupTick d').
Proof.
  apply (retry_exhausts claude q_demo2 (setClientOffline claude demo_db) msg_demo3).
  - apply (bool_decide_unpack _). vm_compute. reflexivity.
  - vm_compute. reflexivity.
  - reflexivity.
  - reflexivity.
Defined.
