(* ===== verification/Dispatcher.v ===== *)
(** * The message dispatcher ([src/unnamed/part_002]: [router/dispatcher.ts])

    [sendMessage] finds or creates the conversation, stores the message,
    and then takes one of three routes by the in-memory registry: an
    online target gets the message marked [delivered]; an offline Codex
    is invoked (tier 2, the Codex MCP server, then tier 3, the [codex
    exec] subprocess) and its answer stored as a response; any other
    offline target gets a queue row.  It may then poll for a response
    with [waitForResponse].

    The two Codex tiers and the timer are interfaces here ([CodexTiers],
    [Runtime]): the MCP client talks to a separate process and the
    invoker ([router/invoker.ts]) is not among the sources, so their laws
    state only what the dispatcher relies on. *)

From stdpp Require Import pretty.
From S2P Require Import Prelude Schema Clients Conversations Messages MessageQueue Registry.
From S2P Require Import Agents QueueProcessor.

(** [SendMessageOpts]; [metadata] already serialised. *)
Record SendMessageOpts := mkSendMessageOpts {
  smo_conversationId : option Uuid;
  smo_sender : ClientId;
  smo_target : ClientId;
  smo_content : string;
  smo_messageType : option MessageType;
  smo_priority : option MessagePriority;
  smo_waitForResponse : bool;
  smo_timeoutMs : option Z;
  smo_useOutputSchema : option bool;
  smo_metadata : option string;
  smo_agent : option AgentName;
}.

(** [SendMessageResult]; an absent optional field is [None]. *)
Record SendMessageResult := mkSendMessageResult {
  smr_message : Message;
  smr_conversation : Conversation;
  smr_response : option Message;
  smr_invoked : option bool;
  smr_invokedViaMcp : option bool;
  smr_invocationError : option string;
  smr_selectedAgent : option string;
}.

(** What [invokeCodexExec] returns. *)
Record InvocationResult := mkInvocationResult {
  ir_success : bool;
  ir_response : option string;
  ir_stderr : string;
}.

(** The two Codex tiers.  [mcp_send] is [codexMcpClient.sendMessage]
    followed by [result.response]: [None] when it throws or returns no
    response; it does not touch the database.  [exec_invoke] runs [codex
    exec] and records the invocation: it may write the [invocations]
    table, draw UUIDs and take time, and leaves the other tables alone. *)
Class CodexTiers := {
  mcp_send : string -> Uuid -> AgentPersona -> option string;
  exec_invoke : Message -> string -> Z -> bool -> Db -> InvocationResult * Db;
  exec_frame : forall m ctx t s d,
    let d' := (exec_invoke m ctx t s d).2 in
    db_clients d' = db_clients d /\ db_conversations d' = db_conversations d /\
    db_messages d' = db_messages d /\ db_queue d' = db_queue d /\
    db_context d' = db_context d /\ (db_uuid d <= db_uuid d')%N;
}.

(** The event loop around [await new Promise(r => setTimeout(r, ms))]:
    the [k]-th sleep of [iv] eighths of a millisecond lets the clock
    advance by at least the delay (a timer never fires early) and lets
    other handlers run, which keep the store well formed. *)
Class Runtime := {
  sleep : nat -> Z -> Db -> Db;
  sleep_advances : forall k iv d, (db_clock d + iv / 8 <= db_clock (sleep k iv d))%Z;
  sleep_wf : forall k iv d, db_wf d -> db_wf (sleep k iv d);
}.

(** The dispatcher's fields. *)
Record MessageDispatcher := mkMessageDispatcher {
  md_clientRegistry : option ClientRegistry;
  md_codexMcpEnabled : bool;
}.

(** [getResponseType]. *)
Definition getResponseType (requestType : option MessageType) : option MessageType :=
  match requestType with
  | Some mt_research_request => Some mt_research_response
  | Some mt_review_request => Some mt_review_response
  | _ => Some mt_message
  end.

(** [priorityMap[opts.priority ?? "normal"]]. *)
Definition priorityMap (p : option MessagePriority) : Z :=
  match p with Some prio_urgent => 2 | Some prio_high => 1 | _ => 0 end.

Definition client_name (c : ClientId) : string :=
  match c with claude => "claude" | codex => "codex" end.

(** The line feed. *)
Definition lf : Ascii.ascii := Ascii.ascii_of_nat 10.

(** [[sender]: content], the messages joined by a blank line. *)
Fixpoint join_context (ms : list Message) : string :=
  match ms with
  | [] => EmptyString
  | [m] => "[" +:+ client_name (msg_sender m) +:+ "]: " +:+ msg_content m
  | m :: ms' => "[" +:+ client_name (msg_sender m) +:+ "]: " +:+ msg_content m +:+
                String lf (String lf (join_context ms'))
  end.

(** [buildConversationContext]: the first 20 messages in [created_at] order. *)
Definition buildConversationContext (d : Db) (conversationId : Uuid) : string :=
  join_context (getConversationMessages d conversationId 20 0).

Definition newline : string := String lf EmptyString.

(** The prompt [tryCodexMcpServer] sends. *)
Definition mcp_prompt (content conversationContext : string) : string :=
  if bool_decide (conversationContext = EmptyString) then content
  else "Previous conversation:" +:+ newline +:+ conversationContext +:+ newline +:+ newline
       +:+ "New message:" +:+ newline +:+ content.

(** ** The polling loop of [waitForResponse]

    Intervals are in eighths of a millisecond so that the [* 1.5]
    backoff is exact: 100, 150, 225, 337.5, 506.25, 759.375 ms are
    800, 1200, 1800, 2700, 4050, 6075; the next product (9112.5) is
    above the cap 1000 ms = 8000, where the floor of [Z.div] cannot
    matter. *)
Definition maxPollInterval : Z := 8000.

Definition next_poll (pollInterval : Z) : Z := Z.min (pollInterval * 3 / 2) maxPollInterval.

Section Wait.
Context `{Runtime}.

(** The [while (Date.now() - startTime < timeoutMs)] loop; [k] counts
    the sleeps; [None] only when the fuel runs out. *)
Fixpoint wait_loop (fuel k : nat) (messageId : Uuid) (startTime timeoutMs pollInterval : Z)
    (d : Db) : option (option Message * Db) :=
  match fuel with
  | O => None
  | S f =>
      if Z.ltb (db_clock d - startTime) timeoutMs then
        match getResponseToMessage d messageId with
        | Some r => Some (Some r, d)
        | None => wait_loop f (S k) messageId startTime timeoutMs (next_poll pollInterval)
                    (sleep k pollInterval d)
        end
      else Some (None, d)
  end.

(** Every sleep lasts at least 100 ms, so [ceil(timeout / 100) + 1]
    checks of the condition suffice ([wait_terminates]). *)
Definition wait_fuel (timeoutMs : Z) : nat := S (Z.to_nat ((timeoutMs + 99) / 100)).

(** [waitForResponse]. *)
Definition waitForResponse (messageId : Uuid) (timeoutMs : Z) : ST Db (option Message) :=
  fun d =>
    match wait_loop (wait_fuel timeoutMs) 0 messageId (db_clock d) timeoutMs 800 d with
    | Some (r, d') => Ok (r, d')
    | None => Ok (None, d)
    end.
End Wait.

(** ** [sendMessage] *)

Section Send.
Context `{CodexTiers} `{Runtime}.

(** [tryCodexMcpServer]: [null] when the client is disabled, when it
    fails, or when the response is empty (falsy). *)
Definition tryCodexMcpServer (md : MessageDispatcher) (content conversationContext : string)
    (messageId : Uuid) (persona : AgentPersona) : option string :=
  if negb (md_codexMcpEnabled md) then None
  else match mcp_send (mcp_prompt content conversationContext) messageId persona with
       | Some r => if bool_decide (r = EmptyString) then None else Some r
       | None => None
       end.

(** [getAgent(opts.agent)] for an [AgentName]; [getAgent_spec] shows
    the persona branch is the one taken. *)
Definition persona_for (a : AgentName) : AgentPersona :=
  match getAgent (Some (agent_name_string a)) with
  | av_persona p => p
  | av_inherited _ => AGENT_PERSONAS a
  end.

(** [getConversation] or [createConversation({created_by: sender})]. *)
Definition get_or_create_conversation (opts : SendMessageOpts) : ST Db Conversation :=
  match smo_conversationId opts with
  | Some cid => fun d =>
      match getConversation d cid with
      | Some c => Ok (c, d)
      | None => Fail (ErrThrown ("Conversation not found: " +:+ pretty cid))
      end
  | None => createConversation (mkCreateConversationInput None None (smo_sender opts) None)
  end.

(** The response row of either tier, and the [responded] mark. *)
Definition store_response (opts : SendMessageOpts) (conversation : Conversation)
    (message : Message) (content : string) : ST Db Message :=
  do r <- createMessage (mkCreateMessageInput (conv_id conversation) (smo_target opts)
                           (smo_sender opts) content (getResponseType (smo_messageType opts))
                           None (Some (msg_id message)) None);
  do _ <- st_modify (updateMessageStatus (msg_id message) ms_responded);
  st_ret r.

(** Tier 2 then tier 3 for an offline Codex. *)
Definition codex_route (md : MessageDispatcher) (opts : SendMessageOpts)
    (conversation : Conversation) (message : Message) : ST Db SendMessageResult :=
  fun d =>
    let ctx := buildConversationContext d (conv_id conversation) in
    let persona := match smo_agent opts with
                   | Some a => persona_for a
                   | None => selectAgent (smo_content opts)
                   end in
    let sel := Some (persona_name persona) in
    match tryCodexMcpServer md (smo_content opts) ctx (msg_id message) persona with
    | Some resp =>
        (do r <- store_response opts conversation message resp;
         st_ret (mkSendMessageResult message conversation (Some r) (Some true) (Some true)
                   None sel)) d
    | None =>
        let '(ir, d1) := exec_invoke message ctx (default 300000%Z (smo_timeoutMs opts))
                           (default true (smo_useOutputSchema opts)) d in
        let has_response := match ir_response ir with
                            | Some s => negb (bool_decide (s = EmptyString))
                            | None => false
                            end in
        let err := if negb (ir_success ir) && negb has_response
                   then Some (if bool_decide (ir_stderr ir = EmptyString)
                              then "Invocation failed with no output" else ir_stderr ir)
                   else None in
        match ir_response ir with
        | Some s =>
            if has_response then
              (do r <- store_response opts conversation message s;
               st_ret (mkSendMessageResult message conversation (Some r) (Some true) None
                         err sel)) d1
            else Ok (mkSendMessageResult message conversation None (Some true) None err sel, d1)
        | None => Ok (mkSendMessageResult message conversation None (Some true) None err sel, d1)
        end
    end.

Definition targetOnline (md : MessageDispatcher) (target : ClientId) : bool :=
  match md_clientRegistry md with Some r => isOnline r target | None => false end.

(** The [createMessage] argument of [sendMessage]. *)
Definition send_input (opts : SendMessageOpts) (conversation : Conversation)
    : CreateMessageInput :=
  mkCreateMessageInput (conv_id conversation) (smo_sender opts) (smo_target opts)
    (smo_content opts) (smo_messageType opts) (smo_priority opts) None (smo_metadata opts).

(** The three routes of [sendMessage] by the registry's view of the target. *)
Definition route (md : MessageDispatcher) (opts : SendMessageOpts)
    (conversation : Conversation) (message : Message) : ST Db SendMessageResult :=
  let result := mkSendMessageResult message conversation None None None None None in
  if targetOnline md (smo_target opts) then
    do _ <- st_modify (updateMessageStatus (msg_id message) ms_delivered); st_ret result
  else if bool_decide (smo_target opts = codex) then codex_route md opts conversation message
  else
    do _ <- enqueueMessage (msg_id message) (smo_target opts)
              (Some (priorityMap (smo_priority opts))) (Some 5%Z);
    st_ret result.

(** [if (opts.waitForResponse && !result.response)]: poll. *)
Definition finish_wait (opts : SendMessageOpts) (message : Message)
    (result : SendMessageResult) : ST Db SendMessageResult :=
  if smo_waitForResponse opts && bool_decide (smr_response result = None) then
    do response <- waitForResponse (msg_id message) (default 60000%Z (smo_timeoutMs opts));
    match response with
    | Some r => st_ret (mkSendMessageResult (smr_message result) (smr_conversation result)
                          (Some r) (smr_invoked result) (smr_invokedViaMcp result)
                          (smr_invocationError result) (smr_selectedAgent result))
    | None => st_ret result
    end
  else st_ret result.

(** [sendMessage]. *)
Definition sendMessage (md : MessageDispatcher) (opts : SendMessageOpts)
    : ST Db SendMessageResult :=
  do conversation <- get_or_create_conversation opts;
  do message <- createMessage (send_input opts conversation);
  do result <- route md opts conversation message;
  finish_wait opts message result.
End Send.

(** ** [waitForResponse]: termination and result *)

Lemma next_poll_bounds iv : (800 <= iv)%Z -> (800 <= next_poll iv <= maxPollInterval)%Z.
Proof.
  intros H. unfold next_poll, maxPollInterval.
  assert (800 <= iv * 3 / 2)%Z by (apply Z.div_le_lower_bound; lia). lia.
Qed.

(** The poll intervals: 100, 150, 225, 337.5, 506.25, 759.375 ms, then
    the 1000 ms cap. *)
Example next_poll_sequence :
  map (fun n => Nat.iter n next_poll 800%Z) (seq 0 8) =
    [800; 1200; 1800; 2700; 4050; 6075; 8000; 8000]%Z.
Proof. reflexivity. Qed.

Section WaitProofs.
Context `{Runtime}.

Lemma sleep_at_least_100 k iv d :
  (800 <= iv)%Z -> (db_clock d + 100 <= db_clock (sleep k iv d))%Z.
Proof.
  intros Hiv. pose proof (sleep_advances k iv d).
  assert (100 <= iv / 8)%Z by (apply Z.div_le_lower_bound; lia). lia.
Qed.

(** [n + 1] checks suffice while the time left is at most [100 n] ms. *)
Lemma wait_loop_total n k mid start t iv d :
  (t - (db_clock d - start) <= 100 * Z.of_nat n)%Z -> (800 <= iv)%Z ->
  is_Some (wait_loop (S n) k mid start t iv d).
Proof.
  revert k iv d. induction n as [|n IH]; intros k iv d Hleft Hiv; simpl.
  - destruct (Z.ltb_spec (db_clock d - start) t); [lia|by eexists].
  - destruct (Z.ltb_spec (db_clock d - start) t); [|by eexists].
    destruct (getResponseToMessage d mid); [by eexists|].
    apply IH; [|apply next_poll_bounds, Hiv].
    pose proof (sleep_at_least_100 k iv d Hiv). lia.
Qed.

(** Each run of the loop returns a response that is in the store when
    it returns, within the timeout, or returns [null] once the timeout
    has elapsed; the invariant of the store is kept across the sleeps. *)
Lemma wait_loop_spec n k mid start t iv d r d' :
  wait_loop n k mid start t iv d = Some (r, d') ->
  (match r with
   | Some m => getResponseToMessage d' mid = Some m /\ (db_clock d' - start < t)%Z
   | None => (t <= db_clock d' - start)%Z
   end) /\ (db_wf d -> db_wf d').
Proof.
  revert k iv d. induction n as [|n IH]; intros k iv d Hrun; [done|]. simpl in Hrun.
  destruct (Z.ltb_spec (db_clock d - start) t).
  - destruct (getResponseToMessage d mid) as [m|] eqn:E.
    + injection Hrun as <- <-. done.
    + apply IH in Hrun as [Hr Hwf]. split; [done|]. intros Hd. by apply Hwf, sleep_wf.
  - injection Hrun as <- <-. done.
Qed.

(** [waitForResponse] always finishes within its fuel. *)
Lemma wait_terminates mid t d :
  is_Some (wait_loop (wait_fuel t) 0 mid (db_clock d) t 800 d).
Proof.
  apply wait_loop_total; [|lia].
  assert (t <= 100 * ((t + 99) / 100))%Z.
  { pose proof (Z.div_mod (t + 99) 100 ltac:(lia)).
    pose proof (Z.mod_pos_bound (t + 99) 100 ltac:(lia)). lia. }
  destruct (Z.le_gt_cases ((t + 99) / 100) 0); [rewrite Z2Nat.nonpos by lia; lia|].
  rewrite Z2Nat.id by lia. lia.
Qed.

(** C13: [waitForResponse] always finishes: its fuel [ceil(timeout/100) + 1] is enough, because every sleep lasts at least 100 ms. *)
Theorem waitForResponse_terminates mid t d :
  is_Some (wait_loop (wait_fuel t) 0 mid (db_clock d) t 800 d).
Proof. exact (wait_terminates mid t d). Qed.

(** [waitForResponse] returns the response found within the timeout, or
    [null] after the timeout; it never gives up early. *)
Lemma wait_spec mid t d :
  exists r d', waitForResponse mid t d = Ok (r, d') /\
    (match r with
     | Some m => getResponseToMessage d' mid = Some m /\ (db_clock d' - db_clock d < t)%Z
     | None => (t <= db_clock d' - db_clock d)%Z
     end) /\ (db_wf d -> db_wf d').
Proof.
  destruct (wait_terminates mid t d) as [[r d'] Hrun].
  exists r, d'. unfold waitForResponse. rewrite Hrun. split; [done|].
  exact (wait_loop_spec _ _ _ _ _ _ _ _ _ Hrun).
Qed.

(** C14: [waitForResponse] returns a response that is stored when it returns, within the timeout, or [null] only once the timeout has elapsed, and it keeps the invariant of the store. *)
Theorem waitForResponse_spec mid t d :
  exists r d', waitForResponse mid t d = Ok (r, d') /\
    (match r with
     | Some m => getResponseToMessage d' mid = Some m /\ (db_clock d' - db_clock d < t)%Z
     | None => (t <= db_clock d' - db_clock d)%Z
     end) /\ (db_wf d -> db_wf d').
Proof. exact (wait_spec mid t d). Qed.

(** A response already stored is returned at once, without sleeping. *)
Lemma waitForResponse_immediate mid t d m :
  (0 < t)%Z -> getResponseToMessage d mid = Some m ->
  waitForResponse mid t d = Ok (Some m, d).
Proof.
  intros Ht Hm. unfold waitForResponse, wait_fuel. simpl.
  rewrite Z.sub_diag. destruct (Z.ltb_spec 0 t); [|lia]. by rewrite Hm.
Qed.
End WaitProofs.

(** ** [sendMessage]: the conversation and the message *)

(** A [conversationId], when given, names an existing conversation. *)
Definition conv_given_ok (d : Db) (opts : SendMessageOpts) : Prop :=
  match smo_conversationId opts with
  | Some cid => is_Some (getConversation d cid)
  | None => True
  end.

Lemma getClient_is_Some d c : db_wf d -> is_Some (getClient d c).
Proof. intros Hwf. destruct (clients_ok_getClient d c (wf_clients _ Hwf)) as (x & Hx & _). by eexists. Qed.

Lemma get_or_create_ok opts d :
  db_wf d -> conv_given_ok d opts ->
  exists c d1, get_or_create_conversation opts d = Ok (c, d1) /\ db_wf d1 /\
    getConversation d1 (conv_id c) = Some c /\ db_clients d1 = db_clients d /\
    db_clock d1 = db_clock d.
Proof.
  intros Hwf Hg. unfold conv_given_ok, get_or_create_conversation in *.
  destruct (smo_conversationId opts) as [cid|].
  - destruct Hg as [c Hc]. exists c, d. rewrite Hc. split; [done|]. split; [done|].
    split; [|done]. pose proof Hc as Hc'. apply find_conversation_Some in Hc' as [_ ->]. exact Hc.
  - destruct (createConversation_wf_ok (mkCreateConversationInput None None (smo_sender opts) None)
                d Hwf) as (c & d1 & E & _ & Hget & Hwf1 & Hcl & _ & _ & Hclk).
    exists c, d1. done.
Qed.

Lemma send_fks_ok opts c d :
  db_wf d -> getConversation d (conv_id c) = Some c ->
  message_fks_ok d (send_input opts c) = true.
Proof.
  intros Hwf Hc. unfold message_fks_ok, send_input. simpl.
  rewrite Hc, !bool_decide_true by (by apply getClient_is_Some || by eexists). done.
Qed.

Lemma fresh_not_queued d : db_wf d -> db_uuid d ∉ q_message_id <$> db_queue d.
Proof.
  intros Hwf (q & Hq & Hin)%list_elem_of_fmap.
  eapply Forall_forall in Hin; [|exact (wf_queue_msg _ Hwf)]. simpl in Hin.
  pose proof (fresh_message_id d Hwf) as Hf. unfold getMessage in Hf.
  rewrite <- Hq, Hf in Hin. by destruct Hin.
Qed.

(** What [sendMessage] has done when it reaches its routes: the
    conversation exists, the message is stored [pending] with a fresh id,
    nothing answers it and no queue row names it. *)
Lemma sendMessage_prefix `{CodexTiers} `{Runtime} md opts d :
  db_wf d -> conv_given_ok d opts ->
  exists c m d2,
    sendMessage md opts d = (do result <- route md opts c m; finish_wait opts m result) d2 /\
    db_wf d2 /\ getMessage d2 (msg_id m) = Some m /\ msg_status m = ms_pending /\
    msg_sender m = smo_sender opts /\ msg_target m = smo_target opts /\
    msg_content m = smo_content opts /\ msg_conversation_id m = conv_id c /\
    is_Some (getConversation d2 (conv_id c)) /\
    responses_to d2 (msg_id m) = [] /\ msg_id m ∉ q_message_id <$> db_queue d2 /\
    db_clients d2 = db_clients d /\ db_clock d2 = db_clock d.
Proof.
  intros Hwf Hg.
  destruct (get_or_create_ok opts d Hwf Hg) as (c & d1 & E1 & Hwf1 & Hc & Hcl1 & Hclk1).
  destruct (createMessage_wf_ok d1 (send_input opts c) Hwf1 (send_fks_ok opts c d1 Hwf1 Hc))
    as (d2 & E2 & Hwf2 & Hget & _ & Hmsgs & Hq & Hcl2 & Hclk2 & Hconv).
  exists c, (new_message_row (db_uuid d1) (db_clock d1) (send_input opts c)), d2.
  unfold sendMessage. rewrite (st_bind_ok _ _ _ _ _ E1), (st_bind_ok _ _ _ _ _ E2).
  split; [done|]. split; [done|]. split; [done|].
  do 5 (split; [done|]). split; [apply Hconv; by eexists|]. split; [|split].
  - unfold responses_to. rewrite Hmsgs, List.filter_app. simpl.
    change (responses_to d1 (db_uuid d1) ++ [] = []). by rewrite responses_to_fresh.
  - rewrite Hq. by apply fresh_not_queued.
  - split; congruence.
Qed.

(** ** [sendMessage]: the three routes *)

Section Routes.
Context `{CodexTiers} `{Runtime} (md : MessageDispatcher) (opts : SendMessageOpts) (d : Db).
Hypothesis Hwf : db_wf d.
Hypothesis Hconv : conv_given_ok d opts.

Lemma finish_wait_done message result :
  (smo_waitForResponse opts = false \/ is_Some (smr_response result)) ->
  finish_wait opts message result = st_ret result.
Proof.
  intros Hw. unfold finish_wait.
  destruct Hw as [->|[r Hr]]; [done|]. rewrite Hr, andb_false_r. done.
Qed.

(** C9: An online target (in the registry): the stored message is marked
    [delivered] and no queue row is made; the returned message object
    still says [pending], and that is the status the [send_message]
    tool reports. *)
Theorem sendMessage_online :
  targetOnline md (smo_target opts) = true -> smo_waitForResponse opts = false ->
  exists res d', sendMessage md opts d = Ok (res, d') /\ db_wf d' /\
    msg_status (smr_message res) = ms_pending /\
    (exists m', getMessage d' (msg_id (smr_message res)) = Some m' /\
                msg_status m' = ms_delivered) /\
    msg_id (smr_message res) ∉ q_message_id <$> db_queue d' /\
    smr_response res = None.
Proof.
  intros Hon Hw.
  destruct (sendMessage_prefix md opts d Hwf Hconv)
    as (c & m & d2 & E & Hwf2 & Hget & Hst & _ & _ & _ & _ & _ & _ & Hq & _).
  rewrite E. unfold route. rewrite Hon. cbn [st_bind st_modify st_ret].
  rewrite finish_wait_done by (by left). eexists _, _. split; [reflexivity|]. simpl.
  split; [by apply updateMessageStatus_wf|]. split; [done|]. split; [|done].
  rewrite getMessage_updateMessageStatus, N.eqb_refl, Hget. by eexists.
Qed.

(** An offline Claude: the message stays [pending] and gets one queue
    row for Claude, with the priority of [priorityMap], no attempts yet,
    at most five, and due at once. *)
Lemma enqueue_route_ok :
  targetOnline md (smo_target opts) = false -> smo_target opts = claude ->
  smo_waitForResponse opts = false ->
  exists res d', sendMessage md opts d = Ok (res, d') /\ db_wf d' /\
    getMessage d' (msg_id (smr_message res)) = Some (smr_message res) /\
    msg_status (smr_message res) = ms_pending /\
    exists q, q ∈ db_queue d' /\ q_message_id q = msg_id (smr_message res) /\
      q_target q = claude /\ q_priority q = priorityMap (smo_priority opts) /\
      q_attempts q = 0%Z /\ q_max_attempts q = 5%Z /\
      q_ready (db_clock d') claude q = true.
Proof.
  intros Hoff Hcl Hw.
  destruct (sendMessage_prefix md opts d Hwf Hconv)
    as (c & m & d2 & E & Hwf2 & Hget & Hst & _ & _ & _ & _ & _ & _ & Hq & _).
  rewrite E. unfold route. rewrite Hoff, Hcl. cbn [negb].
  rewrite bool_decide_false by done.
  unfold st_bind at 1 2.
  rewrite (enqueueMessage_ok d2 (msg_id m) claude _ _ Hwf2 Hq (ex_intro _ m Hget)).
  cbn [st_ret]. rewrite finish_wait_done by (by left). eexists _, _. split; [reflexivity|].
  split; [eapply enqueueMessage_wf; [exact Hwf2|apply enqueueMessage_ok; by eauto]|].
  split; [done|]. split; [done|].
  eexists. split; [apply elem_of_app; right; by apply list_elem_of_singleton|].
  do 5 (split; [done|]). unfold q_ready. simpl.
  by rewrite Z.leb_refl.
Qed.

(** C10: Sending to an offline Claude stores the message [pending] and makes one queue row for Claude with [priorityMap]'s priority, no attempts, five allowed, due at once. *)
Theorem sendMessage_enqueues :
  targetOnline md (smo_target opts) = false -> smo_target opts = claude ->
  smo_waitForResponse opts = false ->
  exists res d', sendMessage md opts d = Ok (res, d') /\ db_wf d' /\
    getMessage d' (msg_id (smr_message res)) = Some (smr_message res) /\
    msg_status (smr_message res) = ms_pending /\
    exists q, q ∈ db_queue d' /\ q_message_id q = msg_id (smr_message res) /\
      q_target q = claude /\ q_priority q = priorityMap (smo_priority opts) /\
      q_attempts q = 0%Z /\ q_max_attempts q = 5%Z /\
      q_ready (db_clock d') claude q = true.
Proof. exact (enqueue_route_ok). Qed.
End Routes.

(** ** The Codex route *)

Lemma message_fks_ok_intro d cid s t content ty prio resp meta :
  db_wf d -> is_Some (getConversation d cid) ->
  (forall r, resp = Some r -> is_Some (getMessage d r)) ->
  message_fks_ok d (mkCreateMessageInput cid s t content ty prio resp meta) = true.
Proof.
  intros Hwf Hc Hr. unfold message_fks_ok. simpl.
  rewrite !bool_decide_true by (done || by apply getClient_is_Some).
  destruct resp as [r|]; [|done]. by rewrite bool_decide_true by (by apply Hr).
Qed.

Lemma stored_not_fresh d m id : db_wf d -> getMessage d id = Some m -> id <> db_uuid d.
Proof. intros Hwf Hm ->. by rewrite (fresh_message_id d Hwf) in Hm. Qed.

(** Storing a tier's answer: the response row becomes the (only, hence
    earliest) response to the message, which is marked [responded]. *)
Lemma store_response_ok opts c m content d :
  db_wf d -> is_Some (getConversation d (conv_id c)) -> getMessage d (msg_id m) = Some m ->
  responses_to d (msg_id m) = [] ->
  exists r d', store_response opts c m content d = Ok (r, d') /\ db_wf d' /\
    getResponseToMessage d' (msg_id m) = Some r /\ msg_response_to_id r = Some (msg_id m) /\
    msg_sender r = smo_target opts /\ msg_target r = smo_sender opts /\ msg_content r = content /\
    getMessage d' (msg_id m) = Some (set_status_row (db_clock d) ms_responded m).
Proof.
  intros Hwf Hc Hm Hnone. unfold store_response.
  destruct (createMessage_wf_ok d _ Hwf
              (message_fks_ok_intro d (conv_id c) (smo_target opts) (smo_sender opts) content
                 (getResponseType (smo_messageType opts)) None (Some (msg_id m)) None Hwf Hc
                 (fun r Hr => ltac:(injection Hr as <-; by eexists))))
    as (d1 & E & Hwf1 & Hget1 & Hother & Hmsgs & _ & _ & Hclk & _).
  rewrite (st_bind_ok _ _ _ _ _ E). cbn [st_bind st_modify st_ret].
  pose proof (stored_not_fresh d m _ Hwf Hm) as Hne.
  eexists _, _. split; [reflexivity|]. split; [by apply updateMessageStatus_wf|].
  split; [|split; [done|split; [done|split; [done|split; [done|]]]]].
  - apply getResponseToMessage_single. rewrite responses_to_updateMessageStatus.
    unfold responses_to. rewrite Hmsgs, List.filter_app.
    change (List.filter _ (db_messages d)) with (responses_to d (msg_id m)). rewrite Hnone.
    simpl. rewrite bool_decide_true by done. simpl.
    destruct (N.eqb_spec (db_uuid d) (msg_id m)); [congruence|done].
  - rewrite getMessage_updateMessageStatus, N.eqb_refl, Hother by done. by rewrite Hm, Hclk.
Qed.

Section CodexRoute.
Context `{CodexTiers} (md : MessageDispatcher) (opts : SendMessageOpts)
        (c : Conversation) (m : Message) (d : Db).
Hypothesis Hwf : db_wf d.
Hypothesis Hc : is_Some (getConversation d (conv_id c)).
Hypothesis Hm : getMessage d (msg_id m) = Some m.
Hypothesis Hnone : responses_to d (msg_id m) = [].

Definition chosen_persona : AgentPersona :=
  match smo_agent opts with Some a => persona_for a | None => selectAgent (smo_content opts) end.

(** The outcome the Codex route promises: it always reports an
    invocation and the persona; a response it returns is the stored
    earliest response to the message, from the target to the sender,
    and the message is then [responded]; otherwise the message row is
    as it was. *)
Definition codex_outcome (res : SendMessageResult) (d' : Db) : Prop :=
  db_wf d' /\ smr_invoked res = Some true /\ smr_message res = m /\
  smr_selectedAgent res = Some (persona_name chosen_persona) /\
  match smr_response res with
  | Some r => getResponseToMessage d' (msg_id m) = Some r /\
              msg_response_to_id r = Some (msg_id m) /\
              msg_sender r = smo_target opts /\ msg_target r = smo_sender opts /\
              (exists m', getMessage d' (msg_id m) = Some m' /\ msg_status m' = ms_responded)
  | None => getMessage d' (msg_id m) = Some m
  end.

Lemma store_response_outcome d0 content via err :
  db_wf d0 -> is_Some (getConversation d0 (conv_id c)) -> getMessage d0 (msg_id m) = Some m ->
  responses_to d0 (msg_id m) = [] ->
  exists res d', (do r <- store_response opts c m content;
                  st_ret (mkSendMessageResult m c (Some r) (Some true) via err
                            (Some (persona_name chosen_persona)))) d0 = Ok (res, d') /\
                 codex_outcome res d'.
Proof.
  intros Hwf0 Hc0 Hm0 Hn0.
  destruct (store_response_ok opts c m content d0 Hwf0 Hc0 Hm0 Hn0)
    as (r & d' & E & Hwf' & Hr & Hto & Hs & Ht & _ & Hst).
  rewrite (st_bind_ok _ _ _ _ _ E). eexists _, _. split; [reflexivity|].
  do 4 (split; [done|]). do 4 (split; [done|]). by eexists.
Qed.

Lemma codex_route_outcome :
  exists res d', codex_route md opts c m d = Ok (res, d') /\ codex_outcome res d'.
Proof.
  unfold codex_route. fold chosen_persona.
  destruct (tryCodexMcpServer _ _ _ _ _) as [resp|].
  { by apply store_response_outcome. }
  destruct (exec_invoke m _ _ _ d) as [ir d1] eqn:Ex.
  pose proof (exec_frame m (buildConversationContext d (conv_id c))
                (default 300000%Z (smo_timeoutMs opts)) (default true (smo_useOutputSchema opts)) d)
    as Hfr. cbv zeta in Hfr. rewrite Ex in Hfr. simpl in Hfr.
  destruct Hfr as (Hcl & Hcv & Hms & Hq & _ & Hu).
  assert (Hwf1 : db_wf d1) by (eapply db_wf_frame; eauto).
  assert (Hm1 : getMessage d1 (msg_id m) = Some m) by (unfold getMessage; by rewrite Hms).
  assert (Hc1 : is_Some (getConversation d1 (conv_id c))) by (unfold getConversation; by rewrite Hcv).
  assert (Hn1 : responses_to d1 (msg_id m) = []) by (unfold responses_to; by rewrite Hms).
  destruct (ir_response ir) as [s|]; [destruct (negb _)|].
  - by apply store_response_outcome.
  - eexists _, _. split; [reflexivity|]. by do 4 (split; [done|]).
  - eexists _, _. split; [reflexivity|]. by do 4 (split; [done|]).
Qed.
End CodexRoute.

(** ** [sendMessage]: errors, totality and the invariant *)

Section SendProofs.
Context `{CodexTiers} `{Runtime} (md : MessageDispatcher) (opts : SendMessageOpts) (d : Db).

(** C8: A [conversationId] that names no conversation is the one error:
    [sendMessage] throws [Conversation not found] and writes nothing. *)
Theorem sendMessage_not_found cid :
  smo_conversationId opts = Some cid -> getConversation d cid = None ->
  sendMessage md opts d = Fail (ErrThrown ("Conversation not found: " +:+ pretty cid)).
Proof.
  intros Hcid Hnone. unfold sendMessage, get_or_create_conversation. rewrite Hcid.
  unfold st_bind at 1. by rewrite Hnone.
Qed.

Lemma route_ok c m d2 :
  db_wf d2 -> getMessage d2 (msg_id m) = Some m -> is_Some (getConversation d2 (conv_id c)) ->
  responses_to d2 (msg_id m) = [] -> msg_id m ∉ q_message_id <$> db_queue d2 ->
  exists result d3, route md opts c m d2 = Ok (result, d3) /\ db_wf d3.
Proof.
  intros Hwf2 Hget Hc Hn Hq. unfold route.
  destruct (targetOnline md (smo_target opts)).
  - eexists _, _. split; [reflexivity|]. by apply updateMessageStatus_wf.
  - case_bool_decide.
    + destruct (codex_route_outcome md opts c m d2 Hwf2 Hc Hget Hn) as (res & d3 & E & Hwf3 & _).
      eauto.
    + rewrite (st_bind_ok _ _ _ _ _ (enqueueMessage_ok d2 (msg_id m) _ _ _ Hwf2 Hq
                                      (ex_intro _ m Hget))).
      eexists _, _. split; [reflexivity|].
      eapply enqueueMessage_wf; [exact Hwf2|]. apply enqueueMessage_ok; eauto.
Qed.

Lemma finish_wait_ok m result d3 :
  db_wf d3 -> exists res d', finish_wait opts m result d3 = Ok (res, d') /\ db_wf d'.
Proof.
  intros Hwf3. unfold finish_wait. destruct (_ && _); [|eauto].
  destruct (wait_spec (msg_id m) (default 60000%Z (smo_timeoutMs opts)) d3)
    as (r & d' & E & _ & Hwf').
  rewrite (st_bind_ok _ _ _ _ _ E). destruct r; eexists _, _; (split; [reflexivity|]); auto.
Qed.

(** C7: On a well-formed store [sendMessage] fails only for a missing
    conversation: otherwise it returns a result (the wait included), and
    every route keeps the invariant of the store. *)
Theorem sendMessage_total_wf :
  db_wf d -> conv_given_ok d opts ->
  exists res d', sendMessage md opts d = Ok (res, d') /\ db_wf d'.
Proof.
  intros Hwf Hg.
  destruct (sendMessage_prefix md opts d Hwf Hg)
    as (c & m & d2 & E & Hwf2 & Hget & _ & _ & _ & _ & _ & Hc & Hn & Hq & _).
  rewrite E. destruct (route_ok c m d2 Hwf2 Hget Hc Hn Hq) as (result & d3 & E3 & Hwf3).
  rewrite (st_bind_ok _ _ _ _ _ E3). by apply finish_wait_ok.
Qed.

(** C11: An offline Codex is invoked: the result reports the invocation and
    the persona (the named one, or [selectAgent]'s choice), and a
    response it carries is the stored earliest response to the message,
    which is then [responded]. *)
Theorem sendMessage_codex :
  db_wf d -> conv_given_ok d opts ->
  targetOnline md (smo_target opts) = false -> smo_target opts = codex ->
  smo_waitForResponse opts = false ->
  exists res d', sendMessage md opts d = Ok (res, d') /\
    codex_outcome opts (smr_message res) res d'.
Proof.
  intros Hwf Hg Hoff Hcx Hw.
  destruct (sendMessage_prefix md opts d Hwf Hg)
    as (c & m & d2 & E & Hwf2 & Hget & _ & _ & _ & _ & _ & Hc & Hn & _ & _).
  rewrite E. unfold route. rewrite Hoff, Hcx. cbn [negb]. rewrite bool_decide_true by done.
  destruct (codex_route_outcome md opts c m d2 Hwf2 Hc Hget Hn) as (res & d3 & E3 & Hout).
  rewrite (st_bind_ok _ _ _ _ _ E3), finish_wait_done by (by left).
  exists res, d3. split; [done|]. destruct Hout as (H1 & H2 & Hmsg & H4). subst m. done.
Qed.
End SendProofs.

(** ** The conversation context *)

Lemma conversation_messages_fresh d :
  db_wf d ->
  List.filter (fun m => N.eqb (msg_conversation_id m) (db_uuid d)) (db_messages d) = [].
Proof.
  intros Hwf. apply filter_nil_bool. intros m Hm.
  eapply Forall_forall in Hm; [|exact (wf_msg_conv _ Hwf)]. simpl in Hm.
  destruct (N.eqb_spec (msg_conversation_id m) (db_uuid d)) as [E|]; [|done].
  rewrite E in Hm. pose proof (fresh_conversation_id d Hwf) as Hf. unfold getConversation in Hf.
  rewrite Hf in Hm. by destruct Hm.
Qed.

(** C15: Without a [conversationId] the context handed to Codex as the
    "Previous conversation" is the new message itself, so the prompt
    carries the content twice. *)
Theorem fresh_conversation_context `{CodexTiers} `{Runtime} md opts d :
  db_wf d -> smo_conversationId opts = None ->
  exists c m d2,
    sendMessage md opts d = (do result <- route md opts c m; finish_wait opts m result) d2 /\
    buildConversationContext d2 (conv_id c) =
      "[" +:+ client_name (smo_sender opts) +:+ "]: " +:+ smo_content opts.
Proof.
  intros Hwf Hnone.
  destruct (createConversation_wf_ok (mkCreateConversationInput None None (smo_sender opts) None)
              d Hwf) as (c & d1 & E1 & Hid & Hc & Hwf1 & _ & Hmsgs1 & _ & _).
  pose proof (send_fks_ok opts c d1 Hwf1 Hc) as Hfk.
  exists c, (new_message_row (db_uuid d1) (db_clock d1) (send_input opts c)).
  eexists. unfold sendMessage, get_or_create_conversation. rewrite Hnone.
  rewrite (st_bind_ok _ _ _ _ _ E1), (st_bind_ok _ _ _ _ _ (createMessage_ok d1 _ Hwf1 Hfk)).
  split; [reflexivity|].
  unfold buildConversationContext, getConversationMessages. simpl.
  rewrite List.filter_app, Hmsgs1, Hid, (conversation_messages_fresh d Hwf). simpl.
  rewrite Hid, N.eqb_refl. reflexivity.
Qed.

(** C16: [buildConversationContext] is built from the 20 oldest messages
    of the conversation, oldest first ([ORDER BY created_at ASC LIMIT
    20]): the conversation's messages are those 20 (or all, when fewer)
    followed by messages no older than any of them, so a message with 20
    strictly older messages in its conversation, the newest message of a
    longer conversation among them, is not in the context. *)
Theorem buildConversationContext_oldest d cid :
  let rows := List.filter (fun m => N.eqb (msg_conversation_id m) cid) (db_messages d) in
  exists ms rest,
    buildConversationContext d cid = join_context ms /\
    rows ≡ₚ ms ++ rest /\
    length ms = Nat.min 20 (length rows) /\
    StronglySorted (fun a b => msg_created_at a <= msg_created_at b)%Z ms /\
    (forall a b, a ∈ ms -> b ∈ rest -> (msg_created_at a <= msg_created_at b)%Z) /\
    (forall m, m ∈ rows ->
       (20 <= length (List.filter (fun x => Z.ltb (msg_created_at x) (msg_created_at m)) rows))%nat ->
       m ∉ ms).
Proof.
  intros rows.
  destruct (isort_page msg_older 20 0 rows msg_older_total msg_older_trans)
    as (before & rest & Hp & Hb & Hl & _ & Hpa & Hs).
  assert (before = []) as -> by (apply length_zero_iff_nil; lia).
  change ([] ++ ?l) with l in Hp.
  set (ms := take 20 (drop 0 (isort msg_older rows))) in *.
  exists ms, rest. unfold msg_older, le_rel in *. rewrite Nat.sub_0_r in Hl. split_and!; try done.
  - eapply StronglySorted_impl; [|exact Hs]. intros x y. apply Z.leb_le.
  - intros x y Hx Hy. apply Z.leb_le. by apply Hpa.
  - intros m Hm Hcount Hin.
    set (P := fun x => Z.ltb (msg_created_at x) (msg_created_at m)) in *.
    assert (Hr : List.filter P rest = []).
    { apply filter_nil_bool. intros b Hb'. unfold P. apply Z.ltb_ge, Z.leb_le. by apply Hpa. }
    pose proof (Permutation_length (filter_perm_bool P _ _ Hp)) as Hlen.
    rewrite List.filter_app, Hr, app_nil_r in Hlen.
    assert (Hlt : (length (List.filter P ms) < length ms)%nat).
    { apply filter_length_lt, Exists_exists. exists m. split; [done|]. apply Z.ltb_irrefl. }
    lia.
Qed.

(** ** From [send_message] to delivery *)

(** C12: A message sent to an offline Claude is delivered by the first drain
    after Claude's session marks it online in the mirror, unless its
    queue row is left out of that drain's batch, which then holds ten
    ready rows of Claude, each of a higher priority or of the same
    priority and due no later. *)
Theorem offline_claude_delivered_after_connect `{CodexTiers} `{Runtime} md opts d sid :
  db_wf d -> conv_given_ok d opts ->
  targetOnline md (smo_target opts) = false -> smo_target opts = claude ->
  smo_waitForResponse opts = false ->
  exists res d', sendMessage md opts d = Ok (res, d') /\
    let d'' := updateClientStatus claude cs_online sid d' in
    delivered_and_dequeued (msg_id (smr_message res)) (processQueueForTarget claude d'').2 \/
    (exists q, q ∈ db_queue d'' /\ q_message_id q = msg_id (smr_message res) /\
       q ∉ dequeueMessages d'' claude 10 /\
       length (dequeueMessages d'' claude 10) = 10%nat /\
       forall q', q' ∈ dequeueMessages d'' claude 10 ->
         q' ∈ db_queue d'' /\ q_target q' = claude /\
         ((q_priority q < q_priority q')%Z \/
          (q_priority q' = q_priority q /\ (q_next_attempt q' <= q_next_attempt q)%Z))).
Proof.
  intros Hwf Hg Hoff Hcl Hw.
  destruct (enqueue_route_ok md opts d Hwf Hg Hoff Hcl Hw)
    as (res & d' & E & Hwf' & Hget & _ & q & Hq & Hqm & _ & _ & _ & _ & Hr).
  exists res, d'. split; [done|]. simpl.
  set (d'' := updateClientStatus claude cs_online sid d').
  destruct (decide (q ∈ dequeueMessages d'' claude 10)) as [Hin|Hout].
  - left. rewrite <- Hqm. eapply drain_delivers_dequeued; [by apply updateClientStatus_wf| |exact Hin|].
    + apply updateClientStatus_online, (wf_clients _ Hwf').
    + rewrite Hqm. exact Hget.
  - right. exists q. destruct (dequeue_complete d'' claude 10 q Hq Hr Hout) as [Hl Hb].
    do 4 (split; [done|]). intros q' Hq'.
    destruct (dequeue_sound d'' claude 10 q' Hq') as (Hq'in & Ht & _).
    split; [done|split; [done|]]. by apply q_before_spec, Hb.
Qed.

(** ** Witnesses on [demo_db]

    A Codex whose MCP server answers every prompt with "answer" and whose
    [codex exec] fails with no output, and a timer that advances the
    clock by exactly the delay. *)
Lemma demo_exec_frame (m : Message) (ctx : string) (t : Z) (s : bool) (d : Db) :
  let d' := (mkInvocationResult false None "boom", d).2 in
  db_clients d' = db_clients d /\ db_conversations d' = db_conversations d /\
  db_messages d' = db_messages d /\ db_queue d' = db_queue d /\
  db_context d' = db_context d /\ (db_uuid d <= db_uuid d')%N.
Proof. simpl. repeat split. lia. Qed.

Definition demo_tiers : CodexTiers :=
  {| mcp_send := fun _ _ _ => Some "answer";
     exec_invoke := fun _ _ _ _ d => (mkInvocationResult false None "boom", d);
     exec_frame := demo_exec_frame |}.

Definition demo_sleep (k : nat) (iv : Z) (d : Db) : Db := set_clock (db_clock d + iv / 8) d.

Lemma demo_sleep_advances k iv d : (db_clock d + iv / 8 <= db_clock (demo_sleep k iv d))%Z.
Proof. simpl. lia. Qed.

Lemma demo_sleep_wf k iv d : db_wf d -> db_wf (demo_sleep k iv d).
Proof. intros Hwf. eapply db_wf_frame; [exact Hwf|..]; simpl; done || lia. Qed.

Definition demo_runtime : Runtime :=
  {| sleep := demo_sleep; sleep_advances := demo_sleep_advances; sleep_wf := demo_sleep_wf |}.

(** No registry: every target is offline to the dispatcher. *)
Definition md_offline : MessageDispatcher := mkMessageDispatcher None true.
Definition md_claude_online : MessageDispatcher :=
  mkMessageDispatcher (Some (setOnline claude "sess-1" emptyRegistry)) true.

Definition opts_to (target : ClientId) (cid : option Uuid) (wait : bool) : SendMessageOpts :=
  mkSendMessageOpts cid codex target "Why is this failing?" None (Some prio_urgent) wait None None
    None None.

Lemma sendMessage_total_wf_witness :
  db_wf demo_db /\ conv_given_ok demo_db (opts_to codex None true) /\
  exists res d', @sendMessage demo_tiers demo_runtime md_offline (opts_to codex None true) demo_db
                   = Ok (res, d') /\ db_wf d'.
Proof.
  assert (Hg : conv_given_ok demo_db (opts_to codex None true)) by exact I.
  split; [apply demo_db_wf|split; [exact Hg|]].
  apply (@sendMessage_total_wf demo_tiers demo_runtime md_offline _ demo_db demo_db_wf Hg).
Defined.

Lemma sendMessage_not_found_witness :
  @sendMessage demo_tiers demo_runtime md_offline (opts_to claude (Some 9%N) false) demo_db =
    Fail (ErrThrown ("Conversation not found: " +:+ pretty 9%N)).
Proof.
  apply (@sendMessage_not_found demo_tiers demo_runtime md_offline _ demo_db 9%N);
    vm_compute; reflexivity.
Defined.

Lemma sendMessage_online_witness :
  exists res d', @sendMessage demo_tiers demo_runtime md_claude_online
                   (opts_to claude (Some 1%N) false) demo_db = Ok (res, d') /\ db_wf d' /\
    msg_status (smr_message res) = ms_pending /\
    (exists m', getMessage d' (msg_id (smr_message res)) = Some m' /\
                msg_status m' = ms_delivered) /\
    msg_id (smr_message res) ∉ q_message_id <$> db_queue d' /\ smr_response res = None.
Proof.
  apply (@sendMessage_online demo_tiers demo_runtime md_claude_online
           (opts_to claude (Some 1%N) false) demo_db demo_db_wf).
  - vm_compute. by eexists.
  - reflexivity.
  - reflexivity.
Defined.

Lemma sendMessage_enqueues_witness :
  exists res d', @sendMessage demo_tiers demo_runtime md_offline
                   (opts_to claude (Some 1%N) false) demo_db = Ok (res, d') /\ db_wf d' /\
    getMessage d' (msg_id (smr_message res)) = Some (smr_message res) /\
    msg_status (smr_message res) = ms_pending /\
    exists q, q ∈ db_queue d' /\ q_message_id q = msg_id (smr_message res) /\
      q_target q = claude /\ q_priority q = priorityMap (Some prio_urgent) /\ q_attempts q = 0%Z /\
      q_max_attempts q = 5%Z /\ q_ready (db_clock d') claude q = true.
Proof.
  apply (@sendMessage_enqueues demo_tiers demo_runtime md_offline (opts_to claude (Some 1%N) false)
           demo_db demo_db_wf).
  - vm_compute. by eexists.
  - reflexivity.
  - reflexivity.
  - reflexivity.
Defined.

Lemma sendMessage_codex_witness :
  exists res d', @sendMessage demo_tiers demo_runtime md_offline
                   (opts_to codex (Some 1%N) false) demo_db = Ok (res, d') /\
    codex_outcome (opts_to codex (Some 1%N) false) (smr_message res) res d'.
Proof.
  apply (@sendMessage_codex demo_tiers demo_runtime md_offline (opts_to codex (Some 1%N) false)
           demo_db demo_db_wf).
  - vm_compute. by eexists.
  - reflexivity.
  - reflexivity.
  - reflexivity.
Defined.

Lemma offline_claude_delivered_after_connect_witness :
  exists res d', @sendMessage demo_tiers demo_runtime md_offline
                   (opts_to claude None false) demo_db = Ok (res, d') /\
    let d'' := updateClientStatus claude cs_online (Some "sess-2") d' in
    delivered_and_dequeued (msg_id (smr_message res)) (processQueueForTarget claude d'').2 \/
    (exists q, q ∈ db_queue d'' /\ q_message_id q = msg_id (smr_message res) /\
       q ∉ dequeueMessages d'' claude 10 /\
       length (dequeueMessages d'' claude 10) = 10%nat /\
       forall q', q' ∈ dequeueMessages d'' claude 10 ->
         q' ∈ db_queue d'' /\ q_target q' = claude /\
         ((q_priority q < q_priority q')%Z \/
          (q_priority q' = q_priority q /\ (q_next_attempt q' <= q_next_attempt q)%Z))).
Proof.
  apply (@offline_claude_delivered_after_connect demo_tiers demo_runtime md_offline _ demo_db
           (Some "sess-2") demo_db_wf); [exact I|reflexivity|reflexivity|reflexivity].
Defined.

Lemma fresh_conversation_context_witness :
  exists c m d2,
    @sendMessage demo_tiers demo_runtime md_offline (opts_to codex None false) demo_db =
      (do result <- @route demo_tiers md_offline (opts_to codex None false) c m;
       @finish_wait demo_runtime (opts_to codex None false) m result) d2 /\
    buildConversationContext d2 (conv_id c) = "[codex]: Why is this failing?".
Proof.
  apply (@fresh_conversation_context demo_tiers demo_runtime md_offline (opts_to codex None false)
           demo_db demo_db_wf).
  reflexivity.
Defined.
